(** * Beekeeping record keeper: a model of [src/index.tsx]

    The program keeps one mutable [state] (hives with their inspection
    reports), mirrors it into [localStorage] as a JSON blob, re-renders the
    hive list after each change and talks to a generative-AI service.

    The model is a shallow embedding: the module-level [state], the storage,
    the parts of the page the handlers write to, and the traces of alerts,
    console output and network requests are the fields of one [World];
    every function of the source that touches them is a computation in a
    state-and-exception monad over [World]. *)

From Stdlib Require Import ZArith Ascii String List Lia.
From stdpp Require Import base tactics option list strings pretty gmap sorting.

Local Open Scope Z_scope.

(** ** JSON text

    [JSON.stringify] and [JSON.parse] on the values the application state
    is made of: strings, arrays and objects with string keys.  An object
    keeps its members in insertion order, as a JavaScript object does for
    keys that are not array indices.  A string is a sequence of 8-bit
    units; [JSON.stringify] passes every unit from 0x20 up through
    unchanged except the quote and the backslash. *)

Module JSON.

#[local] Unset Elimination Schemes.
Inductive value : Type :=
| Str (s : string)
| Arr (elements : list value)
| Obj (members : list (string * value)).
#[local] Set Elimination Schemes.

Definition dquote : ascii := "034"%char.
Definition backslash : ascii := "092"%char.

Definition hex_digit (n : N) : ascii :=
  match n with
  | 0 => "0" | 1 => "1" | 2 => "2" | 3 => "3" | 4 => "4" | 5 => "5"
  | 6 => "6" | 7 => "7" | 8 => "8" | 9 => "9" | 10 => "a" | 11 => "b"
  | 12 => "c" | 13 => "d" | 14 => "e" | _ => "f"
  end%char%N.

(** One code unit of QuoteJSONString: the short escapes, [\u00xx] for the
    other control characters, the unit itself otherwise. *)
Definition quote_char (c : ascii) : string :=
  let n := N_of_ascii c in
  if (n =? 8)%N then "\b"
  else if (n =? 9)%N then "\t"
  else if (n =? 10)%N then "\n"
  else if (n =? 12)%N then "\f"
  else if (n =? 13)%N then "\r"
  else if (n =? 34)%N then String backslash (String dquote "")
  else if (n =? 92)%N then "\\"
  else if (n <? 32)%N then
    "\u00" +:+ String (hex_digit (n / 16)) (String (hex_digit (n mod 16)) "")
  else String c "".

Fixpoint quote_chars (s : string) : string :=
  match s with
  | EmptyString => ""
  | String c s' => quote_char c +:+ quote_chars s'
  end.

Definition quote (s : string) : string :=
  String dquote (quote_chars s +:+ String dquote "").

Fixpoint join_comma (parts : list string) : string :=
  match parts with
  | [] => ""
  | [p] => p
  | p :: ps => p +:+ "," +:+ join_comma ps
  end.

(** [JSON.stringify(v)] without a replacer or indentation. *)
Fixpoint stringify (v : value) : string :=
  match v with
  | Str s => quote s
  | Arr l => "[" +:+ join_comma (map stringify l) +:+ "]"
  | Obj m =>
      "{" +:+ join_comma
                (map (fun kv => quote (fst kv) +:+ ":" +:+ stringify (snd kv)) m)
          +:+ "}"
  end.

Definition is_ws (c : ascii) : bool :=
  let n := N_of_ascii c in
  ((n =? 32) || (n =? 9) || (n =? 10) || (n =? 13))%N.

Fixpoint skip_ws (s : string) : string :=
  match s with
  | String c s' => if is_ws c then skip_ws s' else s
  | EmptyString => s
  end.

Definition hex_value (c : ascii) : option N :=
  let n := N_of_ascii c in
  if ((48 <=? n) && (n <=? 57))%N then Some (n - 48)%N
  else if ((97 <=? n) && (n <=? 102))%N then Some (n - 87)%N
  else if ((65 <=? n) && (n <=? 70))%N then Some (n - 55)%N
  else None.

(** The code unit written [\uh1h2h3h4].  Units from 0x80 up have no
    8-bit counterpart that every reading of the text agrees on, and
    [stringify] never writes them: they are refused. *)
Definition unicode_escape (h1 h2 h3 h4 : ascii) : option ascii :=
  a ← hex_value h1; b ← hex_value h2; c ← hex_value h3; d ← hex_value h4;
  let n := (((a * 16 + b) * 16 + c) * 16 + d)%N in
  if (n <? 128)%N then Some (ascii_of_N n) else None.

Definition simple_escape (e : ascii) : option ascii :=
  let n := N_of_ascii e in
  if (n =? 34)%N then Some dquote
  else if (n =? 92)%N then Some backslash
  else if (n =? 47)%N then Some "/"%char
  else if (n =? 98)%N then Some "008"%char
  else if (n =? 102)%N then Some "012"%char
  else if (n =? 110)%N then Some "010"%char
  else if (n =? 114)%N then Some "013"%char
  else if (n =? 116)%N then Some "009"%char
  else None.

Definition cons_char (c : ascii) (r : string * string) : string * string :=
  (String c (fst r), snd r).

(** The characters of a string literal after its opening quote, up to
    and including the closing quote; returns the string and the text
    that follows. *)
Fixpoint parse_chars (s : string) : option (string * string) :=
  match s with
  | EmptyString => None
  | String c rest =>
      if Ascii.eqb c dquote then Some ("", rest)
      else if Ascii.eqb c backslash then
        match rest with
        | String e rest1 =>
            if Ascii.eqb e "u" then
              match rest1 with
              | String h1 (String h2 (String h3 (String h4 rest2))) =>
                  match unicode_escape h1 h2 h3 h4 with
                  | Some u => cons_char u <$> parse_chars rest2
                  | None => None
                  end
              | _ => None
              end
            else
              match simple_escape e with
              | Some u => cons_char u <$> parse_chars rest1
              | None => None
              end
        | EmptyString => None
        end
      else if (N_of_ascii c <? 32)%N then None
      else cons_char c <$> parse_chars rest
  end.

(** Recursive descent over JSON text.  [fuel] bounds the number of
    values, elements and members entered; [parse] supplies more than any
    text of that length can use. *)
Fixpoint parse_value (fuel : nat) (s : string) : option (value * string) :=
  match fuel with
  | O => None
  | S fuel =>
      match skip_ws s with
      | String c rest =>
          if Ascii.eqb c dquote then
            r ← parse_chars rest; Some (Str (fst r), snd r)
          else if Ascii.eqb c "[" then
            match skip_ws rest with
            | String c' rest' =>
                if Ascii.eqb c' "]" then Some (Arr [], rest')
                else r ← parse_elements fuel rest; Some (Arr (fst r), snd r)
            | EmptyString => None
            end
          else if Ascii.eqb c "{" then
            match skip_ws rest with
            | String c' rest' =>
                if Ascii.eqb c' "}" then Some (Obj [], rest')
                else r ← parse_members fuel rest; Some (Obj (fst r), snd r)
            | EmptyString => None
            end
          else None
      | EmptyString => None
      end
  end
with parse_elements (fuel : nat) (s : string) : option (list value * string) :=
  match fuel with
  | O => None
  | S fuel =>
      r ← parse_value fuel s;
      match skip_ws (snd r) with
      | String c rest =>
          if Ascii.eqb c "," then
            rs ← parse_elements fuel rest; Some (fst r :: fst rs, snd rs)
          else if Ascii.eqb c "]" then Some ([fst r], rest)
          else None
      | EmptyString => None
      end
  end
with parse_members (fuel : nat) (s : string)
  : option (list (string * value) * string) :=
  match fuel with
  | O => None
  | S fuel =>
      match skip_ws s with
      | String q rest =>
          if Ascii.eqb q dquote then
            k ← parse_chars rest;
            match skip_ws (snd k) with
            | String c rest1 =>
                if Ascii.eqb c ":" then
                  r ← parse_value fuel rest1;
                  match skip_ws (snd r) with
                  | String c' rest2 =>
                      if Ascii.eqb c' "," then
                        rs ← parse_members fuel rest2;
                        Some ((fst k, fst r) :: fst rs, snd rs)
                      else if Ascii.eqb c' "}" then
                        Some ([(fst k, fst r)], rest2)
                      else None
                  | EmptyString => None
                  end
                else None
            | EmptyString => None
            end
          else None
      | EmptyString => None
      end
  end.

(** [JSON.parse(text)]; [None] is the SyntaxError. *)
Definition parse (text : string) : option value :=
  r ← parse_value (S (String.length text)) text;
  match skip_ws (snd r) with
  | EmptyString => Some (fst r)
  | String _ _ => None
  end.

(** Property read [o[k]] on a parsed object: of two members with one
    key the later one is the value. *)
Fixpoint get (k : string) (m : list (string * value)) : option value :=
  match m with
  | [] => None
  | (k', v) :: m' =>
      match get k m' with
      | Some v' => Some v'
      | None => if String.eqb k k' then Some v else None
      end
  end.

(** Vocabulary of the round-trip proof. *)

(** The characters a value's text can start with. *)
Definition opens_value (c : ascii) : Prop :=
  c = dquote \/ c = "["%char \/ c = "{"%char.

(** The text of one member of an object. *)
Definition member_text (kv : string * value) : string :=
  quote (fst kv) +:+ ":" +:+ stringify (snd kv).

(** What the round trip asks of one value: enough fuel for its own text
    parses it back and leaves what follows untouched. *)
Definition parses_back (v : value) : Prop :=
  forall (fuel : nat) (rest : string),
    (String.length (stringify v) <= fuel)%nat ->
    parse_value fuel (stringify v +:+ rest) = Some (v, rest).

End JSON.

(** ** Dates

    A time value is a number of milliseconds since the epoch, as
    [Date.now()] returns it.  [toISOString] writes it in the format
    [YYYY-MM-DDTHH:mm:ss.sssZ] (with a sign and six year digits outside the
    years 0 to 9999), and [getTime] reads that format back. *)

Definition msPerDay : Z := 86400000.

(** Year, month (1 to 12) and day of the month of a day number counted
    from 1970-01-01, in the proleptic Gregorian calendar. *)
Definition civil_from_days (days : Z) : Z * Z * Z :=
  let z := days + 719468 in
  let era := z / 146097 in
  let doe := z - era * 146097 in
  let yoe := (doe - doe / 1460 + doe / 36524 - doe / 146096) / 365 in
  let doy := doe - (365 * yoe + yoe / 4 - yoe / 100) in
  let mp := (5 * doy + 2) / 153 in
  let d := doy - (153 * mp + 2) / 5 + 1 in
  let m := if mp <? 10 then mp + 3 else mp - 9 in
  let y := yoe + era * 400 + (if m <=? 2 then 1 else 0) in
  (y, m, d).

Definition days_from_civil (y m d : Z) : Z :=
  let y' := if m <=? 2 then y - 1 else y in
  let era := y' / 400 in
  let yoe := y' - era * 400 in
  let doy := (153 * (if 2 <? m then m - 3 else m + 9) + 2) / 5 + d - 1 in
  let doe := yoe * 365 + yoe / 4 - yoe / 100 + doy in
  era * 146097 + doe - 719468.

Definition is_leap (y : Z) : bool :=
  ((y mod 4 =? 0) && negb (y mod 100 =? 0)) || (y mod 400 =? 0).

Definition days_in_month (y m : Z) : Z :=
  if m =? 2 then (if is_leap y then 29 else 28)
  else if (m =? 4) || (m =? 6) || (m =? 9) || (m =? 11) then 30
  else 31.

Definition digit_char (n : Z) : ascii := ascii_of_N (48 + Z.to_N (n mod 10)).

(** [n] in decimal, exactly [width] digits, zero padded. *)
Fixpoint digits (width : nat) (n : Z) : string :=
  match width with
  | O => ""
  | S w => digits w (n / 10) +:+ String (digit_char n) ""
  end.

Definition year_string (y : Z) : string :=
  if (0 <=? y) && (y <=? 9999) then digits 4 y
  else (if y <? 0 then "-" else "+") +:+ digits 6 (Z.abs y).

(** [new Date(t).toISOString()]. *)
Definition toISOString (t : Z) : string :=
  let '(y, m, d) := civil_from_days (t / msPerDay) in
  let ms := t mod msPerDay in
  year_string y +:+ "-" +:+ digits 2 m +:+ "-" +:+ digits 2 d +:+ "T"
  +:+ digits 2 (ms / 3600000) +:+ ":" +:+ digits 2 (ms / 60000 mod 60) +:+ ":"
  +:+ digits 2 (ms / 1000 mod 60) +:+ "." +:+ digits 3 (ms mod 1000) +:+ "Z".

Definition digit_value (c : ascii) : option Z :=
  let n := N_of_ascii c in
  if ((48 <=? n) && (n <=? 57))%N then Some (Z.of_N n - 48) else None.

Fixpoint take_digits_from (width : nat) (acc : Z) (s : string) : option (Z * string) :=
  match width with
  | O => Some (acc, s)
  | S w =>
      match s with
      | String c s' => v ← digit_value c; take_digits_from w (acc * 10 + v) s'
      | EmptyString => None
      end
  end.

Definition take_digits (width : nat) (s : string) : option (Z * string) :=
  take_digits_from width 0 s.

Definition expect (c : ascii) (s : string) : option string :=
  match s with
  | String c' s' => if Ascii.eqb c c' then Some s' else None
  | EmptyString => None
  end.

Definition take_year (s : string) : option (Z * string) :=
  match s with
  | String c s' =>
      if Ascii.eqb c "+" then take_digits 6 s'
      else if Ascii.eqb c "-" then
        r ← take_digits 6 s';
        if fst r =? 0 then None else Some (- fst r, snd r)
      else take_digits 4 s
  | EmptyString => None
  end.

(** [new Date(s).getTime()] for a string in the format [toISOString]
    writes, the only one the program stores.  [None] is NaN; it is also
    the answer for the other formats a browser may accept, which are not
    modelled. *)
Definition getTime (s : string) : option Z :=
  '(y, s) ← take_year s;
  s ← expect "-" s; '(mo, s) ← take_digits 2 s;
  s ← expect "-" s; '(d, s) ← take_digits 2 s;
  s ← expect "T" s; '(h, s) ← take_digits 2 s;
  s ← expect ":" s; '(mi, s) ← take_digits 2 s;
  s ← expect ":" s; '(sec, s) ← take_digits 2 s;
  s ← expect "." s; '(ms, s) ← take_digits 3 s;
  s ← expect "Z" s;
  match s with
  | EmptyString =>
      if (1 <=? mo) && (mo <=? 12) && (1 <=? d) && (d <=? days_in_month y mo)
         && (h <=? 23) && (mi <=? 59) && (sec <=? 59)
      then
        let t := days_from_civil y mo d * msPerDay
                 + h * 3600000 + mi * 60000 + sec * 1000 + ms in
        if Z.abs t <=? 8640000000000000 then Some t else None
      else None
  | String _ _ => None
  end.

(** ** Data model (the interfaces of the source)

    TypeScript's literal types are erased when the program runs: a field
    such as [queen] holds whatever string the form control carried, so the
    fields are strings here.  The two optional fields are absent ([None])
    or a string. *)

Record InspectionReport : Type := {
  r_id : string;
  r_date : string;
  queen : string;
  disease : string;
  eggs : string;
  honeyStores : string;
  feeding : string;
  feedingAmount : option string;
  notes : option string
}.

Record Hive : Type := {
  h_id : string;
  name : string;
  location : string;
  reports : list InspectionReport
}.

Record AppState : Type := {
  hives : list Hive
}.

(** The object a record is at run time, as [JSON.stringify] walks it:
    members in the order of the object literal, an absent optional field
    skipped. *)
Definition optional_member (k : string) (o : option string)
  : list (string * JSON.value) :=
  match o with
  | Some s => [(k, JSON.Str s)]
  | None => []
  end.

Definition report_to_json (r : InspectionReport) : JSON.value :=
  JSON.Obj
    ([("id", JSON.Str (r_id r)); ("date", JSON.Str (r_date r));
      ("queen", JSON.Str (queen r)); ("disease", JSON.Str (disease r));
      ("eggs", JSON.Str (eggs r)); ("honeyStores", JSON.Str (honeyStores r));
      ("feeding", JSON.Str (feeding r))]
     ++ optional_member "feedingAmount" (feedingAmount r)
     ++ optional_member "notes" (notes r)).

Definition hive_to_json (h : Hive) : JSON.value :=
  JSON.Obj
    [("id", JSON.Str (h_id h)); ("name", JSON.Str (name h));
     ("location", JSON.Str (location h));
     ("reports", JSON.Arr (map report_to_json (reports h)))].

Definition state_to_json (s : AppState) : JSON.value :=
  JSON.Obj [("hives", JSON.Arr (map hive_to_json (hives s)))].

(** Reading a parsed value at the declared types.  [None] means the value
    does not have the shape of the interface. *)
Definition get_string (k : string) (m : list (string * JSON.value)) : option string :=
  match JSON.get k m with
  | Some (JSON.Str s) => Some s
  | _ => None
  end.

Definition get_optional_string (k : string) (m : list (string * JSON.value))
  : option (option string) :=
  match JSON.get k m with
  | Some (JSON.Str s) => Some (Some s)
  | Some _ => None
  | None => Some None
  end.

Definition get_array (k : string) (m : list (string * JSON.value))
  : option (list JSON.value) :=
  match JSON.get k m with
  | Some (JSON.Arr l) => Some l
  | _ => None
  end.

Definition report_of_json (v : JSON.value) : option InspectionReport :=
  match v with
  | JSON.Obj m =>
      i ← get_string "id" m; d ← get_string "date" m;
      q ← get_string "queen" m; di ← get_string "disease" m;
      e ← get_string "eggs" m; hs ← get_string "honeyStores" m;
      f ← get_string "feeding" m;
      fa ← get_optional_string "feedingAmount" m;
      n ← get_optional_string "notes" m;
      Some {| r_id := i; r_date := d; queen := q; disease := di; eggs := e;
              honeyStores := hs; feeding := f; feedingAmount := fa; notes := n |}
  | _ => None
  end.

Definition hive_of_json (v : JSON.value) : option Hive :=
  match v with
  | JSON.Obj m =>
      i ← get_string "id" m; n ← get_string "name" m;
      l ← get_string "location" m;
      rs ← get_array "reports" m;
      rs' ← mapM report_of_json rs;
      Some {| h_id := i; name := n; location := l; reports := rs' |}
  | _ => None
  end.

Definition state_of_json (v : JSON.value) : option AppState :=
  match v with
  | JSON.Obj m =>
      hs ← get_array "hives" m;
      hs' ← mapM hive_of_json hs;
      Some {| hives := hs' |}
  | _ => None
  end.

(** ** The page and the outside world *)

(** One accordion entry of a hive card: the report date its header shows
    (through [toLocaleDateString]) and the labelled lines of its panel. *)
Record ReportPanel : Type := {
  header_date : string;
  panel_lines : list (string * string)
}.

Record HiveCard : Type := {
  card_name : string;
  card_location : string;
  card_hive_id : string;
  inspections : list ReportPanel
}.

(** Content of the element [hives-list]. *)
Inductive HivesList : Type :=
| Placeholder
| Cards (cards : list HiveCard).

Record File : Type := {
  file_name : string;
  file_type : string
}.

(** What is sent to [ai.models.generateContent].  The advice prompt is a
    fixed instruction followed by the hives printed as JSON: the request
    is kept as the model name and the hives it prints.  The image request
    carries the file's type and its base64 payload, next to a fixed
    instruction. *)
Inductive AiRequest : Type :=
| AdviceRequest (model : string) (data : list Hive)
| ImageRequest (model : string) (mimeType : string) (data : option string).

Inductive Error : Type :=
| SyntaxError
| ShapeError
| Rejection (reason : string).

(** How a promise settles. *)
Inductive Settled (A : Type) : Type :=
| Fulfilled (a : A)
| Rejected (e : Error).
Arguments Fulfilled {A} a.
Arguments Rejected {A} e.

Record Dom : Type := {
  hives_list : HivesList;
  ai_advice_result : string;
  image_analysis_result : string;
  loading_spinner_display : string;
  add_hive_modal_show : bool;
  add_inspection_modal_show : bool;
  feeding_amount_group_display : string
}.

Record World : Type := {
  state : AppState;
  localStorage : gmap string string;
  dom : Dom;
  alerts : list string;
  console : list string;
  network : list AiRequest
}.

(** ** Computations: a state monad over [World] with exceptions *)

Inductive Completion (A : Type) : Type :=
| Normal (a : A)
| Throw (e : Error).
Arguments Normal {A} a.
Arguments Throw {A} e.

Definition M (A : Type) : Type := World -> Completion A * World.

Definition ret {A} (a : A) : M A := fun w => (Normal a, w).

Definition bind {A B} (m : M A) (k : A -> M B) : M B :=
  fun w =>
    match m w with
    | (Normal a, w') => k a w'
    | (Throw e, w') => (Throw e, w')
    end.

Definition throw {A} (e : Error) : M A := fun w => (Throw e, w).

Definition gets {A} (f : World -> A) : M A := fun w => (Normal (f w), w).

Definition modify (f : World -> World) : M unit := fun w => (Normal tt, f w).

Declare Scope js_scope.
Delimit Scope js_scope with js.
Notation "x <- m ;; k" := (bind m (fun x => k))
  (at level 100, m at next level, right associativity) : js_scope.
Notation "m ;; k" := (bind m (fun _ => k))
  (at level 100, right associativity) : js_scope.

(** [try { body } catch (error) { handler error } finally { final }]. *)
Definition try_catch_finally {A} (body : M A) (handler : Error -> M A) (final : M unit)
  : M A :=
  fun w =>
    let '(c, w1) :=
      match body w with
      | (Normal a, w') => (Normal a, w')
      | (Throw e, w') => handler e w'
      end in
    match final w1 with
    | (Normal _, w2) => (c, w2)
    | (Throw e, w2) => (Throw e, w2)
    end.

(** What happens outside the handler: how the service and the file reader
    answer, and what other handlers do to the world while this one is
    suspended at an [await]. *)
Record Env : Type := {
  generateContent : AiRequest -> Settled (option string);
  readAsDataURL : File -> Settled string;
  meanwhile : World -> World
}.

(** [await p]: the handler is suspended, the world moves on, and the
    handler resumes with the value or with the rejection thrown. *)
Definition await {A} (env : Env) (p : Settled A) : M A :=
  fun w =>
    match p with
    | Fulfilled a => (Normal a, meanwhile env w)
    | Rejected e => (Throw e, meanwhile env w)
    end.

(** Field updates. *)
Definition set_state (f : AppState -> AppState) (w : World) : World :=
  {| state := f (state w); localStorage := localStorage w; dom := dom w;
     alerts := alerts w; console := console w; network := network w |}.

Definition set_localStorage (f : gmap string string -> gmap string string) (w : World)
  : World :=
  {| state := state w; localStorage := f (localStorage w); dom := dom w;
     alerts := alerts w; console := console w; network := network w |}.

Definition set_dom (f : Dom -> Dom) (w : World) : World :=
  {| state := state w; localStorage := localStorage w; dom := f (dom w);
     alerts := alerts w; console := console w; network := network w |}.

Definition add_alert (msg : string) (w : World) : World :=
  {| state := state w; localStorage := localStorage w; dom := dom w;
     alerts := alerts w ++ [msg]; console := console w; network := network w |}.

Definition add_console (msg : string) (w : World) : World :=
  {| state := state w; localStorage := localStorage w; dom := dom w;
     alerts := alerts w; console := console w ++ [msg]; network := network w |}.

Definition add_request (req : AiRequest) (w : World) : World :=
  {| state := state w; localStorage := localStorage w; dom := dom w;
     alerts := alerts w; console := console w; network := network w ++ [req] |}.

Definition set_hives (f : list Hive -> list Hive) (s : AppState) : AppState :=
  {| hives := f (hives s) |}.

Definition set_reports (f : list InspectionReport -> list InspectionReport) (h : Hive)
  : Hive :=
  {| h_id := h_id h; name := name h; location := location h;
     reports := f (reports h) |}.

Definition set_hives_list (v : HivesList) (d : Dom) : Dom :=
  {| hives_list := v; ai_advice_result := ai_advice_result d;
     image_analysis_result := image_analysis_result d;
     loading_spinner_display := loading_spinner_display d;
     add_hive_modal_show := add_hive_modal_show d;
     add_inspection_modal_show := add_inspection_modal_show d;
     feeding_amount_group_display := feeding_amount_group_display d |}.

Definition set_ai_advice_result (v : string) (d : Dom) : Dom :=
  {| hives_list := hives_list d; ai_advice_result := v;
     image_analysis_result := image_analysis_result d;
     loading_spinner_display := loading_spinner_display d;
     add_hive_modal_show := add_hive_modal_show d;
     add_inspection_modal_show := add_inspection_modal_show d;
     feeding_amount_group_display := feeding_amount_group_display d |}.

Definition set_image_analysis_result (v : string) (d : Dom) : Dom :=
  {| hives_list := hives_list d; ai_advice_result := ai_advice_result d;
     image_analysis_result := v;
     loading_spinner_display := loading_spinner_display d;
     add_hive_modal_show := add_hive_modal_show d;
     add_inspection_modal_show := add_inspection_modal_show d;
     feeding_amount_group_display := feeding_amount_group_display d |}.

Definition set_loading_spinner_display (v : string) (d : Dom) : Dom :=
  {| hives_list := hives_list d; ai_advice_result := ai_advice_result d;
     image_analysis_result := image_analysis_result d;
     loading_spinner_display := v;
     add_hive_modal_show := add_hive_modal_show d;
     add_inspection_modal_show := add_inspection_modal_show d;
     feeding_amount_group_display := feeding_amount_group_display d |}.

Definition set_add_hive_modal_show (v : bool) (d : Dom) : Dom :=
  {| hives_list := hives_list d; ai_advice_result := ai_advice_result d;
     image_analysis_result := image_analysis_result d;
     loading_spinner_display := loading_spinner_display d;
     add_hive_modal_show := v;
     add_inspection_modal_show := add_inspection_modal_show d;
     feeding_amount_group_display := feeding_amount_group_display d |}.

Definition set_add_inspection_modal_show (v : bool) (d : Dom) : Dom :=
  {| hives_list := hives_list d; ai_advice_result := ai_advice_result d;
     image_analysis_result := image_analysis_result d;
     loading_spinner_display := loading_spinner_display d;
     add_hive_modal_show := add_hive_modal_show d;
     add_inspection_modal_show := v;
     feeding_amount_group_display := feeding_amount_group_display d |}.

Definition set_feeding_amount_group_display (v : string) (d : Dom) : Dom :=
  {| hives_list := hives_list d; ai_advice_result := ai_advice_result d;
     image_analysis_result := image_analysis_result d;
     loading_spinner_display := loading_spinner_display d;
     add_hive_modal_show := add_hive_modal_show d;
     add_inspection_modal_show := add_inspection_modal_show d;
     feeding_amount_group_display := v |}.

(** ** The program *)

Local Open Scope js_scope.

Definition textModel : string := "gemini-2.5-flash".
Definition visionModel : string := "gemini-2.5-flash".

(** [let state: AppState = { hives: [] }] on a fresh page. *)
Definition initial_state : AppState := {| hives := [] |}.

Definition storage_key : string := "beekeepingAppState".

(** *** State management *)

Definition loadStateFromLocalStorage : M unit :=
  savedState <- gets (fun w => localStorage w !! storage_key) ;;
  match savedState with
  | None => ret tt
  | Some "" => ret tt
  | Some text =>
      match JSON.parse text with
      | None => throw SyntaxError
      | Some v =>
          match state_of_json v with
          | Some s => modify (set_state (fun _ => s))
          | None => throw ShapeError
          end
      end
  end.

Definition saveStateToLocalStorage : M unit :=
  s <- gets state ;;
  modify (set_localStorage <[storage_key := JSON.stringify (state_to_json s)]>).

(** *** Utility functions *)

Inductive Modal : Type := AddHiveModal | AddInspectionModal.

Definition openModal (modal : Modal) : M unit :=
  match modal with
  | AddHiveModal => modify (set_dom (set_add_hive_modal_show true))
  | AddInspectionModal => modify (set_dom (set_add_inspection_modal_show true))
  end.

Definition closeModal (modal : Modal) : M unit :=
  match modal with
  | AddHiveModal => modify (set_dom (set_add_hive_modal_show false))
  | AddInspectionModal => modify (set_dom (set_add_inspection_modal_show false))
  end.

Definition showLoading (isLoading : bool) : M unit :=
  modify (set_dom (set_loading_spinner_display (if isLoading then "flex" else "none"))).

Definition alert (msg : string) : M unit := modify (add_alert msg).

Definition console_error (msg : string) : M unit := modify (add_console msg).

(** [s.split(',')[1]]: the text between the first and the second comma,
    [None] (undefined) when [s] has no comma. *)
Fixpoint up_to_comma (s : string) : string :=
  match s with
  | EmptyString => ""
  | String c s' => if Ascii.eqb c "," then "" else String c (up_to_comma s')
  end.

Fixpoint split_comma_1 (s : string) : option string :=
  match s with
  | EmptyString => None
  | String c s' => if Ascii.eqb c "," then Some (up_to_comma s') else split_comma_1 s'
  end.

Definition fileToBase64 (env : Env) (file : File) : Settled (option string) :=
  match readAsDataURL env file with
  | Fulfilled result => Fulfilled (split_comma_1 result)
  | Rejected e => Rejected e
  end.

(** *** Rendering the hive list *)

(** The comparator handed to [sort]:
    [new Date(b.date).getTime() - new Date(a.date).getTime()].  With an
    invalid date the difference is NaN, which [sort] takes as 0. *)
Definition comparefn (a b : InspectionReport) : Z :=
  match getTime (r_date b), getTime (r_date a) with
  | Some tb, Some ta => tb - ta
  | _, _ => 0
  end.

(** [Array.prototype.sort(cmp)] is a stable sort: an element moves behind
    a later one only when the comparator puts it strictly after.  For a
    comparator that is not a consistent order the result is left to the
    implementation; this is the insertion sort among them. *)
Fixpoint sort_insert {A} (cmp : A -> A -> Z) (x : A) (l : list A) : list A :=
  match l with
  | [] => [x]
  | y :: l' => if 0 <? cmp x y then y :: sort_insert cmp x l' else x :: l
  end.

Fixpoint Array_sort {A} (cmp : A -> A -> Z) (l : list A) : list A :=
  match l with
  | [] => []
  | x :: l' => sort_insert cmp x (Array_sort cmp l')
  end.

Definition truthy (o : option string) : option string :=
  match o with
  | Some "" => None
  | _ => o
  end.

(** The entry the parser builds from the markup of one report: the header
    and the lines of the panel.  [honeyStores], [feedingAmount] and
    [notes] are put into the markup as they are, so the lines hold them
    as text when they are free of markup characters ([plain_text] below);
    a text with markup gives other elements, which this model of the page
    does not cover. *)
Definition render_report (report : InspectionReport) : ReportPanel :=
  {| header_date := r_date report;
     panel_lines :=
       [("Ana Arı:", if String.eqb (queen report) "yes" then "Göründü" else "Görünmədi");
        ("Xəstəlik:",
         if String.eqb (disease report) "yes" then "Əlamət var" else "Əlamət yoxdur");
        ("Yumurta:", if String.eqb (eggs report) "yes" then "Var" else "Yoxdur");
        ("Bal Ehtiyatı:", honeyStores report);
        ("Yemləmə:",
         if String.eqb (feeding report) "yes"
         then "Bəli (" +:+ default "qeyd edilməyib" (truthy (feedingAmount report)) +:+ ")"
         else "Xeyr")]
       ++ match truthy (notes report) with
          | Some n => [("Qeydlər:", n)]
          | None => []
          end |}.

(** [hive.reports.sort(...)] reorders the array the hive holds; the card
    is then built from that array. *)
Definition sort_reports (hive : Hive) : Hive :=
  set_reports (Array_sort comparefn) hive.

(** The card the parser builds from [card.innerHTML] for one hive.  The
    name, the location and the identifier are put into the markup as they
    are; the card holds them as written when they are free of markup
    characters ([plain_text] below), and only then is it the card of the
    page. *)
Definition render_card (hive : Hive) : HiveCard :=
  {| card_name := name hive;
     card_location := location hive;
     card_hive_id := h_id hive;
     inspections := map render_report (reports hive) |}.

Definition renderHivesView : M unit :=
  hs <- gets (fun w => hives (state w)) ;;
  match hs with
  | [] => modify (set_dom (set_hives_list Placeholder))
  | _ :: _ =>
      modify (set_state (set_hives (map sort_reports))) ;;
      sorted <- gets (fun w => hives (state w)) ;;
      modify (set_dom (set_hives_list (Cards (map render_card sorted))))
  end.

(** *** Handlers

    A handler receives what the page holds when the event fires: the
    values of the form's fields and the clock readings it takes.
    [e.preventDefault()] and [form.reset()] act on the event and on the
    form, which are not part of the world the properties speak of.  The
    elements [getElement] looks up belong to the page's fixed markup, so
    the lookups succeed; the radio groups and fields read by the
    inspection handler are required by the form, so each carries a
    value. *)

(** [`hive_${Date.now()}`] with empty reports. *)
Definition new_hive (hive_name hive_location : string) (now : Z) : Hive :=
  {| h_id := "hive_" +:+ pretty now;
     name := hive_name;
     location := hive_location;
     reports := [] |}.

Definition handleAddHive (hive_name hive_location : string) (now : Z) : M unit :=
  let newHive := new_hive hive_name hive_location now in
  modify (set_state (set_hives (fun hs => hs ++ [newHive]))) ;;
  saveStateToLocalStorage ;;
  renderHivesView ;;
  closeModal AddHiveModal.

(** The inspection form as submitted: the hidden hive identifier, the
    checked radio of each group, the select and the two text fields. *)
Record InspectionForm : Type := {
  inspection_hive_id : string;
  form_queen : string;
  form_disease : string;
  form_eggs : string;
  honey_stores : string;
  form_feeding : string;
  feeding_amount : string;
  general_notes : string
}.

Definition push_report (r : InspectionReport) (hive : Hive) : Hive :=
  set_reports (fun rs => rs ++ [r]) hive.

(** [now] is what [Date.now()] answers for the identifier and [today]
    what [new Date()] holds for the report date. *)
Definition new_report (form : InspectionForm) (now today : Z) : InspectionReport :=
  {| r_id := "report_" +:+ pretty now;
     r_date := toISOString today;
     queen := form_queen form;
     disease := form_disease form;
     eggs := form_eggs form;
     honeyStores := honey_stores form;
     feeding := form_feeding form;
     feedingAmount := Some (feeding_amount form);
     notes := Some (general_notes form) |}.

Definition handleAddInspection (form : InspectionForm) (now today : Z) : M unit :=
  let hiveId := inspection_hive_id form in
  hs <- gets (fun w => hives (state w)) ;;
  match list_find (fun h => h_id h = hiveId) hs with
  | None => ret tt
  | Some (i, _) =>
      let newReport := new_report form now today in
      modify (set_state (set_hives (alter (push_report newReport) i))) ;;
      saveStateToLocalStorage ;;
      renderHivesView ;;
      closeModal AddInspectionModal ;;
      modify (set_dom (set_feeding_amount_group_display "none"))
  end.

Definition no_data_alert : string :=
  "Analiz etmək üçün heç bir pətək məlumatı yoxdur.".

Definition advice_error_message : string :=
  "Analiz zamanı xəta baş verdi. Zəhmət olmasa, bir az sonra yenidən cəhd edin.".

Definition no_file_alert : string :=
  "Zəhmət olmasa, analiz etmək üçün bir şəkil seçin.".

Definition image_error_message : string :=
  "Şəkil analizi zamanı xəta baş verdi. Zəhmət olmasa, bir az sonra yenidən cəhd edin.".

(** Calling the service: the request leaves, and the handler awaits the
    answer. *)
Definition request (env : Env) (req : AiRequest) : M (option string) :=
  modify (add_request req) ;;
  await env (generateContent env req).

(** [el.textContent = response.text]: an undefined text empties the
    element. *)
Definition text_of (response_text : option string) : string :=
  default "" response_text.

Definition handleGetAIAdvice (env : Env) : M unit :=
  hs <- gets (fun w => hives (state w)) ;;
  match hs with
  | [] => alert no_data_alert
  | _ :: _ =>
      showLoading true ;;
      modify (set_dom (set_ai_advice_result "")) ;;
      try_catch_finally
        (data <- gets (fun w => hives (state w)) ;;
         response_text <- request env (AdviceRequest textModel data) ;;
         modify (set_dom (set_ai_advice_result (text_of response_text))))
        (fun error =>
           console_error "AI Advice Error:" ;;
           modify (set_dom (set_ai_advice_result advice_error_message)))
        (showLoading false)
  end.

Definition handleAnalyzeImage (env : Env) (files : list File) : M unit :=
  match files with
  | [] => alert no_file_alert
  | file :: _ =>
      showLoading true ;;
      modify (set_dom (set_image_analysis_result "")) ;;
      try_catch_finally
        (base64Image <- await env (fileToBase64 env file) ;;
         response_text <-
           request env (ImageRequest visionModel (file_type file) base64Image) ;;
         modify (set_dom (set_image_analysis_result (text_of response_text))))
        (fun error =>
           console_error "Image Analysis Error:" ;;
           modify (set_dom (set_image_analysis_result image_error_message)))
        (showLoading false)
  end.

(** *** Sequences of mutating actions *)

Inductive Action : Type :=
| AddHive (hive_name hive_location : string) (now : Z)
| AddInspection (form : InspectionForm) (now today : Z).

Definition perform (a : Action) : M unit :=
  match a with
  | AddHive n l now => handleAddHive n l now
  | AddInspection form now today => handleAddInspection form now today
  end.

Fixpoint perform_all (acts : list Action) : M unit :=
  match acts with
  | [] => ret tt
  | a :: acts' => perform a ;; perform_all acts'
  end.

(** The world a computation leaves behind. *)
Definition exec {A} (m : M A) (w : World) : World := snd (m w).

Definition empty_dom : Dom :=
  {| hives_list := Cards []; ai_advice_result := ""; image_analysis_result := "";
     loading_spinner_display := ""; add_hive_modal_show := false;
     add_inspection_modal_show := false; feeding_amount_group_display := "" |}.

(** A freshly loaded page with nothing in storage. *)
Definition fresh_world : World :=
  {| state := initial_state; localStorage := ∅; dom := empty_dom;
     alerts := []; console := []; network := [] |}.

(** ** Vocabulary of the properties *)

(** A date string that [new Date] reads as a time value. *)
Definition valid_date (d : string) : Prop := is_Some (getTime d).

(** [d1] is not older than [d2]: both are dates and [d1] is the same
    instant or a later one.  A list in which every entry is not older
    than the entries after it is in descending date order. *)
Definition not_older (d1 d2 : string) : bool :=
  match getTime d1, getTime d2 with
  | Some t1, Some t2 => t2 <=? t1
  | _, _ => false
  end.

(** The instant a report is dated, 0 when its date is not one. *)
Definition time_of (r : InspectionReport) : Z := default 0 (getTime (r_date r)).

Definition newest_first (rs : list InspectionReport) : Prop :=
  StronglySorted (fun a b => not_older (r_date a) (r_date b) = true) rs.

Definition dated (rs : list InspectionReport) : Prop :=
  Forall (fun r => valid_date (r_date r)) rs.

(** Every report of the store carries a valid date, as the reports the
    inspection handler writes do. *)
Definition all_dated (s : AppState) : Prop :=
  Forall (fun h => dated (reports h)) (hives s).

Definition cards_of (v : HivesList) : list HiveCard :=
  match v with
  | Placeholder => []
  | Cards cards => cards
  end.

(** The state the blob in storage stands for, if there is one. *)
Definition persisted (w : World) : option AppState :=
  text ← localStorage w !! storage_key;
  v ← JSON.parse text;
  state_of_json v.

(** The same hive, its reports possibly in another order. *)
Definition same_hive_up_to_order (h1 h2 : Hive) : Prop :=
  h_id h1 = h_id h2 /\ name h1 = name h2 /\ location h1 = location h2
  /\ reports h1 ≡ₚ reports h2.

Definition hive_ids (s : AppState) : list string := map h_id (hives s).

Definition all_reports (s : AppState) : list InspectionReport :=
  concat (map reports (hives s)).

Definition report_ids (s : AppState) : list string := map r_id (all_reports s).

(** The clock readings that become hive identifiers, and those that
    become report identifiers, in a sequence of actions. *)
Fixpoint hive_clock (acts : list Action) : list Z :=
  match acts with
  | [] => []
  | AddHive _ _ now :: acts' => now :: hive_clock acts'
  | AddInspection _ _ _ :: acts' => hive_clock acts'
  end.

Fixpoint report_clock (acts : list Action) : list Z :=
  match acts with
  | [] => []
  | AddHive _ _ _ :: acts' => report_clock acts'
  | AddInspection _ now _ :: acts' => now :: report_clock acts'
  end.

Definition add_hive_actions (submissions : list (string * string * Z)) : list Action :=
  map (fun s => AddHive (fst (fst s)) (snd (fst s)) (snd s)) submissions.

(** The advice request issued from world [w] is rejected. *)
Definition advice_fails (env : Env) (w : World) : Prop :=
  exists e, generateContent env (AdviceRequest textModel (hives (state w))) = Rejected e.

(** Analysing [file] fails: reading the file is rejected, or the request
    built from it is. *)
Definition image_analysis_fails (env : Env) (file : File) : Prop :=
  match fileToBase64 env file with
  | Rejected _ => True
  | Fulfilled data =>
      exists e,
        generateContent env (ImageRequest visionModel (file_type file) data) = Rejected e
  end.

(** What an action does to the store before it writes it to storage. *)
Definition store_update (a : Action) (s : AppState) : AppState :=
  match a with
  | AddHive n l now => set_hives (fun hs => hs ++ [new_hive n l now]) s
  | AddInspection form now today =>
      match list_find (fun h => h_id h = inspection_hive_id form) (hives s) with
      | Some (i, _) => set_hives (alter (push_report (new_report form now today)) i) s
      | None => s
      end
  end.

(** The action gets as far as changing the store. *)
Definition mutates (a : Action) (s : AppState) : Prop :=
  match a with
  | AddHive _ _ _ => True
  | AddInspection form _ _ => In (inspection_hive_id form) (hive_ids s)
  end.

Definition hive_id_at (now : Z) : string := "hive_" +:+ pretty now.
Definition report_id_at (now : Z) : string := "report_" +:+ pretty now.

(** ** Sample data *)

Definition sample_form : InspectionForm :=
  {| inspection_hive_id := "hive_1700000000000"; form_queen := "yes";
     form_disease := "no"; form_eggs := "yes"; honey_stores := "good";
     form_feeding := "yes"; feeding_amount := "1 kg"; general_notes := "" |}.

(** One hive, inspected once. *)
Definition sample_world : World :=
  exec (perform_all [AddHive "A" "north" 1700000000000;
                     AddInspection sample_form 1700000001000 1700000001000])
    fresh_world.

(** A second inspection of the same hive, one second later. *)
Definition second_inspection : Action :=
  AddInspection sample_form 1700000002000 1700000002000.

(** The sample world with the second report appended and not yet rendered. *)
Definition unsorted_world : World :=
  set_state (store_update second_inspection) sample_world.

(** A later visit of the page: nothing in memory, the blob in storage. *)
Definition reloaded_page (w : World) : World :=
  set_localStorage (fun _ => localStorage w) fresh_world.

(** A service that is down, and a reader that works. *)
Definition failing_env : Env :=
  {| generateContent := fun _ => Rejected (Rejection "503");
     readAsDataURL := fun _ => Fulfilled "data:image/jpeg;base64,AAAA";
     meanwhile := fun w => w |}.

Definition sample_file : File := {| file_name := "frame.jpg"; file_type := "image/jpeg" |}.

(** The time values a [Date] can hold. *)
Definition time_value (t : Z) : Prop := Z.abs t <= 8640000000000000.

(** The clock reading an inspection is dated with is a time value. *)
Definition clock_ok (a : Action) : Prop :=
  match a with
  | AddHive _ _ _ => True
  | AddInspection _ _ today => time_value today
  end.

(** ** Vocabulary of the further properties *)

(** The hive list on the page is the projection of the store: one card
    per hive, in order, each listing the hive's reports as stored. *)
Definition shows_store (w : World) : Prop :=
  cards_of (hives_list (dom w)) = map render_card (hives (state w)).

Fixpoint no_comma (s : string) : bool :=
  match s with
  | EmptyString => true
  | String c s' => negb (Ascii.eqb c ",") && no_comma s'
  end.

(** The request the advice handler makes from world [w]. *)
Definition advice_request (w : World) : AiRequest :=
  AdviceRequest textModel (hives (state w)).

(** The request the image handler makes for [file] once it is read. *)
Definition image_request (file : File) (data : option string) : AiRequest :=
  ImageRequest visionModel (file_type file) data.


(** A service that answers, with a reader that fails. *)
Definition answering_env : Env :=
  {| generateContent := fun _ => Fulfilled (Some "ok");
     readAsDataURL := fun _ => Rejected (Rejection "NotReadableError");
     meanwhile := fun w => w |}.

(** The hive of the sample world, as stored. *)
Definition sample_hive : Hive :=
  {| h_id := "hive_1700000000000"; name := "A"; location := "north";
     reports := [new_report sample_form 1700000001000 1700000001000] |}.

(** A service whose response arrives without text, with a reader that
    works. *)
Definition malformed_env : Env :=
  {| generateContent := fun _ => Fulfilled None;
     readAsDataURL := fun _ => Fulfilled "data:image/jpeg;base64,AAAA";
     meanwhile := fun w => w |}.

(** ** Text without markup

    The render functions put the texts of the store into [innerHTML]
    unescaped.  A text reaches the page as written when it holds none of
    the characters the HTML parser gives a meaning to in element content
    or in a double-quoted attribute value: the angle brackets, the
    ampersand, the double quote, and NUL and carriage return, which the
    parser replaces.  For a store of such texts the cards and options of
    this model are the elements the parser builds; a text with markup can
    bring further elements, buttons and accordion headers among them, and
    is outside the model of the page. *)
Definition markup_char (c : ascii) : bool :=
  existsb (Nat.eqb (nat_of_ascii c)) [0; 13; 34; 38; 60; 62]%nat.

Fixpoint plain_textb (s : string) : bool :=
  match s with
  | EmptyString => true
  | String c s' => negb (markup_char c) && plain_textb s'
  end.

Definition plain_text (s : string) : Prop := plain_textb s = true.

(** The texts of a report, of a hive and of the store that the hive list
    and the hive selector interpolate. *)
Definition plain_report (r : InspectionReport) : Prop :=
  plain_text (honeyStores r)
  /\ plain_text (default "" (feedingAmount r))
  /\ plain_text (default "" (notes r)).

Definition plain_hive (h : Hive) : Prop :=
  plain_text (h_id h) /\ plain_text (name h) /\ plain_text (location h)
  /\ Forall plain_report (reports h).

Definition plain_store (s : AppState) : Prop := Forall plain_hive (hives s).

(** The texts a submission brings into the store. *)
Definition plain_form (form : InspectionForm) : Prop :=
  plain_text (honey_stores form)
  /\ plain_text (feeding_amount form)
  /\ plain_text (general_notes form).

Definition plain_action (a : Action) : Prop :=
  match a with
  | AddHive n l _ => plain_text n /\ plain_text l
  | AddInspection form _ _ => plain_form form
  end.

(** ** The rest of the page

    Beside the regions the handlers above write to, the page has the four
    views and the navigation bar, the accordions of the hive list and of
    the FAQ, the image panel, and the hidden field of the inspection
    form.  They are the other fields of a [Page], around the [World].
    The markup is not part of the program: which views, buttons and other
    elements exist is part of the page a function starts from. *)

(** An element of class [view], with or without the class [active]. *)
Record ViewElement : Type := {
  view_id : string;
  view_active : bool
}.

(** A button of class [nav-btn]: its [data-view] attribute, the text of
    its first [span] if it has one, and whether it carries [active]. *)
Record NavButton : Type := {
  data_view : string;
  nav_label : option string;
  nav_active : bool
}.

(** An accordion header with the panel after it: the class [active] of
    the header, the [style.maxHeight] of the panel, and how many click
    listeners the header carries. *)
Record Accordion : Type := {
  acc_active : bool;
  maxHeight : string;
  click_listeners : nat
}.

Record FaqEntry : Type := {
  question : string;
  answer : string;
  faq_accordion : Accordion
}.

(** An [option] of the hive selector of the image view. *)
Record SelectOption : Type := {
  option_value : option string;
  option_text : string;
  option_disabled : bool
}.

Record Page : Type := {
  world : World;
  views : list ViewElement;
  other_ids : list string;
  nav_buttons : list NavButton;
  header_title : string;
  hive_accordions : list Accordion;
  faq_list : list FaqEntry;
  hive_select : list SelectOption;
  upload_image_btn_disabled : bool;
  analyze_image_btn_disabled : bool;
  image_preview_src : string;
  image_preview_display : string;
  inspection_hive_id_value : string
}.

Definition set_world (f : World -> World) (p : Page) : Page :=
  {| world := f (world p);
     views := views p;
     other_ids := other_ids p;
     nav_buttons := nav_buttons p;
     header_title := header_title p;
     hive_accordions := hive_accordions p;
     faq_list := faq_list p;
     hive_select := hive_select p;
     upload_image_btn_disabled := upload_image_btn_disabled p;
     analyze_image_btn_disabled := analyze_image_btn_disabled p;
     image_preview_src := image_preview_src p;
     image_preview_display := image_preview_display p;
     inspection_hive_id_value := inspection_hive_id_value p |}.

Definition set_views (f : list ViewElement -> list ViewElement) (p : Page) : Page :=
  {| world := world p;
     views := f (views p);
     other_ids := other_ids p;
     nav_buttons := nav_buttons p;
     header_title := header_title p;
     hive_accordions := hive_accordions p;
     faq_list := faq_list p;
     hive_select := hive_select p;
     upload_image_btn_disabled := upload_image_btn_disabled p;
     analyze_image_btn_disabled := analyze_image_btn_disabled p;
     image_preview_src := image_preview_src p;
     image_preview_display := image_preview_display p;
     inspection_hive_id_value := inspection_hive_id_value p |}.

Definition set_nav_buttons (f : list NavButton -> list NavButton) (p : Page) : Page :=
  {| world := world p;
     views := views p;
     other_ids := other_ids p;
     nav_buttons := f (nav_buttons p);
     header_title := header_title p;
     hive_accordions := hive_accordions p;
     faq_list := faq_list p;
     hive_select := hive_select p;
     upload_image_btn_disabled := upload_image_btn_disabled p;
     analyze_image_btn_disabled := analyze_image_btn_disabled p;
     image_preview_src := image_preview_src p;
     image_preview_display := image_preview_display p;
     inspection_hive_id_value := inspection_hive_id_value p |}.

Definition set_header_title (f : string -> string) (p : Page) : Page :=
  {| world := world p;
     views := views p;
     other_ids := other_ids p;
     nav_buttons := nav_buttons p;
     header_title := f (header_title p);
     hive_accordions := hive_accordions p;
     faq_list := faq_list p;
     hive_select := hive_select p;
     upload_image_btn_disabled := upload_image_btn_disabled p;
     analyze_image_btn_disabled := analyze_image_btn_disabled p;
     image_preview_src := image_preview_src p;
     image_preview_display := image_preview_display p;
     inspection_hive_id_value := inspection_hive_id_value p |}.

Definition set_hive_accordions (f : list Accordion -> list Accordion) (p : Page) : Page :=
  {| world := world p;
     views := views p;
     other_ids := other_ids p;
     nav_buttons := nav_buttons p;
     header_title := header_title p;
     hive_accordions := f (hive_accordions p);
     faq_list := faq_list p;
     hive_select := hive_select p;
     upload_image_btn_disabled := upload_image_btn_disabled p;
     analyze_image_btn_disabled := analyze_image_btn_disabled p;
     image_preview_src := image_preview_src p;
     image_preview_display := image_preview_display p;
     inspection_hive_id_value := inspection_hive_id_value p |}.

Definition set_faq_list (f : list FaqEntry -> list FaqEntry) (p : Page) : Page :=
  {| world := world p;
     views := views p;
     other_ids := other_ids p;
     nav_buttons := nav_buttons p;
     header_title := header_title p;
     hive_accordions := hive_accordions p;
     faq_list := f (faq_list p);
     hive_select := hive_select p;
     upload_image_btn_disabled := upload_image_btn_disabled p;
     analyze_image_btn_disabled := analyze_image_btn_disabled p;
     image_preview_src := image_preview_src p;
     image_preview_display := image_preview_display p;
     inspection_hive_id_value := inspection_hive_id_value p |}.

Definition set_hive_select (f : list SelectOption -> list SelectOption) (p : Page) : Page :=
  {| world := world p;
     views := views p;
     other_ids := other_ids p;
     nav_buttons := nav_buttons p;
     header_title := header_title p;
     hive_accordions := hive_accordions p;
     faq_list := faq_list p;
     hive_select := f (hive_select p);
     upload_image_btn_disabled := upload_image_btn_disabled p;
     analyze_image_btn_disabled := analyze_image_btn_disabled p;
     image_preview_src := image_preview_src p;
     image_preview_display := image_preview_display p;
     inspection_hive_id_value := inspection_hive_id_value p |}.

Definition set_upload_image_btn_disabled (f : bool -> bool) (p : Page) : Page :=
  {| world := world p;
     views := views p;
     other_ids := other_ids p;
     nav_buttons := nav_buttons p;
     header_title := header_title p;
     hive_accordions := hive_accordions p;
     faq_list := faq_list p;
     hive_select := hive_select p;
     upload_image_btn_disabled := f (upload_image_btn_disabled p);
     analyze_image_btn_disabled := analyze_image_btn_disabled p;
     image_preview_src := image_preview_src p;
     image_preview_display := image_preview_display p;
     inspection_hive_id_value := inspection_hive_id_value p |}.

Definition set_analyze_image_btn_disabled (f : bool -> bool) (p : Page) : Page :=
  {| world := world p;
     views := views p;
     other_ids := other_ids p;
     nav_buttons := nav_buttons p;
     header_title := header_title p;
     hive_accordions := hive_accordions p;
     faq_list := faq_list p;
     hive_select := hive_select p;
     upload_image_btn_disabled := upload_image_btn_disabled p;
     analyze_image_btn_disabled := f (analyze_image_btn_disabled p);
     image_preview_src := image_preview_src p;
     image_preview_display := image_preview_display p;
     inspection_hive_id_value := inspection_hive_id_value p |}.

Definition set_image_preview_src (f : string -> string) (p : Page) : Page :=
  {| world := world p;
     views := views p;
     other_ids := other_ids p;
     nav_buttons := nav_buttons p;
     header_title := header_title p;
     hive_accordions := hive_accordions p;
     faq_list := faq_list p;
     hive_select := hive_select p;
     upload_image_btn_disabled := upload_image_btn_disabled p;
     analyze_image_btn_disabled := analyze_image_btn_disabled p;
     image_preview_src := f (image_preview_src p);
     image_preview_display := image_preview_display p;
     inspection_hive_id_value := inspection_hive_id_value p |}.

Definition set_image_preview_display (f : string -> string) (p : Page) : Page :=
  {| world := world p;
     views := views p;
     other_ids := other_ids p;
     nav_buttons := nav_buttons p;
     header_title := header_title p;
     hive_accordions := hive_accordions p;
     faq_list := faq_list p;
     hive_select := hive_select p;
     upload_image_btn_disabled := upload_image_btn_disabled p;
     analyze_image_btn_disabled := analyze_image_btn_disabled p;
     image_preview_src := image_preview_src p;
     image_preview_display := f (image_preview_display p);
     inspection_hive_id_value := inspection_hive_id_value p |}.

Definition set_inspection_hive_id_value (f : string -> string) (p : Page) : Page :=
  {| world := world p;
     views := views p;
     other_ids := other_ids p;
     nav_buttons := nav_buttons p;
     header_title := header_title p;
     hive_accordions := hive_accordions p;
     faq_list := faq_list p;
     hive_select := hive_select p;
     upload_image_btn_disabled := upload_image_btn_disabled p;
     analyze_image_btn_disabled := analyze_image_btn_disabled p;
     image_preview_src := image_preview_src p;
     image_preview_display := image_preview_display p;
     inspection_hive_id_value := f (inspection_hive_id_value p) |}.

(** *** Computations on the page *)

Definition P (A : Type) : Type := Page -> Completion A * Page.

Definition pret {A} (a : A) : P A := fun p => (Normal a, p).

Definition pbind {A B} (m : P A) (k : A -> P B) : P B :=
  fun p =>
    match m p with
    | (Normal a, p') => k a p'
    | (Throw e, p') => (Throw e, p')
    end.

Definition pthrow {A} (e : Error) : P A := fun p => (Throw e, p).

Definition pgets {A} (f : Page -> A) : P A := fun p => (Normal (f p), p).

Definition pmodify (f : Page -> Page) : P unit := fun p => (Normal tt, f p).

(** A computation on the world, run on the world of the page. *)
Definition lift {A} (m : M A) : P A :=
  fun p =>
    match m (world p) with
    | (c, w') => (c, set_world (fun _ => w') p)
    end.

Definition pexec {A} (m : P A) (p : Page) : Page := snd (m p).

Declare Scope page_scope.
Delimit Scope page_scope with page.
Notation "x <- m ;; k" := (pbind m (fun x => k))
  (at level 100, m at next level, right associativity) : page_scope.
Notation "m ;; k" := (pbind m (fun _ => k))
  (at level 100, right associativity) : page_scope.

Local Open Scope page_scope.

(** The error [getElement] throws for an identifier the page lacks. *)
Definition element_not_found (id : string) : Error :=
  Rejection ("Element with id " +:+ id +:+ " not found").

Definition FAQ_DATA : list (string * string) :=
  [("Ana arını pətəkdə tapa bilmirəm, nə etməliyəm?",
    "Sakit olun və pətəyi diqqətlə yoxlayın. Əgər ana arı yoxdursa, gündəlik yumurtaların olub-olmadığını yoxlayın. Yumurta varsa, arılar yeni ana yetişdirə bilər. Yumurta yoxdursa, yeni bir ana arı almalı və ya başqa pətəkdən yumurtalı çərçivə verməlisiniz.");
   ("Arılarım niyə aqressivdir?",
    "Aqressivliyin bir neçə səbəbi ola bilər: ana arının genetikası, qida azlığı, hava şəraiti (küləkli, soyuq), varroa gənəsi kimi zərərvericilər və ya pətəyin tez-tez narahat edilməsi. Səbəbi müəyyənləşdirmək üçün bu amilləri nəzərdən keçirin.");
   ("Varroa gənəsi ilə necə mübarizə aparmaq olar?",
    "Varroa ilə mübarizə arıçılığın vacib hissəsidir. Üzvi turşular (oksalik, formik), timol əsaslı preparatlar və ya apteklerde satılan xüsusi dərmanlardan istifadə edə bilərsiniz. Mübarizəni bal sağımından sonra və payızda aparmaq vacibdir.");
   ("Arı ailəsi oğul verməyə hazırlaşır, nə edim?",
    "Oğul vermənin qarşısını almaq üçün pətəkdə sıxlığı azaltmaq, yeni çərçivələr (mum) vermək və ana arı qəfəslərini (oğul qutucuqlarını) məhv etmək lazımdır. Əgər gecikmisinizsə, ailəni bölərək süni oğul yarada bilərsiniz.")].

(** *** Accordions *)

Definition fresh_accordion : Accordion :=
  {| acc_active := false; maxHeight := ""; click_listeners := 0 |}.

(** [accordion.addEventListener('click', function() { ... })]: the
    function is a new one at every call, so every call adds a listener. *)
Definition add_click_listener (a : Accordion) : Accordion :=
  {| acc_active := acc_active a;
     maxHeight := maxHeight a;
     click_listeners := S (click_listeners a) |}.

(** The listener: toggle [active] on the header; empty the panel's
    [maxHeight] if it is set, else set it to the panel's scroll height. *)
Definition toggle_accordion (scrollHeight : Z) (a : Accordion) : Accordion :=
  {| acc_active := negb (acc_active a);
     maxHeight :=
       match maxHeight a with
       | EmptyString => pretty scrollHeight +:+ "px"
       | String _ _ => ""
       end;
     click_listeners := click_listeners a |}.

(** A click on the header runs each of its listeners, one after the
    other. *)
Definition click_header (scrollHeight : Z) (a : Accordion) : Accordion :=
  Nat.iter (click_listeners a) (toggle_accordion scrollHeight) a.

Definition faq_add_click_listener (e : FaqEntry) : FaqEntry :=
  {| question := question e; answer := answer e;
     faq_accordion := add_click_listener (faq_accordion e) |}.

Definition faq_click_header (scrollHeight : Z) (e : FaqEntry) : FaqEntry :=
  {| question := question e; answer := answer e;
     faq_accordion := click_header scrollHeight (faq_accordion e) |}.

(** A click on the [i]-th accordion header of the hive list, or of the
    FAQ; [scrollHeight] is the height the layout gives the panel. *)
Definition clickHiveAccordion (i : nat) (scrollHeight : Z) : P unit :=
  pmodify (set_hive_accordions (alter (click_header scrollHeight) i)).

Definition clickFaqAccordion (i : nat) (scrollHeight : Z) : P unit :=
  pmodify (set_faq_list (alter (faq_click_header scrollHeight) i)).

(** *** Render functions, the part outside the world *)

(** The end of [renderHivesView]: with no hives the function has returned
    after writing the placeholder, and the list holds no header.
    Otherwise the headers of the list are new elements, one for every
    entry of the cards the list now holds, and
    [querySelectorAll('.accordion-header')] gives every accordion header
    of the document, those of the FAQ included, a click listener.  The
    entries of a card are its accordion headers when the store is of
    plain text ([plain_store]). *)
Definition attachHiveListListeners : P unit :=
  hs <- pgets (fun p => hives (state (world p))) ;;
  match hs with
  | [] => pmodify (set_hive_accordions (fun _ => []))
  | _ :: _ =>
      cards <- pgets (fun p => cards_of (hives_list (dom (world p)))) ;;
      pmodify (set_hive_accordions
                 (fun _ => repeat fresh_accordion
                             (length (concat (map inspections cards))))) ;;
      pmodify (set_hive_accordions (map add_click_listener)) ;;
      pmodify (set_faq_list (map faq_add_click_listener))
  end.

(** [renderHivesView], whole. *)
Definition renderHivesViewOnPage : P unit :=
  lift renderHivesView ;;
  attachHiveListListeners.

Definition renderFaqView : P unit :=
  pmodify (set_faq_list
             (fun _ => map (fun item => {| question := fst item; answer := snd item;
                                           faq_accordion := fresh_accordion |})
                         FAQ_DATA)) ;;
  pmodify (set_faq_list (map faq_add_click_listener)).

(** [<option value="${hive.id}">${hive.name}</option>], as the parser
    reads it for an identifier and a name of plain text. *)
Definition hive_option (hive : Hive) : SelectOption :=
  {| option_value := Some (h_id hive); option_text := name hive;
     option_disabled := false |}.

Definition no_hive_option : SelectOption :=
  {| option_value := None;
     option_text := "Zəhmət olmasa, əvvəlcə pətək əlavə edin";
     option_disabled := true |}.

Definition renderImageView : P unit :=
  hs <- pgets (fun p => hives (state (world p))) ;;
  pmodify (set_hive_select (fun _ => map hive_option hs)) ;;
  match hs with
  | [] =>
      pmodify (set_hive_select (fun _ => [no_hive_option])) ;;
      pmodify (set_upload_image_btn_disabled (fun _ => true))
  | _ :: _ => pmodify (set_upload_image_btn_disabled (fun _ => false))
  end.

(** *** View navigation *)

Definition deactivate_view (v : ViewElement) : ViewElement :=
  {| view_id := view_id v; view_active := false |}.

(** [getElement(viewId).classList.add('active')] on the first element
    with that identifier. *)
Fixpoint activate_view (viewId : string) (vs : list ViewElement) : list ViewElement :=
  match vs with
  | [] => []
  | v :: vs' =>
      if String.eqb (view_id v) viewId
      then {| view_id := view_id v; view_active := true |} :: vs'
      else v :: activate_view viewId vs'
  end.

Definition deactivate_button (b : NavButton) : NavButton :=
  {| data_view := data_view b; nav_label := nav_label b; nav_active := false |}.

(** [document.querySelector(`.nav-btn[data-view="${viewId}"]`)], for an
    identifier without quote or backslash: the first button with that
    [data-view]. *)
Definition find_button (viewId : string) (bs : list NavButton) : option NavButton :=
  List.find (fun b => String.eqb (data_view b) viewId) bs.

Fixpoint activate_button (viewId : string) (bs : list NavButton) : list NavButton :=
  match bs with
  | [] => []
  | b :: bs' =>
      if String.eqb (data_view b) viewId
      then {| data_view := data_view b; nav_label := nav_label b; nav_active := true |}
           :: bs'
      else b :: activate_button viewId bs'
  end.

Definition default_title : string := "Arıçı Rəhbəri".

(** The [switch] that ends [navigateTo]: the content of the view entered
    is rendered anew, except for the AI view, whose content is static. *)
Definition refreshView (viewId : string) : P unit :=
  if String.eqb viewId "hives-view" then renderHivesViewOnPage
  else if String.eqb viewId "ai-view" then pret tt
  else if String.eqb viewId "image-view" then renderImageView
  else if String.eqb viewId "faq-view" then renderFaqView
  else pret tt.

Definition navigateTo (viewId : string) : P unit :=
  pmodify (set_views (map deactivate_view)) ;;
  vs <- pgets views ;;
  others <- pgets other_ids ;;
  (if existsb (fun v => String.eqb (view_id v) viewId) vs
   then pmodify (set_views (activate_view viewId))
   else if existsb (String.eqb viewId) others
        then pret tt
        else pthrow (element_not_found viewId)) ;;
  pmodify (set_nav_buttons (map deactivate_button)) ;;
  activeButton <- pgets (fun p => find_button viewId (nav_buttons p)) ;;
  pmodify (set_nav_buttons (activate_button viewId)) ;;
  pmodify (set_header_title
             (fun _ => default default_title (truthy (activeButton ≫= nav_label)))) ;;
  refreshView viewId.

(** *** Initialization *)

(** [setupEventListeners] registers the listeners below and changes
    nothing on the page; the elements it looks up are those of the fixed
    markup. *)
Definition initializeApp : P unit :=
  lift loadStateFromLocalStorage ;;
  navigateTo "hives-view".

(** *** Event listeners *)

(** Click on a navigation button. *)
Definition clickNavButton (i : nat) : P unit :=
  bs <- pgets nav_buttons ;;
  match bs !! i with
  | Some b => navigateTo (data_view b)
  | None => pret tt
  end.

(** Click on [add-hive-fab]. *)
Definition clickAddHiveFab : P unit := lift (openModal AddHiveModal).

(** Click on a button of class [close-btn]. *)
Definition clickCloseButton : P unit :=
  lift (closeModal AddHiveModal) ;;
  lift (closeModal AddInspectionModal).

(** Click reaching the window; [target] is the modal clicked on, if the
    click was on a modal itself. *)
Definition clickWindow (target : option Modal) : P unit :=
  match target with
  | Some AddHiveModal => lift (closeModal AddHiveModal)
  | Some AddInspectionModal => lift (closeModal AddInspectionModal)
  | None => pret tt
  end.

(** Click on the "add inspection" button of the [i]-th card: the listener
    writes the button's [data-hive-id] into the hidden field and opens the
    dialog.  The render gives a listener to every button of class
    [add-inspection-btn] in the document; these are the buttons of the
    cards, one each, when the store is of plain text. *)
Definition clickAddInspection (i : nat) : P unit :=
  cards <- pgets (fun p => cards_of (hives_list (dom (world p)))) ;;
  match cards !! i with
  | Some card =>
      pmodify (set_inspection_hive_id_value (fun _ => card_hive_id card)) ;;
      lift (openModal AddInspectionModal)
  | None => pret tt
  end.

(** Change of a [feeding] radio button to [value]. *)
Definition changeFeeding (value : string) : M unit :=
  modify (set_dom (set_feeding_amount_group_display
                     (if String.eqb value "yes" then "block" else "none"))).

(** The submit listeners: the handlers above, followed on the page by
    the listeners their render attaches.  The inspection handler reads
    the hive identifier from the hidden field. *)
Definition submitAddHive (hive_name hive_location : string) (now : Z) : P unit :=
  lift (handleAddHive hive_name hive_location now) ;;
  attachHiveListListeners.

Definition with_hive_id (hiveId : string) (form : InspectionForm) : InspectionForm :=
  {| inspection_hive_id := hiveId; form_queen := form_queen form;
     form_disease := form_disease form; form_eggs := form_eggs form;
     honey_stores := honey_stores form; form_feeding := form_feeding form;
     feeding_amount := feeding_amount form; general_notes := general_notes form |}.

Definition submitAddInspection (fields : InspectionForm) (now today : Z) : P unit :=
  hiveId <- pgets inspection_hive_id_value ;;
  hs <- pgets (fun p => hives (state (world p))) ;;
  lift (handleAddInspection (with_hive_id hiveId fields) now today) ;;
  match list_find (fun h => h_id h = hiveId) hs with
  | Some _ => attachHiveListListeners
  | None => pret tt
  end.

(** [handleImagePreview]: with a file chosen, the reader is started; its
    [onload] shows the preview and enables the analyze button.  No
    [onerror] is set: a failed read changes nothing. *)
Definition handleImagePreview (env : Env) (files : list File) : P unit :=
  match files with
  | [] => pret tt
  | file :: _ =>
      match readAsDataURL env file with
      | Fulfilled result =>
          pmodify (set_image_preview_src (fun _ => result)) ;;
          pmodify (set_image_preview_display (fun _ => "block")) ;;
          pmodify (set_analyze_image_btn_disabled (fun _ => false))
      | Rejected _ => pret tt
      end
  end.

(** A sample page as the browser parses it, before [initializeApp]: four
    views and their buttons, nothing active, nothing rendered. *)
Definition sample_page (w : World) : Page :=
  {| world := w;
     views := [ {| view_id := "hives-view"; view_active := false |};
                {| view_id := "ai-view"; view_active := false |};
                {| view_id := "image-view"; view_active := false |};
                {| view_id := "faq-view"; view_active := false |} ];
     other_ids := [];
     nav_buttons :=
       [ {| data_view := "hives-view"; nav_label := Some "Pətəklər"; nav_active := false |};
         {| data_view := "ai-view"; nav_label := Some "AI"; nav_active := false |};
         {| data_view := "image-view"; nav_label := None; nav_active := false |};
         {| data_view := "faq-view"; nav_label := Some "FAQ"; nav_active := false |} ];
     header_title := "";
     hive_accordions := [];
     faq_list := [];
     hive_select := [];
     upload_image_btn_disabled := false;
     analyze_image_btn_disabled := true;
     image_preview_src := "";
     image_preview_display := "none";
     inspection_hive_id_value := "" |}.

(** *** Vocabulary of the page properties *)

(** The page [navigateTo] hands to its [switch], for an identifier the
    page has: the view and the button for it are the active ones, and the
    header shows the button's label. *)
Definition entered (viewId : string) (p : Page) : Page :=
  set_header_title
    (fun _ => default default_title
                (truthy (find_button viewId (map deactivate_button (nav_buttons p))
                         ≫= nav_label)))
    (set_nav_buttons (fun bs => activate_button viewId (map deactivate_button bs))
       (set_views (fun vs => activate_view viewId (map deactivate_view vs)) p)).

(** The identifiers of the views that carry [active]. *)
Definition active_views (p : Page) : list string :=
  map view_id (List.filter view_active (views p)).

Definition active_buttons (p : Page) : list string :=
  map data_view (List.filter nav_active (nav_buttons p)).

Definition has_view (viewId : string) (p : Page) : Prop :=
  In viewId (map view_id (views p)).

(** A panel is collapsed, or open at the height [scrollHeight]. *)
Definition collapsed (a : Accordion) : Prop :=
  acc_active a = false /\ maxHeight a = "".

Definition open_at (scrollHeight : Z) (a : Accordion) : Prop :=
  acc_active a = true /\ maxHeight a = pretty scrollHeight +:+ "px".

(** * Properties *)

(** ** Strings *)

Lemma app_cons (x : ascii) (a b : string) : String x a +:+ b = String x (a +:+ b).
Proof. reflexivity. Qed.

Lemma app_assoc_string (a b c : string) : (a +:+ b) +:+ c = a +:+ (b +:+ c).
Proof.
  induction a as [| x a IHa]; [reflexivity |].
  rewrite !app_cons. by rewrite IHa.
Qed.

Lemma app_empty_r (a : string) : a +:+ "" = a.
Proof.
  induction a as [| x a IHa]; [reflexivity |].
  rewrite app_cons. by rewrite IHa.
Qed.

Lemma length_app_string (a b : string) :
  String.length (a +:+ b) = (String.length a + String.length b)%nat.
Proof.
  induction a as [| x a IHa]; [reflexivity |].
  rewrite app_cons. simpl. by rewrite IHa.
Qed.

Lemma app_single (c : ascii) (x : string) : String c "" +:+ x = String c x.
Proof. reflexivity. Qed.

(** ** JSON text: parsing what [stringify] wrote *)

Module JSONFacts.
Import JSON.

Lemma value_ind (P : value -> Prop) :
  (forall s, P (Str s)) ->
  (forall l, Forall P l -> P (Arr l)) ->
  (forall m, Forall (fun kv => P (snd kv)) m -> P (Obj m)) ->
  forall v, P v.
Proof.
  intros HStr HArr HObj.
  fix IH 1. intros [s | l | m].
  - apply HStr.
  - apply HArr. induction l as [| v l IHl]; constructor; [apply IH | exact IHl].
  - apply HObj. induction m as [| [k v] m IHm]; constructor; [apply IH | exact IHm].
Qed.

Lemma parse_chars_quote_char (c : ascii) (tail : string) :
  parse_chars (quote_char c +:+ tail) = cons_char c <$> parse_chars tail.
Proof.
  destruct c as [[] [] [] [] [] [] [] []]; reflexivity.
Qed.

Lemma parse_chars_quote_chars (s rest : string) :
  parse_chars (quote_chars s +:+ String dquote rest) = Some (s, rest).
Proof.
  induction s as [| c s IHs]; [reflexivity |].
  cbn [quote_chars].
  rewrite app_assoc_string, parse_chars_quote_char, IHs. reflexivity.
Qed.


Lemma stringify_head (v : value) :
  exists c s, stringify v = String c s /\ opens_value c.
Proof.
  destruct v as [s | l | m]; eexists _, _; (split; [reflexivity |]);
    unfold opens_value; auto.
Qed.

Lemma parse_value_string (f : nat) (s : string) :
  parse_value (S f) (String dquote s) = r ← parse_chars s; Some (Str (fst r), snd r).
Proof. reflexivity. Qed.

Lemma parse_value_array (f : nat) (c : ascii) (s : string) :
  opens_value c ->
  parse_value (S f) (String "[" (String c s))
  = r ← parse_elements f (String c s); Some (Arr (fst r), snd r).
Proof. intros [-> | [-> | ->]]; reflexivity. Qed.

Lemma parse_value_object (f : nat) (s : string) :
  parse_value (S f) (String "{" (String dquote s))
  = r ← parse_members f (String dquote s); Some (Obj (fst r), snd r).
Proof. reflexivity. Qed.

Lemma parse_members_step (f : nat) (s : string) :
  parse_members (S f) (String dquote s)
  = k ← parse_chars s;
    match skip_ws (snd k) with
    | String c rest1 =>
        if Ascii.eqb c ":" then
          r ← parse_value f rest1;
          match skip_ws (snd r) with
          | String c' rest2 =>
              if Ascii.eqb c' "," then
                rs ← parse_members f rest2;
                Some ((fst k, fst r) :: fst rs, snd rs)
              else if Ascii.eqb c' "}" then Some ([(fst k, fst r)], rest2)
              else None
          | EmptyString => None
          end
        else None
    | EmptyString => None
    end.
Proof. reflexivity. Qed.

Lemma parse_elements_comma (f : nat) (s : string) (v : value) (tail : string) :
  parse_value f s = Some (v, String "," tail) ->
  parse_elements (S f) s = rs ← parse_elements f tail; Some (v :: fst rs, snd rs).
Proof. intros H. cbn [parse_elements]. rewrite H. reflexivity. Qed.

Lemma parse_elements_last (f : nat) (s : string) (v : value) (tail : string) :
  parse_value f s = Some (v, String "]" tail) ->
  parse_elements (S f) s = Some ([v], tail).
Proof. intros H. cbn [parse_elements]. rewrite H. reflexivity. Qed.

Lemma parse_members_comma (f : nat) (s : string) (k : string) (v : value)
    (after_key tail : string) :
  parse_chars s = Some (k, String ":" after_key) ->
  parse_value f after_key = Some (v, String "," tail) ->
  parse_members (S f) (String dquote s)
  = rs ← parse_members f tail; Some ((k, v) :: fst rs, snd rs).
Proof.
  intros Hk Hv. rewrite parse_members_step, Hk. simpl.
  rewrite Hv. reflexivity.
Qed.

Lemma parse_members_last (f : nat) (s : string) (k : string) (v : value)
    (after_key tail : string) :
  parse_chars s = Some (k, String ":" after_key) ->
  parse_value f after_key = Some (v, String "}" tail) ->
  parse_members (S f) (String dquote s) = Some ([(k, v)], tail).
Proof.
  intros Hk Hv. rewrite parse_members_step, Hk. simpl.
  rewrite Hv. reflexivity.
Qed.


Lemma join_comma_cons (p q : string) (ps : list string) :
  join_comma (p :: q :: ps) = p +:+ "," +:+ join_comma (q :: ps).
Proof. reflexivity. Qed.

Lemma parse_elements_join (l : list value) :
  l <> [] -> Forall parses_back l ->
  forall (f : nat) (rest : string),
    (String.length (join_comma (map stringify l)) < f)%nat ->
    parse_elements f (join_comma (map stringify l) +:+ String "]" rest)
    = Some (l, rest).
Proof.
  induction l as [| v l IHl]; [congruence |].
  intros _ Hall f rest Hlen.
  apply Forall_cons_1 in Hall as [Hv Hl].
  destruct f as [| f]; [lia |].
  destruct l as [| v2 l].
  - cbn [map join_comma] in *.
    apply parse_elements_last, Hv. lia.
  - cbn [map] in *. rewrite join_comma_cons in *.
    rewrite !length_app_string in Hlen.
    rewrite !app_assoc_string, app_single.
    rewrite (parse_elements_comma f _ v _ (Hv f _ ltac:(lia))).
    rewrite IHl; [reflexivity | congruence | exact Hl |].
    change (String.length ",") with 1%nat in Hlen. lia.
Qed.


Lemma member_text_app (k : string) (v : value) (tail : string) :
  member_text (k, v) +:+ tail
  = String dquote (quote_chars k +:+ String dquote (String ":" (stringify v +:+ tail))).
Proof.
  unfold member_text, quote. cbn [fst snd].
  rewrite !app_cons, !app_assoc_string. reflexivity.
Qed.

Lemma member_text_length (k : string) (v : value) :
  (String.length (stringify v) < String.length (member_text (k, v)))%nat.
Proof.
  unfold member_text, quote. cbn [fst snd].
  rewrite app_cons. cbn [String.length]. rewrite !length_app_string. lia.
Qed.

Lemma parse_members_join (m : list (string * value)) :
  m <> [] -> Forall (fun kv => parses_back (snd kv)) m ->
  forall (f : nat) (rest : string),
    (String.length (join_comma (map member_text m)) < f)%nat ->
    parse_members f (join_comma (map member_text m) +:+ String "}" rest)
    = Some (m, rest).
Proof.
  induction m as [| [k v] m IHm]; [congruence |].
  intros _ Hall f rest Hlen.
  apply Forall_cons_1 in Hall as [Hv Hm]. cbn [snd] in Hv.
  destruct f as [| f]; [lia |].
  pose proof (member_text_length k v) as Hk.
  destruct m as [| kv2 m].
  - cbn [map join_comma] in *. rewrite member_text_app.
    eapply parse_members_last; [apply parse_chars_quote_chars |].
    apply Hv. lia.
  - cbn [map] in *. rewrite join_comma_cons in *.
    rewrite !length_app_string in Hlen.
    change (String.length ",") with 1%nat in Hlen.
    rewrite app_assoc_string, member_text_app, app_assoc_string, app_single.
    erewrite parse_members_comma;
      [| apply parse_chars_quote_chars | apply Hv; lia].
    rewrite IHm; [reflexivity | congruence | exact Hm | lia].
Qed.

Lemma stringify_length_pos (v : value) : (0 < String.length (stringify v))%nat.
Proof.
  destruct (stringify_head v) as (c & s & -> & _). cbn [String.length]. lia.
Qed.

Lemma stringify_parses_back (v : value) : parses_back v.
Proof.
  induction v as [s | l IHl | m IHm] using value_ind; intros fuel rest Hlen;
    (match type of Hlen with
     | (String.length (stringify ?x) <= _)%nat =>
         pose proof (stringify_length_pos x) as Hpos
     end);
    (destruct fuel as [| f]; [lia |]); clear Hpos.
  - cbn [stringify]. unfold quote. rewrite app_cons, app_assoc_string, app_cons.
    rewrite parse_value_string, parse_chars_quote_chars. reflexivity.
  - cbn [stringify] in *. rewrite app_single in *.
    destruct l as [| v l].
    + reflexivity.
    + rewrite app_cons, app_assoc_string, app_single.
      destruct (stringify_head v) as (c & s & Hs & Hc).
      assert (Hjoin : exists s', join_comma (map stringify (v :: l)) = String c s').
      { destruct l; cbn [map join_comma]; rewrite Hs; eauto. }
      destruct Hjoin as [s' Hjoin].
      pose proof (parse_elements_join (v :: l) ltac:(congruence) IHl f rest) as Hel.
      rewrite Hjoin in *. rewrite app_cons in *.
      rewrite parse_value_array by exact Hc.
      rewrite Hel; [reflexivity |].
      cbn [String.length] in Hlen. rewrite length_app_string in Hlen.
      cbn [String.length] in *. lia.
  - cbn [stringify] in *. rewrite app_single in *.
    change (map _ m) with (map member_text m) in *.
    destruct m as [| kv m].
    + reflexivity.
    + rewrite app_cons, app_assoc_string, app_single.
      assert (Hjoin : exists s', join_comma (map member_text (kv :: m)) = String dquote s').
      { destruct m; cbn [map join_comma]; unfold member_text, quote;
          rewrite !app_cons; eauto. }
      destruct Hjoin as [s' Hjoin].
      pose proof (parse_members_join (kv :: m) ltac:(congruence) IHm f rest) as Hel.
      rewrite Hjoin in *. rewrite app_cons in *.
      rewrite parse_value_object.
      rewrite Hel; [reflexivity |].
      cbn [String.length] in Hlen. rewrite length_app_string in Hlen.
      cbn [String.length] in *. lia.
Qed.

(** [JSON.parse(JSON.stringify(v))] is [v]. *)
Lemma parse_stringify (v : value) : parse (stringify v) = Some v.
Proof.
  unfold parse.
  pose proof (stringify_parses_back v (S (String.length (stringify v))) "") as H.
  rewrite app_empty_r in H. rewrite H by lia. reflexivity.
Qed.

End JSONFacts.

(** ** The state as JSON *)

Lemma mapM_map_Some {A B} (f : A -> option B) (g : B -> A) (l : list B) :
  (forall x, f (g x) = Some x) -> mapM f (map g l) = Some l.
Proof.
  intros Hfg. induction l as [| x l IHl]; [reflexivity |].
  cbn [map mapM]. rewrite Hfg. cbn [mbind option_bind]. rewrite IHl. reflexivity.
Qed.

Lemma report_of_to_json (r : InspectionReport) :
  report_of_json (report_to_json r) = Some r.
Proof. destruct r as [? ? ? ? ? ? ? [fa |] [n |]]; reflexivity. Qed.

Lemma hive_of_to_json (h : Hive) : hive_of_json (hive_to_json h) = Some h.
Proof.
  destruct h as [i n l rs]. unfold hive_to_json, hive_of_json.
  cbn [h_id name location reports].
  change (get_string "id" _) with (Some i).
  change (get_string "name" _) with (Some n).
  change (get_string "location" _) with (Some l).
  change (get_array "reports" _) with (Some (map report_to_json rs)).
  cbn [mbind option_bind].
  rewrite (mapM_map_Some _ _ _ report_of_to_json). reflexivity.
Qed.

Lemma state_of_to_json (s : AppState) : state_of_json (state_to_json s) = Some s.
Proof.
  destruct s as [hs]. unfold state_to_json, state_of_json. cbn [hives].
  change (get_array "hives" _) with (Some (map hive_to_json hs)).
  cbn [mbind option_bind].
  rewrite (mapM_map_Some _ _ _ hive_of_to_json). reflexivity.
Qed.

Lemma saveState_eq (w : World) :
  saveStateToLocalStorage w
  = (Normal tt,
     set_localStorage <[storage_key := JSON.stringify (state_to_json (state w))]> w).
Proof. reflexivity. Qed.

Lemma loadState_parsed (w : World) (text : string) (v : JSON.value) (s : AppState) :
  localStorage w !! storage_key = Some text ->
  text <> "" ->
  JSON.parse text = Some v ->
  state_of_json v = Some s ->
  loadStateFromLocalStorage w = (Normal tt, set_state (fun _ => s) w).
Proof.
  intros Hget Hne Hparse Hshape.
  unfold loadStateFromLocalStorage, bind, gets. rewrite Hget.
  destruct text as [| c text]; [congruence |].
  rewrite Hparse, Hshape. reflexivity.
Qed.

Lemma stringify_not_empty (v : JSON.value) : JSON.stringify v <> "".
Proof. destruct (JSONFacts.stringify_head v) as (c & s & -> & _). discriminate. Qed.

Lemma load_after_save (w : World) :
  loadStateFromLocalStorage (exec saveStateToLocalStorage w)
  = (Normal tt, exec saveStateToLocalStorage w).
Proof.
  unfold exec. rewrite saveState_eq. cbn [snd].
  erewrite loadState_parsed;
    [| cbn [localStorage set_localStorage]; apply lookup_insert_eq
     | apply stringify_not_empty
     | apply JSONFacts.parse_stringify
     | apply state_of_to_json].
  destruct w as [[hs] ls d al co ne]. reflexivity.
Qed.

(** ** Sorting *)

Section SortFacts.
Context {A : Type} (cmp : A -> A -> Z).

Lemma sort_insert_Permutation (x : A) (l : list A) : sort_insert cmp x l ≡ₚ x :: l.
Proof.
  induction l as [| y l IHl]; [reflexivity |].
  cbn [sort_insert]. destruct (0 <? cmp x y); [| reflexivity].
  rewrite IHl. apply Permutation_swap.
Qed.

Lemma Array_sort_Permutation (l : list A) : Array_sort cmp l ≡ₚ l.
Proof.
  induction l as [| x l IHl]; [reflexivity |].
  cbn [Array_sort]. rewrite sort_insert_Permutation. by rewrite IHl.
Qed.

Lemma Array_sort_length (l : list A) : length (Array_sort cmp l) = length l.
Proof. apply Permutation_length, Array_sort_Permutation. Qed.

(** On elements the comparator orders by a key, descending. *)
Context (key : A -> Z) (ok : A -> Prop).
Hypothesis cmp_key : forall a b, ok a -> ok b -> cmp a b = key b - key a.

Let desc (a b : A) : Prop := key b <= key a.

Lemma sort_insert_sorted (x : A) (l : list A) :
  ok x -> Forall ok l ->
  StronglySorted desc l -> StronglySorted desc (sort_insert cmp x l).
Proof.
  intros Hx Hl Hs. induction Hs as [| y l Hs IHs Hy]; cbn [sort_insert].
  - repeat constructor.
  - apply Forall_cons_1 in Hl as [Hoky Hl].
    rewrite cmp_key by assumption.
    destruct (0 <? key y - key x) eqn:Hlt.
    + apply Z.ltb_lt in Hlt. constructor; [by apply IHs |].
      rewrite sort_insert_Permutation. constructor; [unfold desc; lia | exact Hy].
    + apply Z.ltb_ge in Hlt. constructor; [by constructor |].
      constructor; [unfold desc; lia |].
      eapply Forall_impl; [exact Hy |]. unfold desc. intros z Hz. cbn in Hz. lia.
Qed.

Lemma Array_sort_sorted (l : list A) :
  Forall ok l -> StronglySorted desc (Array_sort cmp l).
Proof.
  induction l as [| x l IHl]; intros Hl; cbn [Array_sort]; [constructor |].
  apply Forall_cons_1 in Hl as [Hx Hl].
  apply sort_insert_sorted; [exact Hx | | by apply IHl].
  by rewrite Array_sort_Permutation.
Qed.

(** A list already in order is left as it is. *)
Lemma Array_sort_fixed (l : list A) :
  Forall ok l -> StronglySorted desc l -> Array_sort cmp l = l.
Proof.
  intros Hl Hs. induction Hs as [| x l Hs IHs Hx]; [reflexivity |].
  apply Forall_cons_1 in Hl as [Hokx Hl].
  cbn [Array_sort]. rewrite IHs by exact Hl.
  destruct l as [| y l]; [reflexivity |].
  cbn [sort_insert].
  apply Forall_cons_1 in Hl as [Hoky _], Hx as [Hxy _].
  rewrite cmp_key by assumption.
  unfold desc in Hxy. destruct (0 <? key y - key x) eqn:Hlt; [| reflexivity].
  apply Z.ltb_lt in Hlt. lia.
Qed.

End SortFacts.

(** ** Sorting reports by date *)

Lemma comparefn_key (a b : InspectionReport) :
  valid_date (r_date a) -> valid_date (r_date b) ->
  comparefn a b = time_of b - time_of a.
Proof.
  unfold valid_date, comparefn, time_of. intros [ta Ha] [tb Hb].
  rewrite Ha, Hb. reflexivity.
Qed.

Lemma not_older_key (a b : InspectionReport) :
  valid_date (r_date a) -> valid_date (r_date b) ->
  not_older (r_date a) (r_date b) = true <-> time_of b <= time_of a.
Proof.
  unfold valid_date, not_older, time_of. intros [ta Ha] [tb Hb].
  rewrite Ha, Hb. cbn [default]. apply Z.leb_le.
Qed.

Lemma StronglySorted_change {A} (R1 R2 : A -> A -> Prop) (ok : A -> Prop) (l : list A) :
  (forall a b, ok a -> ok b -> R1 a b -> R2 a b) ->
  Forall ok l -> StronglySorted R1 l -> StronglySorted R2 l.
Proof.
  intros HR Hl Hs. induction Hs as [| x l Hs IHs Hx]; [constructor |].
  apply Forall_cons_1 in Hl as [Hokx Hl].
  constructor; [by apply IHs |].
  rewrite Forall_forall in *. intros y Hy. apply HR; auto.
Qed.

Lemma newest_first_key (rs : list InspectionReport) :
  dated rs ->
  newest_first rs <-> StronglySorted (fun a b => time_of b <= time_of a) rs.
Proof.
  intros Hd. split; apply StronglySorted_change with (ok := fun r => valid_date (r_date r));
    try exact Hd; intros a b Ha Hb; by apply not_older_key.
Qed.

Lemma Array_sort_dated (rs : list InspectionReport) :
  dated rs -> dated (Array_sort comparefn rs).
Proof. unfold dated. by rewrite Array_sort_Permutation. Qed.

Lemma Array_sort_newest_first (rs : list InspectionReport) :
  dated rs -> newest_first (Array_sort comparefn rs).
Proof.
  intros Hd. apply newest_first_key; [by apply Array_sort_dated |].
  eapply Array_sort_sorted; [| exact Hd].
  intros a b Ha Hb. by apply comparefn_key.
Qed.

Lemma Array_sort_newest_first_fixed (rs : list InspectionReport) :
  dated rs -> newest_first rs -> Array_sort comparefn rs = rs.
Proof.
  intros Hd Hs. apply newest_first_key in Hs; [| exact Hd].
  eapply Array_sort_fixed; [| exact Hd | exact Hs].
  intros a b Ha Hb. by apply comparefn_key.
Qed.

Lemma sort_reports_same_hive (h : Hive) : same_hive_up_to_order h (sort_reports h).
Proof.
  unfold same_hive_up_to_order, sort_reports, set_reports. cbn.
  repeat split. symmetry. apply Array_sort_Permutation.
Qed.

(** ** The monad *)

Lemma run_normal {A} (m : M A) (a : A) (w : World) :
  fst (m w) = Normal a -> m w = (Normal a, exec m w).
Proof. unfold exec. destruct (m w) as [c w']. cbn. by intros ->. Qed.

Lemma bind_normal {A B} (m : M A) (k : A -> M B) (a : A) (w : World) :
  fst (m w) = Normal a -> bind m k w = k a (exec m w).
Proof. intros H. unfold bind. by rewrite (run_normal m a w H). Qed.

(** ** Rendering *)

Lemma render_normal (w : World) : fst (renderHivesView w) = Normal tt.
Proof.
  unfold renderHivesView, bind, gets, modify.
  destruct (hives (state w)); reflexivity.
Qed.

Lemma render_state (w : World) :
  state (exec renderHivesView w) = set_hives (map sort_reports) (state w).
Proof.
  unfold renderHivesView, exec, bind, gets, modify.
  destruct w as [[hs] ls d al co ne]. cbn [state hives].
  destruct hs; reflexivity.
Qed.


Lemma render_storage (w : World) :
  localStorage (exec renderHivesView w) = localStorage w.
Proof.
  unfold renderHivesView, exec, bind, gets, modify.
  destruct w as [[hs] ls d al co ne]. cbn [state hives].
  destruct hs; reflexivity.
Qed.

Lemma render_traces (w : World) :
  alerts (exec renderHivesView w) = alerts w
  /\ console (exec renderHivesView w) = console w
  /\ network (exec renderHivesView w) = network w.
Proof.
  unfold renderHivesView, exec, bind, gets, modify.
  destruct w as [[hs] ls d al co ne]. cbn [state hives].
  destruct hs; repeat split.
Qed.

Lemma persisted_after_save (w : World) :
  persisted (exec saveStateToLocalStorage w) = Some (state w).
Proof.
  unfold persisted, exec. rewrite saveState_eq. cbn [snd localStorage set_localStorage].
  rewrite lookup_insert_eq. cbn [mbind option_bind].
  rewrite JSONFacts.parse_stringify. cbn [mbind option_bind].
  apply state_of_to_json.
Qed.

Lemma persisted_storage (w1 w2 : World) :
  localStorage w1 = localStorage w2 -> persisted w1 = persisted w2.
Proof. unfold persisted. by intros ->. Qed.

(** ** The two mutating handlers, step by step *)

Lemma handleAddHive_eq (n l : string) (now : Z) (w : World) :
  handleAddHive n l now w
  = (Normal tt,
     exec (closeModal AddHiveModal)
       (exec renderHivesView
          (exec saveStateToLocalStorage
             (set_state (set_hives (fun hs => hs ++ [new_hive n l now])) w)))).
Proof.
  unfold handleAddHive.
  rewrite (bind_normal _ _ tt) by reflexivity.
  rewrite (bind_normal _ _ tt) by reflexivity.
  rewrite (bind_normal _ _ tt) by apply render_normal.
  reflexivity.
Qed.

Lemma handleAddInspection_found (form : InspectionForm) (now today : Z) (w : World)
    (i : nat) (h : Hive) :
  list_find (fun h => h_id h = inspection_hive_id form) (hives (state w)) = Some (i, h) ->
  handleAddInspection form now today w
  = (Normal tt,
     set_dom (set_feeding_amount_group_display "none")
       (exec (closeModal AddInspectionModal)
          (exec renderHivesView
             (exec saveStateToLocalStorage
                (set_state (set_hives (alter (push_report (new_report form now today)) i))
                   w))))).
Proof.
  intros Hfind. unfold handleAddInspection.
  rewrite (bind_normal _ _ (hives (state w))) by reflexivity.
  change (exec (gets _) w) with w. rewrite Hfind.
  rewrite (bind_normal _ _ tt) by reflexivity.
  rewrite (bind_normal _ _ tt) by reflexivity.
  rewrite (bind_normal _ _ tt) by apply render_normal.
  rewrite (bind_normal _ _ tt) by (by destruct w).
  reflexivity.
Qed.

Lemma handleAddInspection_missing (form : InspectionForm) (now today : Z) (w : World) :
  list_find (fun h => h_id h = inspection_hive_id form) (hives (state w)) = None ->
  handleAddInspection form now today w = (Normal tt, w).
Proof.
  intros Hfind. unfold handleAddInspection.
  rewrite (bind_normal _ _ (hives (state w))) by reflexivity.
  change (exec (gets _) w) with w. by rewrite Hfind.
Qed.

(** ** The calendar: [getTime] reads what [toISOString] wrote *)

Lemma is_leap_cycle (y era : Z) : is_leap (y + era * 400) = is_leap y.
Proof.
  unfold is_leap.
  replace (y + era * 400) with (y + (era * 100) * 4) at 1 by lia.
  replace (y + era * 400) with (y + (era * 4) * 100) at 1 by lia.
  by rewrite !Z_mod_plus_full.
Qed.

Lemma days_in_month_cycle (y era m : Z) :
  days_in_month (y + era * 400) m = days_in_month y m.
Proof. unfold days_in_month. by rewrite is_leap_cycle. Qed.

Lemma days_in_month_le (y m : Z) : days_in_month y m <= 31.
Proof.
  unfold days_in_month.
  destruct (m =? 2); [destruct (is_leap y); lia |].
  destruct ((m =? 4) || (m =? 6) || (m =? 9) || (m =? 11)); lia.
Qed.

(** The March-based year within the 400-year cycle and the day within
    that year; a year has a 366th day only before a leap February. *)
Lemma year_of_era (doe : Z) :
  0 <= doe < 146097 ->
  let yoe := (doe - doe / 1460 + doe / 36524 - doe / 146096) / 365 in
  let doy := doe - (365 * yoe + yoe / 4 - yoe / 100) in
  0 <= yoe <= 399 /\ 0 <= doy <= 365
  /\ (doy = 365 ->
      (yoe + 1) mod 4 = 0 /\ ((yoe + 1) mod 100 <> 0 \/ (yoe + 1) mod 400 = 0)).
Proof.
  intros H yoe doy. subst doy yoe. Z.div_mod_to_equations. lia.
Qed.

Lemma is_leap_true (y : Z) :
  y mod 4 = 0 -> (y mod 100 <> 0 \/ y mod 400 = 0) -> is_leap y = true.
Proof.
  intros H4 H. unfold is_leap. rewrite H4. cbn [Z.eqb andb].
  destruct H as [H | H].
  - apply Z.eqb_neq in H. rewrite H. reflexivity.
  - rewrite H. cbn. apply orb_true_r.
Qed.

(** Month and day of the day [doy] of a March-based year, and back. *)
Lemma month_of_day (y doy : Z) :
  0 <= doy <= 365 -> (doy = 365 -> is_leap (y + 1) = true) ->
  let mp := (5 * doy + 2) / 153 in
  let d := doy - (153 * mp + 2) / 5 + 1 in
  let m := if mp <? 10 then mp + 3 else mp - 9 in
  1 <= m <= 12 /\ 1 <= d <= days_in_month (y + (if m <=? 2 then 1 else 0)) m
  /\ (153 * (if 2 <? m then m - 3 else m + 9) + 2) / 5 + d - 1 = doy.
Proof.
  intros Hdoy Hleap mp d m.
  assert (Hmp : 0 <= mp <= 11).
  { subst mp. clear -Hdoy. Z.div_mod_to_equations. lia. }
  assert (Hcases : mp = 0 \/ mp = 1 \/ mp = 2 \/ mp = 3 \/ mp = 4 \/ mp = 5 \/ mp = 6
                   \/ mp = 7 \/ mp = 8 \/ mp = 9 \/ mp = 10 \/ mp = 11) by lia.
  assert (Hdoy' : 153 * mp <= 5 * doy + 2 < 153 * mp + 153).
  { subst mp. clear -Hdoy. Z.div_mod_to_equations. lia. }
  subst d m.
  destruct Hcases as [Hc|[Hc|[Hc|[Hc|[Hc|[Hc|[Hc|[Hc|[Hc|[Hc|[Hc|Hc]]]]]]]]]]];
    rewrite Hc in *.
  12: { change (if 11 <? 10 then 11 + 3 else 11 - 9) with 2.
        change (if 2 <=? 2 then 1 else 0) with 1.
        change (days_in_month (y + 1) 2) with (if is_leap (y + 1) then 29 else 28).
        change ((153 * 11 + 2) / 5) with 337.
        change ((153 * (if 2 <? 2 then 2 - 3 else 2 + 9) + 2) / 5) with 337.
        destruct (Z.eq_dec doy 365) as [-> | Hne].
        - rewrite Hleap by reflexivity. lia.
        - destruct (is_leap (y + 1)); lia. }
  all: unfold days_in_month;
    repeat match goal with
           | |- context [if ?b then _ else _] =>
               let v := eval vm_compute in b in change b with v; cbv iota
           end;
    Z.div_mod_to_equations; lia.
Qed.

(** The date [civil_from_days] gives is a legal one, and
    [days_from_civil] counts it back to the same day. *)
Lemma civil_from_days_spec (z : Z) :
  let '(y, m, d) := civil_from_days z in
  1 <= m <= 12 /\ 1 <= d <= days_in_month y m /\ days_from_civil y m d = z
  /\ 400 * ((z + 719468) / 146097) <= y <= 400 * ((z + 719468) / 146097) + 400.
Proof.
  unfold civil_from_days. cbv zeta.
  set (era := (z + 719468) / 146097).
  set (doe := z + 719468 - era * 146097).
  assert (Hdoe : 0 <= doe < 146097).
  { subst doe era. pose proof (Z.mod_pos_bound (z + 719468) 146097 ltac:(lia)) as Hm.
    rewrite Z.mod_eq in Hm by lia. lia. }
  pose proof (year_of_era doe Hdoe) as Hyear. cbv zeta in Hyear.
  set (yoe := (doe - doe / 1460 + doe / 36524 - doe / 146096) / 365) in *.
  set (doy := doe - (365 * yoe + yoe / 4 - yoe / 100)) in *.
  destruct Hyear as (Hyoe & Hdoy & Hleap).
  assert (Hfeb : doy = 365 -> is_leap (yoe + 1) = true).
  { intros H365. destruct (Hleap H365). by apply is_leap_true. }
  pose proof (month_of_day yoe doy Hdoy Hfeb) as Hmonth. cbv zeta in Hmonth.
  set (mp := (5 * doy + 2) / 153) in *.
  set (d := doy - (153 * mp + 2) / 5 + 1) in *.
  set (m := if mp <? 10 then mp + 3 else mp - 9) in *.
  destruct Hmonth as (Hm & Hd & Hback).
  set (c := if m <=? 2 then 1 else 0) in *.
  assert (Hc : 0 <= c <= 1) by (subst c; destruct (m <=? 2); lia).
  split; [lia |]. split; [| split].
  - replace (yoe + era * 400 + c) with (yoe + c + era * 400) by lia.
    rewrite days_in_month_cycle. lia.
  - unfold days_from_civil. cbv zeta.
    assert (Hy : (if m <=? 2 then yoe + era * 400 + c - 1 else yoe + era * 400 + c)
                 = yoe + era * 400).
    { subst c. destruct (m <=? 2); lia. }
    rewrite Hy.
    assert (Hera : (yoe + era * 400) / 400 = era).
    { symmetry. apply (Z.div_unique _ _ _ yoe); lia. }
    rewrite Hera.
    replace (yoe + era * 400 - era * 400) with yoe by lia.
    subst doe doy. lia.
  - lia.
Qed.

Lemma digit_value_digit_char (n : Z) : digit_value (digit_char n) = Some (n mod 10).
Proof.
  unfold digit_char.
  pose proof (Z.mod_pos_bound n 10 ltac:(lia)) as Hm.
  assert (Hcases : n mod 10 = 0 \/ n mod 10 = 1 \/ n mod 10 = 2 \/ n mod 10 = 3
                   \/ n mod 10 = 4 \/ n mod 10 = 5 \/ n mod 10 = 6 \/ n mod 10 = 7
                   \/ n mod 10 = 8 \/ n mod 10 = 9) by lia.
  repeat (destruct Hcases as [-> | Hcases]; [reflexivity |]).
  rewrite Hcases. reflexivity.
Qed.

Lemma digit_char_not_sign (n : Z) :
  Ascii.eqb (digit_char n) "+" = false /\ Ascii.eqb (digit_char n) "-" = false.
Proof.
  unfold digit_char.
  pose proof (Z.mod_pos_bound n 10 ltac:(lia)) as Hm.
  assert (Hcases : n mod 10 = 0 \/ n mod 10 = 1 \/ n mod 10 = 2 \/ n mod 10 = 3
                   \/ n mod 10 = 4 \/ n mod 10 = 5 \/ n mod 10 = 6 \/ n mod 10 = 7
                   \/ n mod 10 = 8 \/ n mod 10 = 9) by lia.
  repeat (destruct Hcases as [-> | Hcases]; [split; reflexivity |]).
  rewrite Hcases. split; reflexivity.
Qed.

(** Reading one more digit after [width] of them. *)
Lemma take_digits_from_snoc (width : nat) (acc : Z) (s : string) :
  take_digits_from (S width) acc s
  = r ← take_digits_from width acc s;
    match snd r with
    | String c s' => v ← digit_value c; Some (fst r * 10 + v, s')
    | EmptyString => None
    end.
Proof.
  revert acc s. induction width as [| w IH]; intros acc s.
  - destruct s as [| c s]; [reflexivity |]. cbn.
    destruct (digit_value c); reflexivity.
  - destruct s as [| c s]; [reflexivity |].
    change (take_digits_from (S (S w)) acc (String c s))
      with (v ← digit_value c; take_digits_from (S w) (acc * 10 + v) s).
    change (take_digits_from (S w) acc (String c s))
      with (v ← digit_value c; take_digits_from w (acc * 10 + v) s).
    destruct (digit_value c) as [v |]; [| reflexivity].
    cbn [mbind option_bind]. apply IH.
Qed.

Lemma take_digits_from_digits (width : nat) (n acc : Z) (rest : string) :
  0 <= n < 10 ^ Z.of_nat width ->
  take_digits_from width acc (digits width n +:+ rest)
  = Some (acc * 10 ^ Z.of_nat width + n, rest).
Proof.
  revert n rest. induction width as [| w IH]; intros n rest Hn.
  - cbn in *. f_equal. f_equal. lia.
  - rewrite Nat2Z.inj_succ, Z.pow_succ_r in * by lia.
    rewrite take_digits_from_snoc. cbn [digits].
    rewrite app_assoc_string, app_single.
    rewrite IH by (split; [apply Z.div_pos; lia | apply Z.div_lt_upper_bound; lia]).
    cbn [mbind option_bind fst snd]. rewrite digit_value_digit_char.
    cbn [mbind option_bind]. f_equal. f_equal.
    pose proof (Z.div_mod n 10 ltac:(lia)). lia.
Qed.

Lemma take_digits_digits (width : nat) (n : Z) (rest : string) :
  0 <= n < 10 ^ Z.of_nat width ->
  take_digits width (digits width n +:+ rest) = Some (n, rest).
Proof.
  intros Hn. unfold take_digits. rewrite take_digits_from_digits by exact Hn.
  f_equal.
Qed.

Lemma digits_head (width : nat) (n : Z) (rest : string) :
  exists k s, digits (S width) n +:+ rest = String (digit_char k) s.
Proof.
  revert n rest. induction width as [| w IH]; intros n rest.
  - exists n, rest. reflexivity.
  - change (digits (S (S w)) n) with (digits (S w) (n / 10) +:+ String (digit_char n) "").
    rewrite app_assoc_string. apply IH.
Qed.

Lemma take_year_year_string (y : Z) (rest : string) :
  -999999 <= y <= 999999 ->
  take_year (year_string y +:+ rest) = Some (y, rest).
Proof.
  intros Hy. unfold year_string.
  destruct ((0 <=? y) && (y <=? 9999)) eqn:Hsmall.
  - apply andb_true_iff in Hsmall as [H0 H1].
    apply Z.leb_le in H0, H1.
    destruct (digits_head 3 y rest) as (k & s & Hs).
    unfold take_year. rewrite Hs.
    destruct (digit_char_not_sign k) as [-> ->].
    rewrite <- Hs. apply take_digits_digits. cbn. lia.
  - assert (Hout : y < 0 \/ 9999 < y).
    { apply andb_false_iff in Hsmall as [H | H]; apply Z.leb_gt in H; lia. }
    destruct (y <? 0) eqn:Hneg.
    + apply Z.ltb_lt in Hneg.
      rewrite app_assoc_string, app_single.
      unfold take_year. change (Ascii.eqb "-" "+") with false.
      change (Ascii.eqb "-" "-") with true. cbv iota.
      rewrite take_digits_digits by (cbn; lia).
      cbn [mbind option_bind fst snd].
      destruct (Z.abs y =? 0) eqn:Hz; [apply Z.eqb_eq in Hz; lia |].
      f_equal. f_equal. lia.
    + apply Z.ltb_ge in Hneg.
      rewrite app_assoc_string, app_single.
      unfold take_year. change (Ascii.eqb "+" "+") with true. cbv iota.
      rewrite take_digits_digits by (cbn; lia).
      f_equal. f_equal. lia.
Qed.

Lemma expect_head (c : ascii) (s : string) : expect c (String c s) = Some s.
Proof. unfold expect. by rewrite Ascii.eqb_refl. Qed.

(** One step of [getTime] on text that [toISOString] wrote: a separator,
    or a field of digits. *)
Ltac read_char := cbn [mbind option_bind]; rewrite ?app_single, expect_head.
Ltac read_digits :=
  cbn [mbind option_bind]; rewrite take_digits_digits by (cbn; lia).

(** [new Date(new Date(t).toISOString()).getTime()] is [t]. *)
Lemma getTime_toISOString (t : Z) : time_value t -> getTime (toISOString t) = Some t.
Proof.
  unfold time_value. intros Ht. unfold toISOString.
  pose proof (civil_from_days_spec (t / msPerDay)) as Hcivil.
  destruct (civil_from_days (t / msPerDay)) as [[y m] d].
  destruct Hcivil as (Hm & Hd & Hback & Hy).
  pose proof (days_in_month_le y m) as Hdim.
  set (ms := t mod msPerDay).
  assert (Hms : 0 <= ms < 86400000).
  { subst ms. apply Z.mod_pos_bound. unfold msPerDay. lia. }
  assert (Hdays : -100000001 <= t / msPerDay <= 100000000).
  { unfold msPerDay. split.
    - apply Z.div_le_lower_bound; lia.
    - apply Z.div_le_upper_bound; lia. }
  assert (Hyear : -999999 <= y <= 999999).
  { assert (-684 <= (t / msPerDay + 719468) / 146097 <= 690).
    { split; [apply Z.div_le_lower_bound | apply Z.div_le_upper_bound]; lia. }
    lia. }
  assert (Hh : 0 <= ms / 3600000 < 24)
    by (split; [apply Z.div_pos | apply Z.div_lt_upper_bound]; lia).
  assert (Hmi : 0 <= ms / 60000 mod 60 < 60) by (apply Z.mod_pos_bound; lia).
  assert (Hsec : 0 <= ms / 1000 mod 60 < 60) by (apply Z.mod_pos_bound; lia).
  assert (Hmsec : 0 <= ms mod 1000 < 1000) by (apply Z.mod_pos_bound; lia).
  assert (Hsum : ms / 3600000 * 3600000 + ms / 60000 mod 60 * 60000
                 + ms / 1000 mod 60 * 1000 + ms mod 1000 = ms).
  { clear -Hms. Z.div_mod_to_equations. lia. }
  unfold getTime.
  rewrite take_year_year_string by exact Hyear.
  do 6 (read_char; read_digits). read_char.
  cbn [mbind option_bind].
  replace ((1 <=? m) && (m <=? 12) && (1 <=? d) && (d <=? days_in_month y m)
           && (ms / 3600000 <=? 23) && (ms / 60000 mod 60 <=? 59)
           && (ms / 1000 mod 60 <=? 59)) with true
    by (symmetry; repeat (apply andb_true_iff; split); apply Z.leb_le; lia).
  rewrite Hback.
  assert (Ht' : t / msPerDay * msPerDay + ms / 3600000 * 3600000
                + ms / 60000 mod 60 * 60000 + ms / 1000 mod 60 * 1000 + ms mod 1000
                = t).
  { pose proof (Z.div_mod t msPerDay ltac:(unfold msPerDay; lia)) as Hdm.
    fold ms in Hdm. lia. }
  rewrite Ht'.
  destruct (Z.abs t <=? 8640000000000000) eqn:Hclip; [reflexivity |].
  apply Z.leb_gt in Hclip. lia.
Qed.

(** ** Saving and loading *)

(** C1.  Saving the state and then loading what was saved (on the same page or on a
    later page that finds the blob in storage) ends normally with a state equal to
    the one saved: the same hives in the same order and, in each hive, the same
    reports with the same contents in the same order.  This holds for every state
    of the declared types, so in particular for the states the add-hive and
    add-inspection handlers produce. *)
Theorem save_then_load_restores_state (w page : World) :
  localStorage page = localStorage (exec saveStateToLocalStorage w) ->
  fst (loadStateFromLocalStorage page) = Normal tt
  /\ state (exec loadStateFromLocalStorage page) = state w
  /\ hives (state (exec loadStateFromLocalStorage page)) = hives (state w)
  /\ map reports (hives (state (exec loadStateFromLocalStorage page)))
     = map reports (hives (state w)).
Proof.
  intros Hstore.
  assert (Hload : loadStateFromLocalStorage page
                  = (Normal tt, set_state (fun _ => state w) page)).
  { eapply loadState_parsed.
    - rewrite Hstore. unfold exec. rewrite saveState_eq.
      cbn [snd localStorage set_localStorage]. apply lookup_insert_eq.
    - apply stringify_not_empty.
    - apply JSONFacts.parse_stringify.
    - apply state_of_to_json. }
  unfold exec. rewrite Hload. cbn [fst snd state set_state]. auto.
Qed.

(** ** Adding hives *)

Lemma perform_normal (a : Action) (w : World) : fst (perform a w) = Normal tt.
Proof.
  destruct a as [n l now | form now today]; cbn [perform].
  - by rewrite handleAddHive_eq.
  - destruct (list_find (fun h => h_id h = inspection_hive_id form) (hives (state w)))
      as [[i h] |] eqn:Hfind.
    + by rewrite (handleAddInspection_found _ _ _ _ _ _ Hfind).
    + by rewrite (handleAddInspection_missing _ _ _ _ Hfind).
Qed.

Lemma perform_all_normal (acts : list Action) (w : World) :
  fst (perform_all acts w) = Normal tt.
Proof.
  revert w. induction acts as [| a acts IH]; intros w; [reflexivity |].
  cbn [perform_all]. rewrite (bind_normal _ _ tt) by apply perform_normal. apply IH.
Qed.

Lemma exec_perform_all_cons (a : Action) (acts : list Action) (w : World) :
  exec (perform_all (a :: acts)) w = exec (perform_all acts) (exec (perform a) w).
Proof.
  unfold exec at 1. cbn [perform_all].
  by rewrite (bind_normal _ _ tt) by apply perform_normal.
Qed.

Lemma sort_reports_new_hive (n l : string) (now : Z) :
  sort_reports (new_hive n l now) = new_hive n l now.
Proof. reflexivity. Qed.

Lemma hives_after_add_hive (n l : string) (now : Z) (w : World) :
  hives (state (exec (handleAddHive n l now) w))
  = map sort_reports (hives (state w)) ++ [new_hive n l now].
Proof.
  unfold exec at 1. rewrite handleAddHive_eq. cbn [snd].
  change (state (exec (closeModal AddHiveModal) ?x)) with (state x).
  rewrite render_state. cbn [hives set_hives].
  change (state (exec saveStateToLocalStorage ?x)) with (state x).
  cbn [state set_state hives set_hives].
  by rewrite map_app.
Qed.

Lemma same_hive_no_reports (h h' : Hive) :
  same_hive_up_to_order h h' -> reports h = [] -> h' = h.
Proof.
  destruct h as [i n l rs], h' as [i' n' l' rs'].
  unfold same_hive_up_to_order. cbn. intros (-> & -> & -> & Hp) ->.
  apply Permutation_nil_l in Hp. by subst.
Qed.

Lemma same_hive_trans (h1 h2 h3 : Hive) :
  same_hive_up_to_order h1 h2 -> same_hive_up_to_order h2 h3 ->
  same_hive_up_to_order h1 h3.
Proof.
  unfold same_hive_up_to_order. intros (-> & -> & -> & Hp) (-> & -> & -> & Hq).
  repeat split. by rewrite Hp.
Qed.

Lemma Forall2_sort_reports (hs : list Hive) :
  Forall2 same_hive_up_to_order hs (map sort_reports hs).
Proof.
  induction hs as [| h hs IH]; constructor; [apply sort_reports_same_hive | exact IH].
Qed.

Lemma hives_after_add_hives (subs : list (string * string * Z)) (w : World) :
  exists old,
    hives (state (exec (perform_all (add_hive_actions subs)) w))
    = old ++ map (fun s => new_hive (fst (fst s)) (snd (fst s)) (snd s)) subs
    /\ Forall2 same_hive_up_to_order (hives (state w)) old.
Proof.
  revert w. induction subs as [| [[n l] now] subs IH]; intros w.
  - exists (hives (state w)). split; [by rewrite app_nil_r |].
    induction (hives (state w)); constructor; [by repeat split | assumption].
  - cbn [add_hive_actions map fst snd]. rewrite exec_perform_all_cons.
    destruct (IH (exec (perform (AddHive n l now)) w)) as (old1 & Hhs & Hold).
    cbn [perform] in Hold. rewrite hives_after_add_hive in Hold.
    apply Forall2_app_inv_l in Hold as (old & last & Hold & Hlast & ->).
    apply Forall2_cons_inv_l in Hlast as (h' & tl & Hh' & Htl & ->).
    apply Forall2_nil_inv_l in Htl as ->.
    apply same_hive_no_reports in Hh'; [subst h' | reflexivity].
    exists old. split.
    + unfold add_hive_actions in Hhs. rewrite Hhs. by rewrite <- app_assoc.
    + clear -Hold. revert old Hold.
      induction (hives (state w)) as [| h hs IHhs]; intros old Hold.
      * apply Forall2_nil_inv_l in Hold as ->. constructor.
      * cbn [map] in Hold. apply Forall2_cons_inv_l in Hold as (h' & tl & Hh & Htl & ->).
        constructor; [| by apply IHhs].
        eapply same_hive_trans; [apply sort_reports_same_hive | exact Hh].
Qed.

(** C2.  A sequence of add-hive actions, started in any state, ends normally with
    as many hives as there were at the start plus one per action; the hives added
    are the last ones, in the order of the actions, each with the submitted name and
    location and with no reports. *)
Theorem add_hive_sequence_counts (subs : list (string * string * Z)) (w : World) :
  let w' := exec (perform_all (add_hive_actions subs)) w in
  let start := length (hives (state w)) in
  fst (perform_all (add_hive_actions subs) w) = Normal tt
  /\ length (hives (state w')) = (start + length subs)%nat
  /\ drop start (hives (state w'))
     = map (fun s => new_hive (fst (fst s)) (snd (fst s)) (snd s)) subs
  /\ Forall (fun h => reports h = []) (drop start (hives (state w'))).
Proof.
  intros w' start.
  destruct (hives_after_add_hives subs w) as (old & Hhs & Hold).
  apply Forall2_length in Hold. fold w' in Hhs. fold start in Hold.
  split; [apply perform_all_normal |].
  assert (Hdrop : drop start (hives (state w'))
                  = map (fun s => new_hive (fst (fst s)) (snd (fst s)) (snd s)) subs).
  { rewrite Hhs, Hold. by rewrite drop_app_length. }
  split; [| split; [exact Hdrop |]].
  - rewrite Hhs, length_app, length_map. lia.
  - rewrite Hdrop. clear.
    induction subs as [| s subs IH]; constructor; [reflexivity | exact IH].
Qed.

(** ** Adding an inspection *)

Lemma lookup_map {A B} (f : A -> B) (l : list A) (i : nat) :
  map f l !! i = f <$> (l !! i).
Proof. apply list_lookup_fmap. Qed.

Lemma find_hive_present (hiveId : string) (hs : list Hive) :
  In hiveId (map h_id hs) ->
  exists i h, list_find (fun h => h_id h = hiveId) hs = Some (i, h).
Proof.
  intros Hin. apply in_map_iff in Hin as (h & Hid & Hin).
  apply list_elem_of_In in Hin.
  destruct (list_find_elem_of (fun h => h_id h = hiveId) hs h Hin Hid) as [[i h'] Hfind].
  eauto.
Qed.

Lemma find_hive_absent (hiveId : string) (hs : list Hive) :
  ~ In hiveId (map h_id hs) ->
  list_find (fun h => h_id h = hiveId) hs = None.
Proof.
  intros Hnot. apply list_find_None, Forall_forall. intros h Hin Hid.
  apply Hnot, in_map_iff. exists h. split; [exact Hid | by apply list_elem_of_In].
Qed.

Lemma hives_after_add_inspection (form : InspectionForm) (now today : Z) (w : World)
    (i : nat) (h : Hive) :
  list_find (fun h => h_id h = inspection_hive_id form) (hives (state w)) = Some (i, h) ->
  hives (state (exec (handleAddInspection form now today) w))
  = map sort_reports (alter (push_report (new_report form now today)) i (hives (state w))).
Proof.
  intros Hfind. unfold exec at 1.
  rewrite (handleAddInspection_found _ _ _ _ _ _ Hfind). cbn [snd].
  change (state (set_dom ?f ?x)) with (state x).
  change (state (exec (closeModal AddInspectionModal) ?x)) with (state x).
  rewrite render_state. reflexivity.
Qed.

(** C3.  An add-inspection action whose hive identifier is in the store ends
    normally; the hive it targets (the first one carrying that identifier) then
    holds exactly one report more: its former reports and one new report, whose
    date is the submission instant (written by [toISOString], and read back as that
    instant) and whose queen, disease, eggs, honeyStores and feeding fields are the
    submitted form values.  Every other hive keeps its number of reports. *)
Theorem add_inspection_appends_report (form : InspectionForm) (now today : Z)
    (w : World) :
  In (inspection_hive_id form) (hive_ids (state w)) ->
  let w' := exec (handleAddInspection form now today) w in
  exists i h h' r,
    list_find (fun h => h_id h = inspection_hive_id form) (hives (state w)) = Some (i, h)
    /\ fst (handleAddInspection form now today w) = Normal tt
    /\ hives (state w') !! i = Some h'
    /\ h_id h' = inspection_hive_id form
    /\ length (reports h') = S (length (reports h))
    /\ In r (reports h')
    /\ reports h' ≡ₚ r :: reports h
    /\ r_date r = toISOString today
    /\ (time_value today -> getTime (r_date r) = Some today)
    /\ queen r = form_queen form
    /\ disease r = form_disease form
    /\ eggs r = form_eggs form
    /\ honeyStores r = honey_stores form
    /\ feeding r = form_feeding form
    /\ forall j hj, j <> i -> hives (state w) !! j = Some hj ->
         exists hj', hives (state w') !! j = Some hj'
                     /\ length (reports hj') = length (reports hj).
Proof.
  intros Hin w'.
  destruct (find_hive_present _ _ Hin) as (i & h & Hfind).
  pose proof (hives_after_add_inspection form now today w i h Hfind) as Hhs.
  fold w' in Hhs.
  apply list_find_Some in Hfind as Hspec. destruct Hspec as (Hlook & Hid & _).
  set (r := new_report form now today) in *.
  assert (Hperm : Array_sort comparefn (reports h ++ [r]) ≡ₚ r :: reports h).
  { rewrite Array_sort_Permutation. by rewrite Permutation_app_comm. }
  exists i, h, (sort_reports (push_report r h)), r.
  split; [exact Hfind |].
  split; [by rewrite (handleAddInspection_found _ _ _ _ _ _ Hfind) |].
  split; [rewrite Hhs, lookup_map, list_lookup_alter_eq, Hlook; reflexivity |].
  split; [exact Hid |].
  split; [cbn [sort_reports push_report set_reports reports];
          rewrite Array_sort_length, length_app; cbn; lia |].
  split; [cbn [sort_reports push_report set_reports reports];
          apply list_elem_of_In; rewrite Hperm; apply list_elem_of_here |].
  split; [exact Hperm |].
  split; [reflexivity |].
  split; [apply getTime_toISOString |].
  do 5 (split; [reflexivity |]).
  intros j hj Hne Hj. exists (sort_reports hj).
  split; [rewrite Hhs, lookup_map, list_lookup_alter_ne, Hj by auto; reflexivity |].
  cbn [sort_reports set_reports reports]. apply Array_sort_length.
Qed.

(** C5.  An add-inspection action whose hive identifier is not in the store
    returns normally and leaves the whole world as it was: no alert and no console
    output (no feedback), the page untouched, no hive with a new report, and the
    storage not written. *)
Theorem add_inspection_unknown_hive_changes_nothing (form : InspectionForm)
    (now today : Z) (w : World) :
  ~ In (inspection_hive_id form) (hive_ids (state w)) ->
  let w' := exec (handleAddInspection form now today) w in
  handleAddInspection form now today w = (Normal tt, w)
  /\ alerts w' = alerts w /\ console w' = console w /\ dom w' = dom w
  /\ state w' = state w /\ localStorage w' = localStorage w /\ network w' = network w.
Proof.
  intros Hnot w'. subst w'. unfold exec.
  rewrite (handleAddInspection_missing _ _ _ _ (find_hive_absent _ _ Hnot)).
  repeat split.
Qed.

(** ** The AI actions *)

(** C8.  With no hives in the state, requesting AI advice ends normally after one
    alert, the "no data" message; no request goes to the service, and the page
    (output region and loading indicator included) and the state stay as they
    were. *)
Theorem advice_without_hives_only_alerts (env : Env) (w : World) :
  hives (state w) = [] ->
  let w' := exec (handleGetAIAdvice env) w in
  fst (handleGetAIAdvice env w) = Normal tt
  /\ network w' = network w
  /\ alerts w' = alerts w ++ [no_data_alert]
  /\ ai_advice_result (dom w') = ai_advice_result (dom w)
  /\ loading_spinner_display (dom w') = loading_spinner_display (dom w)
  /\ dom w' = dom w
  /\ state w' = state w.
Proof.
  intros Hnone w'. subst w'.
  unfold exec, handleGetAIAdvice, bind, gets. cbn [fst snd]. rewrite Hnone.
  repeat split.
Qed.

Lemma advice_failure (env : Env) (w : World) :
  hives (state w) <> [] -> advice_fails env w ->
  exists w', handleGetAIAdvice env w = (Normal tt, w')
    /\ loading_spinner_display (dom w') = "none"
    /\ ai_advice_result (dom w') = advice_error_message.
Proof.
  intros Hsome [e Hfail].
  unfold handleGetAIAdvice, bind at 1, gets at 1. cbn [fst snd].
  destruct (hives (state w)) as [| h hs] eqn:Hhs; [congruence |].
  unfold showLoading, try_catch_finally, request, await, bind, gets, modify.
  cbn [state set_dom hives]. rewrite Hhs, Hfail.
  eexists. split; [reflexivity |]. split; reflexivity.
Qed.

Lemma image_failure (env : Env) (file : File) (files : list File) (w : World) :
  image_analysis_fails env file ->
  exists w', handleAnalyzeImage env (file :: files) w = (Normal tt, w')
    /\ loading_spinner_display (dom w') = "none"
    /\ image_analysis_result (dom w') = image_error_message.
Proof.
  unfold image_analysis_fails. intros Hfail.
  unfold handleAnalyzeImage, showLoading, try_catch_finally, request, await, bind,
    gets, modify.
  destruct (fileToBase64 env file) as [data | e].
  - destruct Hfail as [e Hfail]. rewrite Hfail.
    eexists. split; [reflexivity |]. split; reflexivity.
  - eexists. split; [reflexivity |]. split; reflexivity.
Qed.

Lemma error_messages_not_empty :
  advice_error_message <> "" /\ image_error_message <> "".
Proof. split; discriminate. Qed.

(** C7, as the code has it.  When the AI-advice action or the image-analysis
    action fails by a rejection (the file read or the service request is rejected,
    whatever the error), the handler still ends normally, not with a fault; the
    loading indicator is hidden and the output region of the action holds its
    generic error message, which is not empty.  This is so whatever other handlers
    did to the page while the action was waiting. *)
Theorem ai_failure_ends_with_error_message (env : Env) (w : World) :
  (hives (state w) <> [] -> advice_fails env w ->
   fst (handleGetAIAdvice env w) = Normal tt
   /\ loading_spinner_display (dom (exec (handleGetAIAdvice env) w)) = "none"
   /\ ai_advice_result (dom (exec (handleGetAIAdvice env) w)) = advice_error_message
   /\ advice_error_message <> "")
  /\ (forall file files, image_analysis_fails env file ->
      fst (handleAnalyzeImage env (file :: files) w) = Normal tt
      /\ loading_spinner_display (dom (exec (handleAnalyzeImage env (file :: files)) w))
         = "none"
      /\ image_analysis_result (dom (exec (handleAnalyzeImage env (file :: files)) w))
         = image_error_message
      /\ image_error_message <> "").
Proof.
  split.
  - intros Hsome Hfail.
    destruct (advice_failure env w Hsome Hfail) as (w' & Hrun & Hspin & Hout).
    unfold exec. rewrite Hrun. cbn [fst snd].
    repeat split; try assumption. apply error_messages_not_empty.
  - intros file files Hfail.
    destruct (image_failure env file files w Hfail) as (w' & Hrun & Hspin & Hout).
    unfold exec. rewrite Hrun. cbn [fst snd].
    repeat split; try assumption. apply error_messages_not_empty.
Qed.

(** C7, as stated, fails: a malformed response, one that arrives without text,
    is not a rejection and is not treated as a failure.  Both actions end normally
    with the loading indicator hidden, but the output region is left empty instead
    of holding the error message, and nothing is logged. *)
Lemma malformed_response_shows_no_error_message :
  let w1 := exec (handleGetAIAdvice malformed_env) sample_world in
  let w2 := exec (handleAnalyzeImage malformed_env [sample_file]) sample_world in
  hives (state sample_world) <> []
  /\ fst (handleGetAIAdvice malformed_env sample_world) = Normal tt
  /\ loading_spinner_display (dom w1) = "none"
  /\ ai_advice_result (dom w1) = ""
  /\ ai_advice_result (dom w1) <> advice_error_message
  /\ console w1 = console sample_world
  /\ fst (handleAnalyzeImage malformed_env [sample_file] sample_world) = Normal tt
  /\ loading_spinner_display (dom w2) = "none"
  /\ image_analysis_result (dom w2) = ""
  /\ image_analysis_result (dom w2) <> image_error_message
  /\ console w2 = console sample_world.
Proof.
  intros w1 w2.
  assert (H1 : ai_advice_result (dom w1) = "") by (vm_compute; reflexivity).
  assert (H2 : image_analysis_result (dom w2) = "") by (vm_compute; reflexivity).
  split; [vm_compute; discriminate |].
  split; [vm_compute; reflexivity |]. split; [vm_compute; reflexivity |].
  split; [exact H1 |]. split; [rewrite H1; discriminate |].
  split; [vm_compute; reflexivity |].
  split; [vm_compute; reflexivity |]. split; [vm_compute; reflexivity |].
  split; [exact H2 |]. split; [rewrite H2; discriminate |].
  vm_compute; reflexivity.
Qed.

(** ** The hive list view *)

Lemma sort_reports_newest_first (h : Hive) :
  dated (reports h) -> newest_first (reports (sort_reports h)).
Proof. apply Array_sort_newest_first. Qed.



Lemma newest_first_fixed (h : Hive) :
  dated (reports h) -> newest_first (reports h) -> sort_reports h = h.
Proof.
  intros Hd Hs. destruct h as [i n l rs]. unfold sort_reports, set_reports.
  cbn in *. by rewrite Array_sort_newest_first_fixed.
Qed.

Lemma sorted_hives_newest_first (hs : list Hive) :
  Forall (fun h => dated (reports h)) hs ->
  Forall (fun h => newest_first (reports h)) (map sort_reports hs).
Proof.
  induction 1 as [| h hs Hh Hhs IH]; cbn [map]; constructor; [| exact IH].
  by apply sort_reports_newest_first.
Qed.

Lemma sorted_hives_dated (hs : list Hive) :
  Forall (fun h => dated (reports h)) hs ->
  Forall (fun h => dated (reports h)) (map sort_reports hs).
Proof.
  induction 1 as [| h hs Hh Hhs IH]; cbn [map]; constructor; [| exact IH].
  by apply Array_sort_dated.
Qed.

Lemma sorted_hives_fixed (hs : list Hive) :
  Forall (fun h => dated (reports h)) hs ->
  Forall (fun h => newest_first (reports h)) hs ->
  map sort_reports hs = hs.
Proof.
  induction 1 as [| h hs Hh Hhs IH]; intros Hs; [reflexivity |].
  apply Forall_cons_1 in Hs as [Hs1 Hs2].
  cbn [map]. rewrite newest_first_fixed by assumption. by rewrite IH.
Qed.

(** The handlers keep every report dated: the only dates they write are
    [toISOString] of a clock reading. *)
Lemma perform_keeps_reports_dated (a : Action) (w : World) :
  clock_ok a -> all_dated (state w) -> all_dated (state (exec (perform a) w)).
Proof.
  unfold all_dated. destruct a as [n l now | form now today]; cbn [clock_ok perform].
  - intros _ Hd. rewrite hives_after_add_hive. apply Forall_app. split.
    + by apply sorted_hives_dated.
    + repeat constructor.
  - intros Hclock Hd.
    destruct (list_find (fun h => h_id h = inspection_hive_id form) (hives (state w)))
      as [[i h] |] eqn:Hfind.
    + rewrite (hives_after_add_inspection _ _ _ _ _ _ Hfind).
      apply sorted_hives_dated, Forall_alter; [exact Hd |].
      intros h' _ Hh'. unfold dated, push_report, set_reports. cbn [reports].
      apply Forall_app. split; [exact Hh' |].
      constructor; [| constructor]. unfold valid_date. cbn [new_report r_date].
      rewrite getTime_toISOString by exact Hclock. eauto.
    + unfold exec. by rewrite (handleAddInspection_missing _ _ _ _ Hfind).
Qed.

Lemma actions_keep_reports_dated (acts : list Action) (w : World) :
  Forall clock_ok acts -> all_dated (state w) ->
  all_dated (state (exec (perform_all acts) w)).
Proof.
  intros Hclock. revert w. induction Hclock as [| a acts Ha Hacts IH]; intros w Hd.
  - exact Hd.
  - rewrite exec_perform_all_cons. by apply IH, perform_keeps_reports_dated.
Qed.

(** C10.  Rendering the hive list changes the store: afterwards every hive holds
    its reports as [sort] left them, the same reports in descending order of date
    (for reports with valid dates).  A hive whose reports were not in that order
    before (a newer report appended after an older one) no longer holds them in the
    order they were inserted, and a further render leaves the store as the first
    one made it. *)
Theorem render_sorts_stored_reports_in_place (w : World) :
  all_dated (state w) ->
  let w' := exec renderHivesView w in
  hives (state w') = map sort_reports (hives (state w))
  /\ Forall2 same_hive_up_to_order (hives (state w)) (hives (state w'))
  /\ Forall (fun h => newest_first (reports h)) (hives (state w'))
  /\ (forall i h, hives (state w) !! i = Some h -> ~ newest_first (reports h) ->
        exists h', hives (state w') !! i = Some h' /\ reports h' <> reports h)
  /\ state (exec renderHivesView w') = state w'.
Proof.
  intros Hdated w'.
  assert (Hhs : hives (state w') = map sort_reports (hives (state w))).
  { subst w'. by rewrite render_state. }
  assert (Hsorted : Forall (fun h => newest_first (reports h)) (hives (state w'))).
  { rewrite Hhs. by apply sorted_hives_newest_first. }
  assert (Hdated' : all_dated (state w')).
  { unfold all_dated. rewrite Hhs. by apply sorted_hives_dated. }
  split; [exact Hhs |].
  split; [rewrite Hhs; apply Forall2_sort_reports |].
  split; [exact Hsorted |].
  split.
  - intros i h Hlook Hnot. exists (sort_reports h).
    split; [by rewrite Hhs, lookup_map, Hlook |].
    intros Heq. apply Hnot. rewrite <- Heq. apply sort_reports_newest_first.
    unfold all_dated in Hdated. rewrite Forall_forall in Hdated.
    eapply Hdated, list_elem_of_lookup_2, Hlook.
  - rewrite render_state. destruct (state w') as [hs'] eqn:Hst.
    unfold set_hives. cbn [hives] in *. f_equal.
    by apply sorted_hives_fixed.
Qed.

(** ** The persisted copy *)

Lemma exec_perform_mutating (a : Action) (w : World) :
  mutates a (state w) ->
  localStorage (exec (perform a) w)
  = localStorage (exec saveStateToLocalStorage (set_state (store_update a) w))
  /\ hives (state (exec (perform a) w))
     = map sort_reports (hives (store_update a (state w))).
Proof.
  destruct a as [n l now | form now today]; cbn [mutates perform store_update].
  - intros _. split.
    + unfold exec at 1. rewrite handleAddHive_eq. cbn [snd].
      change (localStorage (exec (closeModal AddHiveModal) ?x)) with (localStorage x).
      apply render_storage.
    + rewrite hives_after_add_hive. cbn [hives set_hives]. by rewrite map_app.
  - intros Hin. destruct (find_hive_present _ _ Hin) as (i & h & Hfind).
    split.
    + unfold exec at 1. rewrite (handleAddInspection_found _ _ _ _ _ _ Hfind).
      cbn [snd].
      change (localStorage (set_dom ?f ?x)) with (localStorage x).
      change (localStorage (exec (closeModal AddInspectionModal) ?x))
        with (localStorage x).
      rewrite render_storage.
      destruct w as [[hs] ls d al co ne]. cbn [state hives] in *.
      unfold set_state, store_update. cbn [state hives]. by rewrite Hfind.
    + rewrite (hives_after_add_inspection _ _ _ _ _ _ Hfind). by rewrite Hfind.
Qed.

(** C6, as the code has it.  When an add-hive action, or an add-inspection action
    whose hive is found, has completed, the blob in storage is the store as the
    action updated it: the write follows the update within the handler, whole, with
    nothing queued or deferred.  That persisted copy and the state in memory hold
    the same hives in the same order and, in each hive, the same reports; the order
    of the reports within a hive is not part of the agreement. *)
Theorem persisted_copy_after_mutation (a : Action) (w : World) :
  mutates a (state w) ->
  let w' := exec (perform a) w in
  let written := store_update a (state w) in
  fst (perform a w) = Normal tt
  /\ persisted w' = Some written
  /\ Forall2 same_hive_up_to_order (hives written) (hives (state w')).
Proof.
  intros Hmut w' written.
  destruct (exec_perform_mutating a w Hmut) as [Hstore Hhs].
  fold w' in Hstore, Hhs. fold written in Hhs.
  split; [apply perform_normal |].
  split; [| rewrite Hhs; apply Forall2_sort_reports].
  rewrite (persisted_storage _ _ Hstore), persisted_after_save. reflexivity.
Qed.

(** C6, as stated, fails: after a second inspection of one hive the blob holds the
    two reports in the order they were added, and the state in memory holds them
    newest first. *)
Lemma persisted_copy_differs_after_second_inspection :
  let form :=
    {| inspection_hive_id := "hive_1700000000000"; form_queen := "yes";
       form_disease := "no"; form_eggs := "yes"; honey_stores := "good";
       form_feeding := "no"; feeding_amount := ""; general_notes := "" |} in
  let w :=
    exec (perform_all [AddHive "A" "B" 1700000000000;
                       AddInspection form 1700000001000 1700000001000])
      fresh_world in
  let w' := exec (perform (AddInspection form 1700000002000 1700000002000)) w in
  mutates (AddInspection form 1700000002000 1700000002000) (state w)
  /\ persisted w' <> Some (state w').
Proof.
  split; [vm_compute; left; reflexivity |].
  vm_compute. intros H. discriminate H.
Qed.

(** ** Identifiers *)

Lemma hive_id_at_inj : Inj (=) (=) hive_id_at.
Proof. intros t1 t2 H. unfold hive_id_at in H. by simplify_eq. Qed.

Lemma report_id_at_inj : Inj (=) (=) report_id_at.
Proof. intros t1 t2 H. unfold report_id_at in H. by simplify_eq. Qed.

Lemma h_id_sort_reports (hs : list Hive) : map h_id (map sort_reports hs) = map h_id hs.
Proof. induction hs as [| h hs IH]; [reflexivity |]. cbn [map]. by rewrite IH. Qed.

Lemma h_id_alter_reports (f : Hive -> Hive) (i : nat) (hs : list Hive) :
  (forall h, h_id (f h) = h_id h) -> map h_id (alter f i hs) = map h_id hs.
Proof.
  intros Hf. revert i. induction hs as [| h hs IH]; intros [| i]; cbn; try reflexivity.
  - by rewrite Hf.
  - f_equal. apply IH.
Qed.

Lemma all_reports_sorted (hs : list Hive) :
  concat (map reports (map sort_reports hs)) ≡ₚ concat (map reports hs).
Proof.
  induction hs as [| h hs IH]; [reflexivity |].
  cbn [map concat sort_reports set_reports reports].
  by rewrite Array_sort_Permutation, IH.
Qed.

Lemma all_reports_pushed (r : InspectionReport) (i : nat) (hs : list Hive) (h : Hive) :
  hs !! i = Some h ->
  concat (map reports (alter (push_report r) i hs)) ≡ₚ r :: concat (map reports hs).
Proof.
  revert i. induction hs as [| h0 hs IH]; intros [| i] Hlook; try discriminate.
  - cbn [alter list_alter map concat push_report set_reports reports].
    rewrite <- app_assoc. cbn [app].
    by rewrite <- Permutation_middle.
  - cbn [alter list_alter map concat]. cbn in Hlook.
    rewrite (IH i Hlook). by rewrite <- Permutation_middle.
Qed.

Lemma hive_ids_after (a : Action) (w : World) :
  hive_ids (state (exec (perform a) w))
  = hive_ids (state w) ++ map hive_id_at (hive_clock [a]).
Proof.
  unfold hive_ids. destruct a as [n l now | form now today]; cbn [perform hive_clock map].
  - rewrite hives_after_add_hive, map_app, h_id_sort_reports. reflexivity.
  - rewrite app_nil_r.
    destruct (list_find (fun h => h_id h = inspection_hive_id form) (hives (state w)))
      as [[i h] |] eqn:Hfind.
    + rewrite (hives_after_add_inspection _ _ _ _ _ _ Hfind), h_id_sort_reports.
      by apply h_id_alter_reports.
    + unfold exec. by rewrite (handleAddInspection_missing _ _ _ _ Hfind).
Qed.

Lemma report_ids_after (a : Action) (w : World) :
  exists ts, ts `sublist_of` report_clock [a]
    /\ report_ids (state (exec (perform a) w))
       ≡ₚ report_ids (state w) ++ map report_id_at ts.
Proof.
  unfold report_ids, all_reports.
  destruct a as [n l now | form now today]; cbn [perform report_clock].
  - exists []. split; [constructor |]. rewrite app_nil_r.
    rewrite hives_after_add_hive, map_app, concat_app. cbn [map concat].
    rewrite !app_nil_r. by rewrite all_reports_sorted.
  - destruct (list_find (fun h => h_id h = inspection_hive_id form) (hives (state w)))
      as [[i h] |] eqn:Hfind.
    + exists [now]. split; [reflexivity |].
      rewrite (hives_after_add_inspection _ _ _ _ _ _ Hfind).
      apply list_find_Some in Hfind as (Hlook & _ & _).
      rewrite all_reports_sorted, (all_reports_pushed _ _ _ _ Hlook).
      cbn [map]. rewrite <- Permutation_cons_append. reflexivity.
    + exists []. split; [apply sublist_nil_l |]. rewrite app_nil_r.
      unfold exec. by rewrite (handleAddInspection_missing _ _ _ _ Hfind).
Qed.

Lemma hive_clock_cons (a : Action) (acts : list Action) :
  hive_clock (a :: acts) = hive_clock [a] ++ hive_clock acts.
Proof. destruct a; reflexivity. Qed.

Lemma report_clock_cons (a : Action) (acts : list Action) :
  report_clock (a :: acts) = report_clock [a] ++ report_clock acts.
Proof. destruct a; reflexivity. Qed.

Lemma hive_ids_after_all (acts : list Action) (w : World) :
  hive_ids (state (exec (perform_all acts) w))
  = hive_ids (state w) ++ map hive_id_at (hive_clock acts).
Proof.
  revert w. induction acts as [| a acts IH]; intros w.
  - cbn. by rewrite app_nil_r.
  - rewrite exec_perform_all_cons, IH, hive_ids_after, (hive_clock_cons a acts).
    rewrite map_app. symmetry. apply app_assoc.
Qed.

Lemma report_ids_after_all (acts : list Action) (w : World) :
  exists ts, ts `sublist_of` report_clock acts
    /\ report_ids (state (exec (perform_all acts) w))
       ≡ₚ report_ids (state w) ++ map report_id_at ts.
Proof.
  revert w. induction acts as [| a acts IH]; intros w.
  - exists []. split; [constructor |]. cbn. by rewrite app_nil_r.
  - rewrite exec_perform_all_cons, (report_clock_cons a acts).
    destruct (report_ids_after a w) as (t1 & Hsub1 & Hp1).
    destruct (IH (exec (perform a) w)) as (t2 & Hsub2 & Hp2).
    exists (t1 ++ t2). split; [by apply sublist_app |].
    rewrite Hp2, Hp1, map_app. by rewrite app_assoc.
Qed.

(** C4, as the code has it.  Started from a store without hives, a sequence of
    add-hive and add-inspection actions in which no two add-hive actions read the
    same clock value, and no two add-inspection actions do, leaves every hive
    identifier unique among the hives and every report identifier unique among the
    reports of all hives. *)
Theorem identifiers_unique_for_distinct_clock_readings (acts : list Action)
    (w : World) :
  hives (state w) = [] ->
  NoDup (hive_clock acts) ->
  NoDup (report_clock acts) ->
  let w' := exec (perform_all acts) w in
  NoDup (hive_ids (state w')) /\ NoDup (report_ids (state w')).
Proof.
  intros Hempty Hhives Hreports w'. subst w'. split.
  - rewrite hive_ids_after_all. unfold hive_ids at 1. rewrite Hempty. cbn [map app].
    apply (@NoDup_fmap_2 _ _ hive_id_at hive_id_at_inj), Hhives.
  - destruct (report_ids_after_all acts w) as (ts & Hsub & Hp).
    rewrite Hp. unfold report_ids, all_reports. rewrite Hempty. cbn [map concat app].
    apply (@NoDup_fmap_2 _ _ report_id_at report_id_at_inj).
    eapply sublist_NoDup; eassumption.
Qed.

(** C4, as stated, fails: two hives created within one millisecond carry the same
    identifier, and so do two reports. *)
Lemma same_millisecond_identifiers_collide :
  let form :=
    {| inspection_hive_id := "hive_1700000000000"; form_queen := "yes";
       form_disease := "no"; form_eggs := "yes"; honey_stores := "good";
       form_feeding := "no"; feeding_amount := ""; general_notes := "" |} in
  let w :=
    exec (perform_all [AddHive "A" "north" 1700000000000;
                       AddHive "B" "south" 1700000000000;
                       AddInspection form 1700000001000 1700000001000;
                       AddInspection form 1700000001000 1700000001000])
      fresh_world in
  hive_ids (state w) = ["hive_1700000000000"; "hive_1700000000000"]
  /\ report_ids (state w) = ["report_1700000001000"; "report_1700000001000"]
  /\ ~ NoDup (hive_ids (state w))
  /\ ~ NoDup (report_ids (state w)).
Proof.
  assert (Hdup : forall x : string, ~ NoDup [x; x]).
  { intros x H. apply NoDup_cons in H as [Hx _]. apply Hx. by left. }
  repeat split; try (vm_compute; reflexivity);
    (let H := fresh in intros H; vm_compute in H; exact (Hdup _ H)).
Qed.

(** ** The theorems at work on the sample data *)

Lemma reloaded_page_storage (w : World) :
  localStorage (reloaded_page w) = localStorage w.
Proof. reflexivity. Qed.

Lemma save_then_load_restores_state_witness :
  localStorage (reloaded_page (exec saveStateToLocalStorage sample_world))
  = localStorage (exec saveStateToLocalStorage sample_world)
  /\ state (exec loadStateFromLocalStorage
              (reloaded_page (exec saveStateToLocalStorage sample_world)))
     = state sample_world.
Proof.
  split; [apply reloaded_page_storage |].
  apply (save_then_load_restores_state sample_world
           (reloaded_page (exec saveStateToLocalStorage sample_world))
           (reloaded_page_storage _)).
Defined.

Lemma add_inspection_appends_report_witness :
  In (inspection_hive_id sample_form) (hive_ids (state sample_world))
  /\ exists i h h',
       list_find (fun h => h_id h = inspection_hive_id sample_form)
         (hives (state sample_world)) = Some (i, h)
       /\ hives (state (exec (perform second_inspection) sample_world)) !! i = Some h'
       /\ length (reports h') = S (length (reports h)).
Proof.
  assert (Hin : In (inspection_hive_id sample_form) (hive_ids (state sample_world))).
  { vm_compute. left. reflexivity. }
  split; [exact Hin |].
  destruct (add_inspection_appends_report sample_form 1700000002000 1700000002000
              sample_world Hin)
    as (i & h & h' & r & Hfind & _ & Hlook & _ & Hlen & _).
  exists i, h, h'. split; [exact Hfind |]. split; [exact Hlook | exact Hlen].
Defined.

Lemma add_inspection_unknown_hive_changes_nothing_witness :
  let form :=
    {| inspection_hive_id := "hive_1"; form_queen := "yes"; form_disease := "no";
       form_eggs := "yes"; honey_stores := "low"; form_feeding := "no";
       feeding_amount := ""; general_notes := "" |} in
  ~ In (inspection_hive_id form) (hive_ids (state sample_world))
  /\ handleAddInspection form 1700000003000 1700000003000 sample_world
     = (Normal tt, sample_world).
Proof.
  intros form.
  assert (Hnot : ~ In (inspection_hive_id form) (hive_ids (state sample_world))).
  { vm_compute. intros [H | []]. discriminate H. }
  split; [exact Hnot |].
  apply (add_inspection_unknown_hive_changes_nothing form 1700000003000 1700000003000
           sample_world Hnot).
Defined.

Lemma persisted_copy_after_mutation_witness :
  mutates second_inspection (state sample_world)
  /\ persisted (exec (perform second_inspection) sample_world)
     = Some (store_update second_inspection (state sample_world)).
Proof.
  assert (Hmut : mutates second_inspection (state sample_world)).
  { vm_compute. left. reflexivity. }
  split; [exact Hmut |].
  apply (persisted_copy_after_mutation second_inspection sample_world Hmut).
Defined.

Lemma identifiers_unique_for_distinct_clock_readings_witness :
  let acts := [AddHive "A" "north" 1700000000000;
               AddInspection sample_form 1700000001000 1700000001000;
               second_inspection] in
  hives (state fresh_world) = []
  /\ NoDup (hive_clock acts)
  /\ NoDup (report_clock acts)
  /\ NoDup (hive_ids (state (exec (perform_all acts) fresh_world)))
  /\ NoDup (report_ids (state (exec (perform_all acts) fresh_world))).
Proof.
  intros acts.
  assert (H1 : NoDup (hive_clock acts))
    by (apply (bool_decide_unpack (NoDup (hive_clock acts))); vm_compute; exact I).
  assert (H2 : NoDup (report_clock acts))
    by (apply (bool_decide_unpack (NoDup (report_clock acts))); vm_compute; exact I).
  split; [reflexivity |]. split; [exact H1 |]. split; [exact H2 |].
  apply (identifiers_unique_for_distinct_clock_readings acts fresh_world eq_refl H1 H2).
Defined.

Lemma ai_failure_ends_with_error_message_witness :
  hives (state sample_world) <> []
  /\ advice_fails failing_env sample_world
  /\ image_analysis_fails failing_env sample_file
  /\ ai_advice_result (dom (exec (handleGetAIAdvice failing_env) sample_world))
     = advice_error_message
  /\ image_analysis_result
       (dom (exec (handleAnalyzeImage failing_env [sample_file]) sample_world))
     = image_error_message.
Proof.
  assert (H1 : hives (state sample_world) <> []) by (vm_compute; discriminate).
  assert (H2 : advice_fails failing_env sample_world)
    by (exists (Rejection "503"); reflexivity).
  assert (H3 : image_analysis_fails failing_env sample_file)
    by (exists (Rejection "503"); reflexivity).
  split; [exact H1 |]. split; [exact H2 |]. split; [exact H3 |].
  destruct (ai_failure_ends_with_error_message failing_env sample_world)
    as [Hadvice Himage].
  split.
  - apply (Hadvice H1 H2).
  - apply (Himage sample_file [] H3).
Defined.

Lemma advice_without_hives_only_alerts_witness :
  hives (state fresh_world) = []
  /\ alerts (exec (handleGetAIAdvice failing_env) fresh_world) = [no_data_alert]
  /\ network (exec (handleGetAIAdvice failing_env) fresh_world) = [].
Proof.
  split; [reflexivity |].
  destruct (advice_without_hives_only_alerts failing_env fresh_world eq_refl)
    as (_ & Hnet & Halerts & _).
  split; [exact Halerts | exact Hnet].
Defined.

Lemma unsorted_world_dated : all_dated (state unsorted_world).
Proof.
  repeat constructor; eexists; vm_compute; reflexivity.
Defined.


Lemma render_sorts_stored_reports_in_place_witness :
  all_dated (state unsorted_world)
  /\ hives (state (exec renderHivesView unsorted_world))
     = map sort_reports (hives (state unsorted_world))
  /\ map r_id (concat (map reports (hives (state unsorted_world))))
     = ["report_1700000001000"; "report_1700000002000"]
  /\ map r_id (concat (map reports (hives (state (exec renderHivesView unsorted_world)))))
     = ["report_1700000002000"; "report_1700000001000"].
Proof.
  split; [exact unsorted_world_dated |].
  split; [apply (render_sorts_stored_reports_in_place unsorted_world
                   unsorted_world_dated) |].
  split; vm_compute; reflexivity.
Defined.

(** ** Sample runs *)

Example toISOString_samples :
  toISOString 0 = "1970-01-01T00:00:00.000Z"
  /\ toISOString 951782400000 = "2000-02-29T00:00:00.000Z"
  /\ toISOString 1700000000000 = "2023-11-14T22:13:20.000Z"
  /\ toISOString (-1) = "1969-12-31T23:59:59.999Z"
  /\ toISOString 253402300800000 = "+010000-01-01T00:00:00.000Z".
Proof. repeat split; vm_compute; reflexivity. Qed.

Example getTime_samples :
  getTime "2023-11-14T22:13:20.000Z" = Some 1700000000000
  /\ getTime "2024-02-29T00:00:00.000Z" = Some 1709164800000
  /\ getTime "2023-02-29T00:00:00.000Z" = None
  /\ getTime "yesterday" = None.
Proof. repeat split; vm_compute; reflexivity. Qed.

Example stringify_sample :
  JSON.stringify (JSON.Obj [("id", JSON.Str "a\b"); ("reports", JSON.Arr [])])
  = String "{" (String JSON.dquote ("id" +:+ String JSON.dquote (":" +:+
      String JSON.dquote ("a\\b" +:+ String JSON.dquote ("," +:+
      String JSON.dquote ("reports" +:+ String JSON.dquote ":[]}")))))).
Proof. vm_compute. reflexivity. Qed.

Example parse_sample :
  JSON.parse (" { " +:+ String JSON.dquote ("k" +:+ String JSON.dquote
               (" : [ " +:+ String JSON.dquote ("A\n" +:+ String JSON.dquote " ] } "))))
  = Some (JSON.Obj [("k", JSON.Arr [JSON.Str (String "A" (String "010" ""))])]).
Proof. vm_compute. reflexivity. Qed.

Example second_inspection_orders :
  let w' := exec (perform second_inspection) sample_world in
  map r_id (all_reports (state w')) = ["report_1700000002000"; "report_1700000001000"]
  /\ (all_reports <$> persisted w')
     = Some [new_report sample_form 1700000001000 1700000001000;
             new_report sample_form 1700000002000 1700000002000].
Proof. split; vm_compute; reflexivity. Qed.

(** * Further properties *)

(** ** Text without markup *)

Lemma plain_text_app (a b : string) :
  plain_text a -> plain_text b -> plain_text (a +:+ b).
Proof.
  unfold plain_text. intros Ha Hb. induction a as [| c a IH]; [exact Hb |].
  rewrite app_cons. cbn [plain_textb] in *.
  apply andb_true_iff in Ha as [Hc Ha]. by rewrite Hc, IH.
Qed.

Lemma plain_pretty_N_char (x : N) : markup_char (pretty_N_char x) = false.
Proof.
  destruct x as [| q]; [reflexivity |].
  do 4 (try destruct q as [q | q |]); reflexivity.
Qed.

Lemma plain_pretty_N_go (x : N) (s : string) :
  plain_text s -> plain_text (pretty_N_go x s).
Proof.
  revert s. induction (N.lt_wf_0 x) as [x _ IH]; intros s Hs.
  destruct (decide (0 < x)%N) as [Hpos | Hzero].
  - rewrite pretty_N_go_step by exact Hpos.
    apply IH; [by apply N.div_lt |].
    unfold plain_text. cbn [plain_textb]. by rewrite plain_pretty_N_char.
  - assert (x = 0%N) as -> by lia. by rewrite pretty_N_go_0.
Qed.

Lemma plain_pretty_Z (z : Z) : plain_text (pretty z).
Proof.
  destruct z as [| q | q]; [reflexivity | |].
  - apply (plain_pretty_N_go (N.pos q) ""). reflexivity.
  - change (pretty (Z.neg q)) with ("-" +:+ pretty_N_go (N.pos q) "").
    apply plain_text_app; [reflexivity |]. by apply plain_pretty_N_go.
Qed.

Lemma plain_new_hive (n l : string) (now : Z) :
  plain_text n -> plain_text l -> plain_hive (new_hive n l now).
Proof.
  intros Hn Hl. repeat split; try assumption; [| constructor].
  cbn [new_hive h_id]. apply plain_text_app; [reflexivity | apply plain_pretty_Z].
Qed.

Lemma plain_new_report (form : InspectionForm) (now today : Z) :
  plain_form form -> plain_report (new_report form now today).
Proof. intros (H1 & H2 & H3). by repeat split. Qed.

Lemma plain_sort_reports (h : Hive) : plain_hive h -> plain_hive (sort_reports h).
Proof.
  intros (Hid & Hn & Hl & Hr). repeat split; try assumption.
  cbn [sort_reports set_reports reports]. by rewrite Array_sort_Permutation.
Qed.

Lemma plain_push_report (r : InspectionReport) (h : Hive) :
  plain_report r -> plain_hive h -> plain_hive (push_report r h).
Proof.
  intros Hr (Hid & Hn & Hl & Hrs). repeat split; try assumption.
  cbn [push_report set_reports reports]. apply Forall_app. split; [exact Hrs |].
  by constructor.
Qed.

Lemma plain_sorted_hives (hs : list Hive) :
  Forall plain_hive hs -> Forall plain_hive (map sort_reports hs).
Proof.
  intros H. apply Forall_forall. intros h Hin.
  apply list_elem_of_In, in_map_iff in Hin as (h0 & <- & Hin0).
  apply plain_sort_reports. rewrite Forall_forall in H. by apply H, list_elem_of_In.
Qed.

Lemma render_keeps_plain (w : World) :
  plain_store (state w) -> plain_store (state (exec renderHivesView w)).
Proof.
  unfold plain_store. rewrite render_state. cbn [hives set_hives].
  apply plain_sorted_hives.
Qed.

Lemma perform_keeps_plain (a : Action) (w : World) :
  plain_action a -> plain_store (state w) -> plain_store (state (exec (perform a) w)).
Proof.
  unfold plain_store. intros Ha Hw.
  destruct a as [n l now | form now today]; cbn [perform plain_action] in *.
  - rewrite hives_after_add_hive. apply Forall_app. split.
    + by apply plain_sorted_hives.
    + constructor; [| constructor]. destruct Ha. by apply plain_new_hive.
  - destruct (list_find (fun h => h_id h = inspection_hive_id form) (hives (state w)))
      as [[j hj] |] eqn:Hfind.
    + rewrite (hives_after_add_inspection _ _ _ _ _ _ Hfind).
      apply plain_sorted_hives, Forall_alter; [exact Hw |].
      intros h _ Hh. apply plain_push_report; [by apply plain_new_report | exact Hh].
    + unfold exec. by rewrite (handleAddInspection_missing _ _ _ _ Hfind).
Qed.

Lemma perform_all_keeps_plain (acts : list Action) (w : World) :
  Forall plain_action acts -> plain_store (state w) ->
  plain_store (state (exec (perform_all acts) w)).
Proof.
  intros Hacts. revert w. induction Hacts as [| a acts Ha _ IH]; intros w Hw; [exact Hw |].
  rewrite exec_perform_all_cons. by apply IH, perform_keeps_plain.
Qed.

Lemma store_update_keeps_plain (a : Action) (s : AppState) :
  plain_action a -> plain_store s -> plain_store (store_update a s).
Proof.
  unfold plain_store. intros Ha Hs.
  destruct a as [n l now | form now today]; cbn [store_update plain_action] in *.
  - cbn [hives set_hives]. apply Forall_app. split; [exact Hs |].
    constructor; [| constructor]. destruct Ha. by apply plain_new_hive.
  - destruct (list_find _ _) as [[i h] |]; [| exact Hs].
    cbn [hives set_hives]. apply Forall_alter; [exact Hs |].
    intros h' _ Hh'. apply plain_push_report; [by apply plain_new_report | exact Hh'].
Qed.

(** ** The AI actions, whatever the service answers *)

(** X1.  Requesting an image analysis with no file selected ends normally after one
    alert, the "no file" message: no request is sent, and the page, the store and
    the storage stay as they were. *)
Theorem analyze_without_file_only_alerts (env : Env) (w : World) :
  let w' := exec (handleAnalyzeImage env []) w in
  fst (handleAnalyzeImage env [] w) = Normal tt
  /\ alerts w' = alerts w ++ [no_file_alert]
  /\ network w' = network w
  /\ dom w' = dom w
  /\ state w' = state w
  /\ localStorage w' = localStorage w
  /\ console w' = console w.
Proof. repeat split. Qed.

(** X2.  With at least one hive, the advice action always ends normally with the
    loading indicator hidden.  It sends exactly one request, carrying all the hives
    of the store, while the indicator is shown and the output region is empty; when
    it resumes, the output region receives the response text if the request was
    fulfilled (empty for a response without text) and the generic error message if
    it was rejected, which is also the only case that logs to the console.  The
    store, the storage and the alerts are not touched. *)
Theorem advice_outcome (env : Env) (w : World) :
  hives (state w) <> [] ->
  let w' := exec (handleGetAIAdvice env) w in
  exists waiting,
    network waiting = network w ++ [advice_request w]
    /\ loading_spinner_display (dom waiting) = "flex"
    /\ ai_advice_result (dom waiting) = ""
    /\ state waiting = state w
    /\ localStorage waiting = localStorage w
    /\ alerts waiting = alerts w
    /\ fst (handleGetAIAdvice env w) = Normal tt
    /\ loading_spinner_display (dom w') = "none"
    /\ ai_advice_result (dom w')
       = match generateContent env (advice_request w) with
         | Fulfilled response_text => text_of response_text
         | Rejected _ => advice_error_message
         end
    /\ console w'
       = console (meanwhile env waiting)
         ++ match generateContent env (advice_request w) with
            | Fulfilled _ => []
            | Rejected _ => ["AI Advice Error:"]
            end
    /\ state w' = state (meanwhile env waiting)
    /\ localStorage w' = localStorage (meanwhile env waiting)
    /\ alerts w' = alerts (meanwhile env waiting)
    /\ network w' = network (meanwhile env waiting).
Proof.
  intros Hsome w'. subst w'.
  exists (add_request (advice_request w)
            (set_dom (set_ai_advice_result "")
               (set_dom (set_loading_spinner_display "flex") w))).
  do 6 (split; [reflexivity |]).
  destruct w as [[hs] ls d al co ne]. cbn [state hives] in Hsome.
  destruct hs as [| h hs]; [congruence |].
  unfold exec, handleGetAIAdvice, showLoading, try_catch_finally, request, await, bind,
    gets, modify, console_error, advice_request.
  cbn [state set_dom hives add_request fst snd].
  destruct (generateContent env (AdviceRequest textModel (h :: hs))) as [t | e];
    cbn [fst snd]; rewrite ?app_nil_r; repeat split.
Qed.

(** X3.  With a file selected, the image action always ends normally with the
    loading indicator hidden.  If reading the file is rejected no request is sent
    and the output region holds the generic error message.  Otherwise exactly one
    request is sent, with the file's type and, as payload, the part of the data URL
    after its first comma; the output region then holds the response text, or the
    error message if the request is rejected. *)
Theorem image_analysis_outcome (env : Env) (file : File) (files : list File)
    (w : World) :
  let w' := exec (handleAnalyzeImage env (file :: files)) w in
  let started :=
    set_dom (set_image_analysis_result "")
      (set_dom (set_loading_spinner_display "flex") w) in
  fst (handleAnalyzeImage env (file :: files) w) = Normal tt
  /\ loading_spinner_display (dom w') = "none"
  /\ match readAsDataURL env file with
     | Rejected _ =>
         image_analysis_result (dom w') = image_error_message
         /\ network w' = network (meanwhile env started)
     | Fulfilled url =>
         let req := image_request file (split_comma_1 url) in
         let waiting := add_request req (meanwhile env started) in
         network waiting = network (meanwhile env started) ++ [req]
         /\ network w' = network (meanwhile env waiting)
         /\ image_analysis_result (dom w')
            = match generateContent env req with
              | Fulfilled response_text => text_of response_text
              | Rejected _ => image_error_message
              end
     end
  /\ state w' = state (match readAsDataURL env file with
                       | Rejected _ => meanwhile env started
                       | Fulfilled url =>
                           meanwhile env
                             (add_request (image_request file (split_comma_1 url))
                                (meanwhile env started))
                       end).
Proof.
  intros w' started. subst w' started.
  unfold exec, handleAnalyzeImage, showLoading, try_catch_finally, request, await,
    bind, gets, modify, fileToBase64, image_request, console_error.
  destruct (readAsDataURL env file) as [url | e]; cbn [fst snd].
  - destruct (generateContent env (ImageRequest visionModel (file_type file)
                                     (split_comma_1 url))) as [t | e];
      cbn [fst snd]; repeat split.
  - repeat split.
Qed.

(** ** The base64 payload *)

Lemma up_to_comma_app (payload tail : string) :
  no_comma payload = true ->
  tail = "" \/ (exists tail', tail = String "," tail') ->
  up_to_comma (payload +:+ tail) = payload.
Proof.
  intros Hp Htail. induction payload as [| c payload IH].
  - destruct Htail as [-> | [tail' ->]]; reflexivity.
  - cbn [no_comma] in Hp. apply andb_true_iff in Hp as [Hc Hp].
    rewrite app_cons. cbn [up_to_comma].
    apply negb_true_iff in Hc. rewrite Hc. f_equal. by apply IH.
Qed.

Lemma split_comma_1_none (s : string) : no_comma s = true -> split_comma_1 s = None.
Proof.
  induction s as [| c s IH]; [reflexivity |].
  cbn [no_comma split_comma_1]. intros H. apply andb_true_iff in H as [Hc Hs].
  apply negb_true_iff in Hc. rewrite Hc. by apply IH.
Qed.

(** X4.  [fileToBase64] strips the data-URL prefix: for a result
    [prefix,payload], or [prefix,payload,more], with no comma inside [prefix] and
    [payload], it resolves to [payload].  A result without any comma resolves to
    undefined rather than rejecting, and a rejected read rejects with the same
    error. *)
Theorem fileToBase64_strips_prefix (env : Env) (file : File) :
  (forall prefix payload tail,
      no_comma prefix = true -> no_comma payload = true ->
      tail = "" \/ (exists tail', tail = String "," tail') ->
      readAsDataURL env file = Fulfilled (prefix +:+ "," +:+ payload +:+ tail) ->
      fileToBase64 env file = Fulfilled (Some payload))
  /\ (forall url, no_comma url = true ->
        readAsDataURL env file = Fulfilled url ->
        fileToBase64 env file = Fulfilled None)
  /\ (forall e, readAsDataURL env file = Rejected e ->
        fileToBase64 env file = Rejected e).
Proof.
  unfold fileToBase64. split; [| split].
  - intros prefix payload tail Hprefix Hpayload Htail ->. f_equal.
    induction prefix as [| c prefix IH].
    + change ("" +:+ ?x) with x. rewrite app_single.
      cbn [split_comma_1]. change (Ascii.eqb "," ",") with true. cbv iota.
      f_equal. by apply up_to_comma_app.
    + cbn [no_comma] in Hprefix. apply andb_true_iff in Hprefix as [Hc Hprefix].
      apply negb_true_iff in Hc.
      rewrite app_cons. cbn [split_comma_1]. rewrite Hc. by apply IH.
  - intros url Hurl ->. f_equal. by apply split_comma_1_none.
  - by intros e ->.
Qed.

(** ** What rendering touches *)

Lemma render_eq (w : World) :
  exec renderHivesView w
  = set_dom (set_hives_list
               (match hives (state w) with
                | [] => Placeholder
                | _ :: _ => Cards (map render_card (map sort_reports (hives (state w))))
                end))
      (set_state (set_hives (map sort_reports)) w).
Proof.
  unfold renderHivesView, exec, bind, gets, modify.
  destruct w as [[hs] ls d al co ne]. cbn [state hives].
  destruct hs; reflexivity.
Qed.

Lemma render_shows_store (w : World) : shows_store (exec renderHivesView w).
Proof.
  rewrite render_eq. unfold shows_store.
  cbn [dom state set_dom set_state set_hives_list hives_list set_hives hives].
  destruct (hives (state w)); reflexivity.
Qed.

Lemma render_frame (w : World) :
  let w' := exec renderHivesView w in
  localStorage w' = localStorage w
  /\ alerts w' = alerts w /\ console w' = console w /\ network w' = network w
  /\ ai_advice_result (dom w') = ai_advice_result (dom w)
  /\ image_analysis_result (dom w') = image_analysis_result (dom w)
  /\ loading_spinner_display (dom w') = loading_spinner_display (dom w)
  /\ add_hive_modal_show (dom w') = add_hive_modal_show (dom w)
  /\ add_inspection_modal_show (dom w') = add_inspection_modal_show (dom w)
  /\ feeding_amount_group_display (dom w') = feeding_amount_group_display (dom w)
  /\ Forall2 same_hive_up_to_order (hives (state w)) (hives (state w')).
Proof.
  intros w'. subst w'. rewrite render_eq.
  cbn [localStorage alerts console network dom state set_dom set_state set_hives_list
         ai_advice_result image_analysis_result loading_spinner_display
         add_hive_modal_show add_inspection_modal_show feeding_amount_group_display
         hives_list set_hives hives].
  do 10 (split; [reflexivity |]). apply Forall2_sort_reports.
Qed.

(** X6.  Rendering twice in a row gives what rendering once gives: for a store
    whose reports carry valid dates, a second render leaves the whole world (the
    store and the visible hive list included) exactly as the first one left it. *)
Theorem render_twice_is_render_once (w : World) :
  all_dated (state w) ->
  exec renderHivesView (exec renderHivesView w) = exec renderHivesView w.
Proof.
  intros Hdated.
  assert (Hfixed : map sort_reports (map sort_reports (hives (state w)))
                   = map sort_reports (hives (state w))).
  { apply sorted_hives_fixed;
      [by apply sorted_hives_dated | by apply sorted_hives_newest_first]. }
  rewrite (render_eq (exec renderHivesView w)).
  rewrite (render_eq w).
  destruct w as [[hs] ls d al co ne]. cbn [state hives] in *.
  unfold set_dom, set_state, set_hives, set_hives_list.
  cbn [state hives dom localStorage alerts console network hives_list ai_advice_result
         image_analysis_result loading_spinner_display add_hive_modal_show
         add_inspection_modal_show feeding_amount_group_display].
  rewrite Hfixed. destruct hs; reflexivity.
Qed.

(** ** What the actions keep *)

Lemma In_sort_reports (r : InspectionReport) (h : Hive) :
  In r (reports h) -> In r (reports (sort_reports h)).
Proof.
  intros Hin. cbn [sort_reports set_reports reports].
  apply list_elem_of_In. rewrite Array_sort_Permutation. by apply list_elem_of_In.
Qed.

Lemma perform_keeps_hive (a : Action) (w : World) (i : nat) (h : Hive) :
  hives (state w) !! i = Some h ->
  exists h', hives (state (exec (perform a) w)) !! i = Some h'
    /\ h_id h' = h_id h /\ name h' = name h /\ location h' = location h
    /\ forall r, In r (reports h) -> In r (reports h').
Proof.
  intros Hlook. destruct a as [n l now | form now today]; cbn [perform].
  - exists (sort_reports h). rewrite hives_after_add_hive.
    rewrite lookup_app_l by (rewrite length_map; by eapply lookup_lt_Some).
    rewrite lookup_map, Hlook. repeat split. intros r. apply In_sort_reports.
  - destruct (list_find (fun h => h_id h = inspection_hive_id form) (hives (state w)))
      as [[j hj] |] eqn:Hfind.
    + rewrite (hives_after_add_inspection _ _ _ _ _ _ Hfind).
      destruct (decide (j = i)) as [-> | Hne].
      * exists (sort_reports (push_report (new_report form now today) h)).
        rewrite lookup_map, list_lookup_alter_eq, Hlook. repeat split.
        intros r Hr. apply In_sort_reports.
        cbn [push_report set_reports reports]. apply in_or_app. by left.
      * exists (sort_reports h).
        rewrite lookup_map, list_lookup_alter_ne, Hlook by exact Hne.
        repeat split. intros r. apply In_sort_reports.
    + exists h. unfold exec. rewrite (handleAddInspection_missing _ _ _ _ Hfind).
      cbn [snd]. repeat split; auto.
Qed.

(** X7.  No sequence of add-hive and add-inspection actions deletes, moves or
    renames anything: a hive of the store is still at its position afterwards, with
    its identifier, name and location, and still holds every report it held. *)
Theorem actions_never_delete (acts : list Action) (w : World) (i : nat) (h : Hive) :
  hives (state w) !! i = Some h ->
  exists h', hives (state (exec (perform_all acts) w)) !! i = Some h'
    /\ h_id h' = h_id h /\ name h' = name h /\ location h' = location h
    /\ forall r, In r (reports h) -> In r (reports h').
Proof.
  revert w h. induction acts as [| a acts IH]; intros w h Hlook.
  - exists h. repeat split; auto.
  - rewrite exec_perform_all_cons.
    destruct (perform_keeps_hive a w i h Hlook) as (h1 & Hlook1 & Hid1 & Hn1 & Hl1 & Hr1).
    destruct (IH _ _ Hlook1) as (h2 & Hlook2 & Hid2 & Hn2 & Hl2 & Hr2).
    exists h2. split; [exact Hlook2 |].
    repeat split; try congruence. auto.
Qed.

Lemma mutating_action_shows_store (a : Action) (w : World) :
  mutates a (state w) -> shows_store (exec (perform a) w).
Proof.
  destruct a as [n l now | form now today]; cbn [perform mutates].
  - intros _. unfold exec. rewrite handleAddHive_eq. cbn [snd].
    change (exec (closeModal AddHiveModal) ?x)
      with (set_dom (set_add_hive_modal_show false) x).
    unfold shows_store. cbn [dom set_dom hives_list set_add_hive_modal_show state].
    apply render_shows_store.
  - intros Hin. destruct (find_hive_present _ _ Hin) as (j & hj & Hfind).
    unfold exec. rewrite (handleAddInspection_found _ _ _ _ _ _ Hfind). cbn [snd].
    change (exec (closeModal AddInspectionModal) ?x)
      with (set_dom (set_add_inspection_modal_show false) x).
    unfold shows_store.
    cbn [dom set_dom hives_list set_add_inspection_modal_show
           set_feeding_amount_group_display state].
    apply render_shows_store.
Qed.

Lemma perform_shows_store (a : Action) (w : World) :
  shows_store w -> shows_store (exec (perform a) w).
Proof.
  intros Hshows. destruct a as [n l now | form now today].
  - by apply mutating_action_shows_store.
  - destruct (list_find (fun h => h_id h = inspection_hive_id form) (hives (state w)))
      as [[j hj] |] eqn:Hfind.
    + apply mutating_action_shows_store. cbn [mutates]. unfold hive_ids.
      apply in_map_iff. exists hj. apply list_find_Some in Hfind as (Hl & Hi & _).
      split; [exact Hi | by eapply list_elem_of_In, list_elem_of_lookup_2].
    + cbn [perform]. unfold exec. by rewrite (handleAddInspection_missing _ _ _ _ Hfind).
Qed.

Lemma perform_all_shows_store (acts : list Action) (w : World) :
  shows_store w -> shows_store (exec (perform_all acts) w).
Proof.
  revert w. induction acts as [| a acts IH]; intros w Hshows; [exact Hshows |].
  rewrite exec_perform_all_cons. by apply IH, perform_shows_store.
Qed.

(** X8.  The hive list follows the store.  For a store of plain text whose list
    shows it (as the list does after any render), and actions that submit plain
    text, the list still shows the store after every sequence of add-hive and
    add-inspection actions: one card per hive, in the order of the hives, carrying
    the hive's identifier, name and location and one entry per report of the hive,
    in the stored order.  The store is again of plain text, the identifiers the
    actions make included. *)
Theorem hive_list_follows_store (acts : list Action) (w : World) :
  plain_store (state w) ->
  Forall plain_action acts ->
  shows_store w ->
  let w' := exec (perform_all acts) w in
  plain_store (state w')
  /\ shows_store w'
  /\ length (cards_of (hives_list (dom w'))) = length (hives (state w'))
  /\ forall i h, hives (state w') !! i = Some h ->
       exists card, cards_of (hives_list (dom w')) !! i = Some card
         /\ card_hive_id card = h_id h /\ card_name card = name h
         /\ card_location card = location h
         /\ inspections card = map render_report (reports h).
Proof.
  intros Hplain Hacts Hshows w'.
  split; [by apply perform_all_keeps_plain |].
  pose proof (perform_all_shows_store acts w Hshows) as Hshows'. fold w' in Hshows'.
  split; [exact Hshows' |]. unfold shows_store in Hshows'. rewrite Hshows'.
  split; [apply length_map |].
  intros i h Hlook. exists (render_card h).
  rewrite lookup_map, Hlook. repeat split.
Qed.

(** X9.  The button of a card never misses its hive.  For a store of plain text
    whose hive list shows it, the buttons of the list are those of its cards, and
    the identifier a card's "add inspection" button carries is still in the store
    after any further actions that submit plain text; so an inspection of plain
    text submitted with it is added to a hive (the first one with that identifier)
    instead of being dropped, and the store stays of plain text. *)
Theorem inspection_from_a_card_finds_its_hive (acts : list Action) (card : HiveCard)
    (form : InspectionForm) (now today : Z) (w : World) :
  plain_store (state w) ->
  Forall plain_action acts ->
  plain_form form ->
  shows_store w ->
  In card (cards_of (hives_list (dom w))) ->
  inspection_hive_id form = card_hive_id card ->
  let w1 := exec (perform_all acts) w in
  let w2 := exec (handleAddInspection form now today) w1 in
  mutates (AddInspection form now today) (state w1)
  /\ plain_store (state w2)
  /\ exists i h h',
       list_find (fun h => h_id h = inspection_hive_id form) (hives (state w1))
       = Some (i, h)
       /\ hives (state w2) !! i = Some h'
       /\ h_id h' = card_hive_id card
       /\ In (new_report form now today) (reports h').
Proof.
  intros Hplain Hacts Hform Hshows Hcard Hid w1 w2.
  assert (Hplain2 : plain_store (state w2)).
  { apply (perform_keeps_plain (AddInspection form now today) w1 Hform).
    by apply perform_all_keeps_plain. }
  assert (Hin : In (inspection_hive_id form) (hive_ids (state w1))).
  { subst w1. rewrite hive_ids_after_all. apply in_or_app. left.
    unfold shows_store in Hshows. rewrite Hshows in Hcard.
    apply in_map_iff in Hcard as (h & <- & Hh).
    rewrite Hid. unfold hive_ids. apply in_map_iff. exists h. split; [reflexivity | exact Hh]. }
  split; [exact Hin |]. split; [exact Hplain2 |].
  destruct (find_hive_present _ _ Hin) as (i & h & Hfind).
  exists i, h, (sort_reports (push_report (new_report form now today) h)).
  split; [exact Hfind |].
  apply list_find_Some in Hfind as Hspec. destruct Hspec as (Hlook & Hh & _).
  split.
  { subst w2. rewrite (hives_after_add_inspection _ _ _ _ _ _ Hfind).
    by rewrite lookup_map, list_lookup_alter_eq, Hlook. }
  split; [cbn; congruence |].
  apply In_sort_reports. cbn [push_report set_reports reports].
  apply in_or_app. right. by left.
Qed.



(** ** The page: computations *)

Lemma prun_normal {A} (m : P A) (a : A) (p : Page) :
  fst (m p) = Normal a -> m p = (Normal a, pexec m p).
Proof. unfold pexec. destruct (m p) as [c p']. cbn. by intros ->. Qed.

Lemma pbind_normal {A B} (m : P A) (k : A -> P B) (a : A) (p : Page) :
  fst (m p) = Normal a -> pbind m k p = k a (pexec m p).
Proof. intros H. unfold pbind. by rewrite (prun_normal m a p H). Qed.

Lemma lift_normal {A} (m : M A) (a : A) (p : Page) :
  fst (m (world p)) = Normal a ->
  lift m p = (Normal a, set_world (fun _ => exec m (world p)) p).
Proof.
  intros H. unfold lift. rewrite (run_normal m a (world p) H). reflexivity.
Qed.

Lemma attach_normal (p : Page) : fst (attachHiveListListeners p) = Normal tt.
Proof.
  unfold attachHiveListListeners, pbind, pgets, pmodify.
  destruct (hives (state (world p))); reflexivity.
Qed.

Lemma attach_world (p : Page) : world (pexec attachHiveListListeners p) = world p.
Proof.
  unfold attachHiveListListeners, pexec, pbind, pgets, pmodify.
  destruct (hives (state (world p))); reflexivity.
Qed.

Lemma renderHivesViewOnPage_normal (p : Page) :
  fst (renderHivesViewOnPage p) = Normal tt.
Proof.
  unfold renderHivesViewOnPage.
  rewrite (pbind_normal _ _ tt)
    by (rewrite (lift_normal _ tt) by apply render_normal; reflexivity).
  apply attach_normal.
Qed.

Lemma renderHivesViewOnPage_world (p : Page) :
  world (pexec renderHivesViewOnPage p) = exec renderHivesView (world p).
Proof.
  unfold pexec at 1, renderHivesViewOnPage.
  rewrite (pbind_normal _ _ tt)
    by (rewrite (lift_normal _ tt) by apply render_normal; reflexivity).
  fold (pexec attachHiveListListeners
          (pexec (lift renderHivesView) p)).
  rewrite attach_world. unfold pexec.
  rewrite (lift_normal _ tt) by apply render_normal. reflexivity.
Qed.

(** ** What rendering touches *)

Lemma attach_frame (p : Page) :
  let p' := pexec attachHiveListListeners p in
  views p' = views p /\ nav_buttons p' = nav_buttons p
  /\ header_title p' = header_title p /\ hive_select p' = hive_select p
  /\ upload_image_btn_disabled p' = upload_image_btn_disabled p
  /\ analyze_image_btn_disabled p' = analyze_image_btn_disabled p
  /\ image_preview_src p' = image_preview_src p
  /\ image_preview_display p' = image_preview_display p
  /\ inspection_hive_id_value p' = inspection_hive_id_value p
  /\ faq_list p'
     = match hives (state (world p)) with
       | [] => faq_list p
       | _ :: _ => map faq_add_click_listener (faq_list p)
       end.
Proof.
  unfold attachHiveListListeners, pexec, pbind, pgets, pmodify.
  destruct (hives (state (world p))); repeat split.
Qed.

Lemma faq_listeners_added (es : list FaqEntry) :
  Forall2 (fun e e' =>
             question e' = question e /\ answer e' = answer e
             /\ acc_active (faq_accordion e') = acc_active (faq_accordion e)
             /\ maxHeight (faq_accordion e') = maxHeight (faq_accordion e)
             /\ click_listeners (faq_accordion e') = S (click_listeners (faq_accordion e)))
    es (map faq_add_click_listener es).
Proof. induction es; constructor; [by repeat split | assumption]. Qed.

Lemma faq_listeners_kept (es : list FaqEntry) :
  Forall2 (fun e e' =>
             question e' = question e /\ answer e' = answer e
             /\ acc_active (faq_accordion e') = acc_active (faq_accordion e)
             /\ maxHeight (faq_accordion e') = maxHeight (faq_accordion e)
             /\ click_listeners (faq_accordion e') = click_listeners (faq_accordion e))
    es es.
Proof. induction es; constructor; [by repeat split | assumption]. Qed.

(** X5.  What a render of the hive list writes, for a store of plain text: the
    hive list, the order of the stored reports, and click listeners.  It ends
    normally; the storage, the alerts, the console, the requests, the two output
    regions, the loading indicator, the dialogs and the feeding-amount field are as
    before, and so are the views, the navigation, the header, the image panel and
    the hidden field; each hive keeps its identifier, name, location and set of
    reports, and the store stays of plain text.  The FAQ is not left alone: its
    entries keep their texts and their open or closed state, but with a hive in
    the store each of their headers receives one more click listener; with no
    hives they keep the listeners they have. *)
Theorem renderHivesView_writes_list_order_and_listeners (p : Page) :
  plain_store (state (world p)) ->
  let p' := pexec renderHivesViewOnPage p in
  fst (renderHivesViewOnPage p) = Normal tt
  /\ localStorage (world p') = localStorage (world p)
  /\ alerts (world p') = alerts (world p)
  /\ console (world p') = console (world p)
  /\ network (world p') = network (world p)
  /\ ai_advice_result (dom (world p')) = ai_advice_result (dom (world p))
  /\ image_analysis_result (dom (world p')) = image_analysis_result (dom (world p))
  /\ loading_spinner_display (dom (world p')) = loading_spinner_display (dom (world p))
  /\ add_hive_modal_show (dom (world p')) = add_hive_modal_show (dom (world p))
  /\ add_inspection_modal_show (dom (world p'))
     = add_inspection_modal_show (dom (world p))
  /\ feeding_amount_group_display (dom (world p'))
     = feeding_amount_group_display (dom (world p))
  /\ Forall2 same_hive_up_to_order (hives (state (world p))) (hives (state (world p')))
  /\ plain_store (state (world p'))
  /\ views p' = views p /\ nav_buttons p' = nav_buttons p
  /\ header_title p' = header_title p /\ hive_select p' = hive_select p
  /\ upload_image_btn_disabled p' = upload_image_btn_disabled p
  /\ analyze_image_btn_disabled p' = analyze_image_btn_disabled p
  /\ image_preview_src p' = image_preview_src p
  /\ image_preview_display p' = image_preview_display p
  /\ inspection_hive_id_value p' = inspection_hive_id_value p
  /\ Forall2 (fun e e' =>
                question e' = question e /\ answer e' = answer e
                /\ acc_active (faq_accordion e') = acc_active (faq_accordion e)
                /\ maxHeight (faq_accordion e') = maxHeight (faq_accordion e)
                /\ click_listeners (faq_accordion e')
                   = match hives (state (world p)) with
                     | [] => click_listeners (faq_accordion e)
                     | _ :: _ => S (click_listeners (faq_accordion e))
                     end)
       (faq_list p) (faq_list p').
Proof.
  intros Hplain p'.
  split; [apply renderHivesViewOnPage_normal |].
  pose proof (renderHivesViewOnPage_world p) as Hworld. fold p' in Hworld.
  rewrite Hworld.
  destruct (render_frame (world p))
    as (H1 & H2 & H3 & H4 & H5 & H6 & H7 & H8 & H9 & H10 & H11).
  do 11 (split; [assumption |]).
  split; [by apply render_keeps_plain |].
  assert (Hp' : p' = pexec attachHiveListListeners
                       (set_world (fun _ => exec renderHivesView (world p)) p)).
  { subst p'. unfold pexec at 1, renderHivesViewOnPage.
    rewrite (pbind_normal _ _ tt)
      by (rewrite (lift_normal _ tt) by apply render_normal; reflexivity).
    unfold pexec at 1. rewrite (lift_normal _ tt) by apply render_normal. reflexivity. }
  destruct (attach_frame (set_world (fun _ => exec renderHivesView (world p)) p))
    as (A1 & A2 & A3 & A4 & A5 & A6 & A7 & A8 & A9 & A10).
  rewrite <- Hp' in A1, A2, A3, A4, A5, A6, A7, A8, A9, A10.
  do 9 (split; [assumption |]).
  rewrite A10. cbn [world set_world faq_list]. rewrite render_state.
  cbn [hives set_hives].
  destruct (hives (state (world p))); cbn [map];
    [apply faq_listeners_kept | apply faq_listeners_added].
Qed.

(** ** Navigation *)

Lemma existsb_deactivate (viewId : string) (vs : list ViewElement) :
  existsb (fun v => String.eqb (view_id v) viewId) (map deactivate_view vs)
  = existsb (fun v => String.eqb (view_id v) viewId) vs.
Proof. induction vs as [| v vs IH]; [reflexivity |]. cbn. by rewrite IH. Qed.

Lemma existsb_view (viewId : string) (vs : list ViewElement) :
  existsb (fun v => String.eqb (view_id v) viewId) vs = true
  <-> In viewId (map view_id vs).
Proof.
  rewrite existsb_exists, in_map_iff. split.
  - intros (v & Hv & Heq). apply String.eqb_eq in Heq. eauto.
  - intros (v & Heq & Hv). exists v. split; [exact Hv | by apply String.eqb_eq].
Qed.

Lemma navigateTo_view (viewId : string) (p : Page) :
  has_view viewId p ->
  navigateTo viewId p = refreshView viewId (entered viewId p).
Proof.
  intros Hview. apply existsb_view in Hview.
  unfold navigateTo, pbind, pmodify, pgets.
  cbn [fst snd views set_views other_ids nav_buttons set_nav_buttons].
  rewrite existsb_deactivate, Hview. reflexivity.
Qed.

Lemma navigateTo_missing (viewId : string) (p : Page) :
  ~ has_view viewId p -> ~ In viewId (other_ids p) ->
  navigateTo viewId p
  = (Throw (element_not_found viewId), set_views (map deactivate_view) p).
Proof.
  intros Hview Hother.
  assert (H1 : existsb (fun v => String.eqb (view_id v) viewId) (views p) = false).
  { apply not_true_is_false. intros H. by apply Hview, existsb_view. }
  assert (H2 : existsb (String.eqb viewId) (other_ids p) = false).
  { apply not_true_is_false. intros H. apply Hother.
    apply existsb_exists in H as (x & Hx & Heq). apply String.eqb_eq in Heq. by subst. }
  unfold navigateTo, pbind, pmodify, pgets.
  cbn [fst snd views set_views other_ids nav_buttons set_nav_buttons].
  rewrite existsb_deactivate, H1, H2. reflexivity.
Qed.

Lemma activate_view_ids (viewId : string) (vs : list ViewElement) :
  map view_id (activate_view viewId vs) = map view_id vs.
Proof.
  induction vs as [| v vs IH]; [reflexivity |]. cbn [activate_view].
  destruct (String.eqb (view_id v) viewId); cbn [map]; [reflexivity | by rewrite IH].
Qed.

Lemma deactivate_view_ids (vs : list ViewElement) :
  map view_id (map deactivate_view vs) = map view_id vs.
Proof. induction vs as [| v vs IH]; [reflexivity |]. cbn. by rewrite IH. Qed.

Lemma no_active_after_deactivate (vs : list ViewElement) :
  List.filter view_active (map deactivate_view vs) = [].
Proof. induction vs as [| v vs IH]; [reflexivity |]. cbn. exact IH. Qed.

Lemma one_active_view (viewId : string) (vs : list ViewElement) :
  In viewId (map view_id vs) ->
  map view_id (List.filter view_active (activate_view viewId (map deactivate_view vs)))
  = [viewId].
Proof.
  induction vs as [| v vs IH]; [intros [] |].
  cbn [map activate_view deactivate_view view_id].
  destruct (String.eqb (view_id v) viewId) eqn:Heq.
  - intros _. apply String.eqb_eq in Heq.
    cbn [List.filter view_active map view_id]. rewrite no_active_after_deactivate.
    by rewrite Heq.
  - intros [Hhere | Hin].
    + apply String.eqb_neq in Heq. congruence.
    + cbn [List.filter view_active]. by apply IH.
Qed.

Lemma no_active_button_after_deactivate (bs : list NavButton) :
  List.filter nav_active (map deactivate_button bs) = [].
Proof. induction bs as [| b bs IH]; [reflexivity |]. cbn. exact IH. Qed.

Lemma active_button_after (viewId : string) (bs : list NavButton) :
  map data_view (List.filter nav_active (activate_button viewId (map deactivate_button bs)))
  = if existsb (fun b => String.eqb (data_view b) viewId) bs then [viewId] else [].
Proof.
  induction bs as [| b bs IH]; [reflexivity |].
  cbn [map activate_button deactivate_button data_view existsb].
  destruct (String.eqb (data_view b) viewId) eqn:Heq.
  - apply String.eqb_eq in Heq. cbn [orb List.filter nav_active map data_view].
    rewrite no_active_button_after_deactivate. by rewrite Heq.
  - cbn [orb List.filter nav_active]. exact IH.
Qed.

Lemma find_button_deactivate (viewId : string) (bs : list NavButton) :
  find_button viewId (map deactivate_button bs) ≫= nav_label
  = find_button viewId bs ≫= nav_label.
Proof.
  unfold find_button. induction bs as [| b bs IH]; [reflexivity |].
  cbn [map List.find deactivate_button data_view].
  destruct (String.eqb (data_view b) viewId); [reflexivity | exact IH].
Qed.

(** The render functions leave the views, the buttons and the header alone. *)
Lemma refreshView_frame (viewId : string) (p : Page) :
  fst (refreshView viewId p) = Normal tt
  /\ views (pexec (refreshView viewId) p) = views p
  /\ nav_buttons (pexec (refreshView viewId) p) = nav_buttons p
  /\ header_title (pexec (refreshView viewId) p) = header_title p
  /\ world (pexec (refreshView viewId) p)
     = if String.eqb viewId "hives-view" then exec renderHivesView (world p)
       else world p.
Proof.
  unfold refreshView.
  destruct (String.eqb viewId "hives-view").
  - split; [apply renderHivesViewOnPage_normal |].
    split; [| split; [| split; [| apply renderHivesViewOnPage_world]]].
    all: unfold pexec, renderHivesViewOnPage, attachHiveListListeners, lift, pbind,
           pgets, pmodify.
    all: destruct (renderHivesView (world p)) as [[[] | e] w']; cbn [fst snd];
      try reflexivity.
    all: cbn [world set_world]; destruct (hives (state w')); reflexivity.
  - destruct (String.eqb viewId "ai-view"); [by repeat split |].
    destruct (String.eqb viewId "image-view").
    + unfold pexec, renderImageView, pbind, pgets, pmodify.
      destruct (hives (state (world p))); by repeat split.
    + destruct (String.eqb viewId "faq-view"); by repeat split.
Qed.

(** X11.  Entering a view the page has makes it the one active view: after
    [navigateTo] no other view carries [active], whatever was active before and
    even if several were; the first navigation button for the view, if there is
    one, is the only active button, and the header shows that button's label, or
    the default title when the button or its label is missing or empty.  The store
    is touched only when the view entered is the hive list, and then only by its
    render; the storage, never. *)
Theorem navigateTo_activates_one_view (viewId : string) (p : Page) :
  has_view viewId p ->
  let p' := pexec (navigateTo viewId) p in
  fst (navigateTo viewId p) = Normal tt
  /\ active_views p' = [viewId]
  /\ map view_id (views p') = map view_id (views p)
  /\ active_buttons p'
     = (if existsb (fun b => String.eqb (data_view b) viewId) (nav_buttons p)
        then [viewId] else [])
  /\ header_title p'
     = default default_title (truthy (find_button viewId (nav_buttons p) ≫= nav_label))
  /\ world p'
     = (if String.eqb viewId "hives-view" then exec renderHivesView (world p)
        else world p)
  /\ localStorage (world p') = localStorage (world p).
Proof.
  intros Hview p'. subst p'. unfold pexec, active_views, active_buttons.
  rewrite (navigateTo_view viewId p Hview).
  destruct (refreshView_frame viewId (entered viewId p))
    as (Hnormal & Hviews & Hbuttons & Htitle & Hworld).
  unfold pexec in *. rewrite Hviews, Hbuttons, Htitle, Hworld.
  unfold entered.
  cbn [views nav_buttons header_title world set_header_title set_nav_buttons set_views].
  split; [exact Hnormal |].
  split; [by apply one_active_view |].
  split; [by rewrite activate_view_ids, deactivate_view_ids |].
  split; [apply active_button_after |].
  split; [by rewrite find_button_deactivate |].
  split; [reflexivity |].
  destruct (String.eqb viewId "hives-view"); [apply render_storage | reflexivity].
Qed.

(** X12.  Entering a view the page does not have fails after the views have been
    hidden: [navigateTo] throws the "not found" error of [getElement], no view is
    active any more, and the buttons, the header, the store and the rest of the
    page are as before. *)
Theorem navigateTo_missing_view_hides_all (viewId : string) (p : Page) :
  ~ has_view viewId p ->
  ~ In viewId (other_ids p) ->
  let p' := pexec (navigateTo viewId) p in
  fst (navigateTo viewId p) = Throw (element_not_found viewId)
  /\ active_views p' = []
  /\ nav_buttons p' = nav_buttons p
  /\ header_title p' = header_title p
  /\ world p' = world p
  /\ hive_accordions p' = hive_accordions p
  /\ faq_list p' = faq_list p.
Proof.
  intros Hview Hother p'. subst p'. unfold pexec, active_views.
  rewrite (navigateTo_missing viewId p Hview Hother). cbn [fst snd views set_views].
  rewrite no_active_after_deactivate. repeat split.
Qed.

(** ** Initialization *)

Lemma initializeApp_loaded (p : Page) (w1 : World) :
  loadStateFromLocalStorage (world p) = (Normal tt, w1) ->
  has_view "hives-view" p ->
  fst (initializeApp p) = Normal tt
  /\ world (pexec initializeApp p) = exec renderHivesView w1
  /\ active_views (pexec initializeApp p) = ["hives-view"].
Proof.
  intros Hload Hview. unfold pexec, initializeApp.
  rewrite (pbind_normal _ _ tt) by (unfold lift; by rewrite Hload).
  set (p1 := pexec (lift loadStateFromLocalStorage) p).
  assert (Hp1 : world p1 = w1 /\ views p1 = views p).
  { subst p1. unfold pexec, lift. by rewrite Hload. }
  destruct Hp1 as [Hw1 Hv1].
  assert (Hview1 : has_view "hives-view" p1) by (unfold has_view; by rewrite Hv1).
  pose proof (navigateTo_view "hives-view" p1 Hview1) as Hnav.
  destruct (refreshView_frame "hives-view" (entered "hives-view" p1))
    as (Hnormal & Hviews & _ & _ & Hworld).
  rewrite Hnav. unfold pexec in *. unfold active_views.
  rewrite Hviews, Hworld. cbn [String.eqb Ascii.eqb Bool.eqb].
  split; [exact Hnormal |]. split.
  - unfold entered. cbn [world set_header_title set_nav_buttons set_views]. by rewrite Hw1.
  - unfold entered. cbn [views set_header_title set_nav_buttons set_views].
    by apply one_active_view.
Qed.

(** X13.  Reloading restores what the user saw: when a page that has the hive view
    starts with the blob an add-hive action, or an add-inspection action whose hive
    was found, left in storage, [initializeApp] ends normally with the hive view
    as the one active view, and with exactly the store and the hive list that the
    action had left (the reports of each hive in the same order). *)
Theorem reload_restores_store_and_hive_list (a : Action) (w : World) (p : Page) :
  mutates a (state w) ->
  localStorage (world p) = localStorage (exec (perform a) w) ->
  has_view "hives-view" p ->
  let p' := pexec initializeApp p in
  fst (initializeApp p) = Normal tt
  /\ state (world p') = state (exec (perform a) w)
  /\ hives_list (dom (world p')) = hives_list (dom (exec (perform a) w))
  /\ localStorage (world p') = localStorage (world p)
  /\ active_views p' = ["hives-view"].
Proof.
  intros Hmut Hstore Hview p'.
  destruct (exec_perform_mutating a w Hmut) as [Hsaved Hhives].
  set (written := store_update a (state w)) in *.
  assert (Hload : loadStateFromLocalStorage (world p)
                  = (Normal tt, set_state (fun _ => written) (world p))).
  { eapply loadState_parsed.
    - rewrite Hstore, Hsaved. unfold exec. rewrite saveState_eq.
      cbn [snd localStorage set_localStorage]. apply lookup_insert_eq.
    - apply stringify_not_empty.
    - apply JSONFacts.parse_stringify.
    - apply state_of_to_json. }
  destruct (initializeApp_loaded p _ Hload Hview) as (Hnormal & Hworld & Hactive).
  fold p' in Hworld, Hactive.
  pose proof (mutating_action_shows_store a w Hmut) as Hshows.
  assert (Hnonempty : hives written <> []).
  { subst written. destruct a as [n l now | form now today]; cbn [store_update].
    - cbn [hives set_hives]. by destruct (hives (state w)).
    - cbn [mutates] in Hmut. destruct (find_hive_present _ _ Hmut) as (i & h & Hfind).
      rewrite Hfind. cbn [hives set_hives].
      apply list_find_Some in Hfind as (Hlook & _).
      intros Hnil. apply (f_equal length) in Hnil. rewrite length_alter in Hnil.
      apply lookup_lt_Some in Hlook. cbn in Hnil. lia. }
  split; [exact Hnormal |].
  rewrite Hworld, render_eq.
  cbn [state dom localStorage set_dom set_state set_hives_list hives_list set_hives hives].
  split.
  { destruct (state (exec (perform a) w)) as [hs] eqn:Hst. cbn [hives] in Hhives.
    unfold set_hives. cbn [hives]. by rewrite Hhives. }
  split; [| split; [reflexivity | exact Hactive]].
  destruct (hives written) as [| h hs] eqn:Hw; [congruence |].
  unfold shows_store in Hshows. rewrite Hhives in Hshows.
  destruct (hives_list (dom (exec (perform a) w))) as [| cards] eqn:Hlist.
  - cbn [cards_of] in Hshows. discriminate Hshows.
  - cbn [cards_of] in Hshows. by rewrite Hshows.
Qed.

(** X14.  Starting without a saved state: when the storage holds nothing under the
    key, or an empty string, [initializeApp] keeps the state the page has, renders
    it (the placeholder when there are no hives) and makes the hive view the one
    active view; the storage is not written. *)
Theorem initializeApp_without_blob (p : Page) :
  localStorage (world p) !! storage_key = None
  \/ localStorage (world p) !! storage_key = Some "" ->
  has_view "hives-view" p ->
  let p' := pexec initializeApp p in
  fst (initializeApp p) = Normal tt
  /\ world p' = exec renderHivesView (world p)
  /\ (hives (state (world p)) = [] -> hives_list (dom (world p')) = Placeholder)
  /\ localStorage (world p') = localStorage (world p)
  /\ active_views p' = ["hives-view"].
Proof.
  intros Hblob Hview p'.
  assert (Hload : loadStateFromLocalStorage (world p) = (Normal tt, world p)).
  { unfold loadStateFromLocalStorage, bind, gets. destruct Hblob as [-> | ->]; reflexivity. }
  destruct (initializeApp_loaded p _ Hload Hview) as (Hnormal & Hworld & Hactive).
  fold p' in Hworld, Hactive.
  split; [exact Hnormal |]. split; [exact Hworld |].
  split; [| split; [rewrite Hworld; apply render_storage | exact Hactive]].
  intros Hnone. rewrite Hworld, render_eq, Hnone. reflexivity.
Qed.

(** ** The image view *)

(** X15.  The hive selector of the image view, for a store of plain text: with
    hives in the store it holds one option per hive, in the order of the hives,
    each enabled, with the hive's identifier as value and its name as text, and
    the upload button is enabled; with no hives it holds one disabled option
    without a value, the request to add a hive first, and the upload button is
    disabled.  The world, the analyze button and the views are as before. *)
Theorem renderImageView_lists_hives (p : Page) :
  plain_store (state (world p)) ->
  let p' := pexec renderImageView p in
  let hs := hives (state (world p)) in
  fst (renderImageView p) = Normal tt
  /\ (hs <> [] ->
      map option_value (hive_select p') = map (fun h => Some (h_id h)) hs
      /\ map option_text (hive_select p') = map name hs
      /\ Forall (fun o => option_disabled o = false) (hive_select p')
      /\ upload_image_btn_disabled p' = false)
  /\ (hs = [] ->
      hive_select p'
      = [ {| option_value := None;
             option_text := "Zəhmət olmasa, əvvəlcə pətək əlavə edin";
             option_disabled := true |} ]
      /\ upload_image_btn_disabled p' = true)
  /\ world p' = world p
  /\ analyze_image_btn_disabled p' = analyze_image_btn_disabled p
  /\ views p' = views p.
Proof.
  intros _ p' hs. subst p' hs.
  unfold renderImageView, pexec, pbind, pgets, pmodify.
  destruct (hives (state (world p))) as [| h hs] eqn:Hhs; cbn [fst snd].
  - repeat split; congruence.
  - split; [reflexivity |]. split; [| repeat split; discriminate].
    intros _. cbn [hive_select set_hive_select set_upload_image_btn_disabled
                     upload_image_btn_disabled].
    rewrite !map_map. cbn [hive_option option_value option_text].
    repeat split. apply Forall_forall. intros o Ho.
    apply list_elem_of_In, in_map_iff in Ho as (h0 & <- & _). reflexivity.
Qed.

(** X16.  Choosing an image: when a file is chosen and read, the preview shows the
    data URL read and the analyze button is enabled; when no file is chosen, or
    the read fails, nothing on the page changes (the analyze button stays as it
    was).  The store and the rest of the world are never touched. *)
Theorem handleImagePreview_enables_analysis (env : Env) (files : list File) (p : Page) :
  let p' := pexec (handleImagePreview env files) p in
  fst (handleImagePreview env files p) = Normal tt
  /\ world p' = world p
  /\ match files with
     | file :: _ =>
         match readAsDataURL env file with
         | Fulfilled result =>
             image_preview_src p' = result
             /\ image_preview_display p' = "block"
             /\ analyze_image_btn_disabled p' = false
         | Rejected _ => p' = p
         end
     | [] => p' = p
     end.
Proof.
  intros p'. subst p'. unfold pexec, handleImagePreview.
  destruct files as [| file files]; [by repeat split |].
  destruct (readAsDataURL env file); by repeat split.
Qed.

(** ** Accordions *)

Lemma px_not_empty (scrollHeight : Z) :
  exists c s, pretty scrollHeight +:+ "px" = String c s.
Proof. destruct (pretty scrollHeight) as [| c s]; [by exists "p"%char, "x" | by exists c, (s +:+ "px")]. Qed.

Lemma click_once_opens (scrollHeight : Z) (a : Accordion) :
  collapsed a -> click_listeners a = 1%nat ->
  open_at scrollHeight (click_header scrollHeight a)
  /\ click_listeners (click_header scrollHeight a) = 1%nat.
Proof.
  destruct a as [act mh n]. unfold collapsed, open_at, click_header.
  cbn. intros [-> ->] ->. cbn. by repeat split.
Qed.

Lemma click_once_closes (scrollHeight scrollHeight' : Z) (a : Accordion) :
  open_at scrollHeight a -> click_listeners a = 1%nat ->
  click_header scrollHeight' a
  = {| acc_active := false; maxHeight := ""; click_listeners := 1 |}.
Proof.
  destruct a as [act mh n]. unfold open_at, click_header.
  cbn [acc_active maxHeight click_listeners]. intros [-> ->] ->.
  destruct (px_not_empty scrollHeight) as (c & s & ->). reflexivity.
Qed.

Lemma click_twice_listeners (scrollHeight : Z) (a : Accordion) :
  collapsed a -> click_listeners a = 2%nat -> click_header scrollHeight a = a.
Proof.
  destruct a as [act mh n]. unfold collapsed, click_header.
  cbn [acc_active maxHeight click_listeners]. intros [-> ->] ->.
  cbn [Nat.iter nat_rect]. unfold toggle_accordion at 2.
  cbn [acc_active maxHeight click_listeners negb].
  destruct (px_not_empty scrollHeight) as (c & s & ->). reflexivity.
Qed.

Lemma lookup_repeat {A} (x : A) (n i : nat) :
  repeat x n !! i = if decide (i < n)%nat then Some x else None.
Proof.
  revert i. induction n as [| n IH]; intros [| i]; cbn [repeat]; try reflexivity.
  - cbn. rewrite IH. repeat case_decide; try reflexivity; lia.
Qed.

Lemma length_card_entries (hs : list Hive) :
  length (concat (map inspections (map render_card hs)))
  = length (concat (map reports hs)).
Proof.
  induction hs as [| h hs IH]; [reflexivity |].
  cbn [map concat render_card inspections]. by rewrite !length_app, length_map, IH.
Qed.

Lemma hive_accordions_after_attach (p : Page) :
  shows_store (world p) ->
  hive_accordions (pexec attachHiveListListeners p)
  = repeat {| acc_active := false; maxHeight := ""; click_listeners := 1 |}
      (length (all_reports (state (world p)))).
Proof.
  intros Hshows.
  unfold pexec, attachHiveListListeners, pbind, pgets, pmodify, all_reports.
  destruct (hives (state (world p))) as [| h hs] eqn:Hhs; cbn [fst snd]; [reflexivity |].
  cbn [hive_accordions set_hive_accordions set_faq_list world].
  rewrite Hshows, Hhs, length_card_entries.
  induction (length (concat (map reports (h :: hs)))) as [| n IH]; [reflexivity |].
  cbn [repeat map]. by rewrite IH.
Qed.

Lemma all_reports_length_sorted (s : AppState) :
  length (all_reports (set_hives (map sort_reports) s)) = length (all_reports s).
Proof.
  unfold all_reports. cbn [hives set_hives].
  apply Permutation_length, all_reports_sorted.
Qed.

Lemma hive_accordions_after_render (p : Page) :
  hive_accordions (pexec renderHivesViewOnPage p)
  = repeat {| acc_active := false; maxHeight := ""; click_listeners := 1 |}
      (length (all_reports (state (world p)))).
Proof.
  unfold pexec at 1, renderHivesViewOnPage.
  rewrite (pbind_normal _ _ tt)
    by (rewrite (lift_normal _ tt) by apply render_normal; reflexivity).
  fold (pexec attachHiveListListeners (pexec (lift renderHivesView) p)).
  unfold pexec at 2. rewrite (lift_normal _ tt) by apply render_normal.
  cbn [snd]. rewrite hive_accordions_after_attach by apply render_shows_store.
  cbn [world set_world]. rewrite render_state. by rewrite all_reports_length_sorted.
Qed.

(** X17.  The entries of the hive list open and close one by one.  After a render
    of a store of plain text the list holds one collapsed entry per report of the
    store, each with a single click listener; a click on an entry opens it at the
    panel's scroll height and leaves every other entry as it is, so several can be
    open at once; a second click on the same entry collapses it again. *)
Theorem hive_accordion_toggles_one_entry (p : Page) (i : nat) (sh sh' : Z) :
  plain_store (state (world p)) ->
  let p1 := pexec renderHivesViewOnPage p in
  let p2 := pexec (clickHiveAccordion i sh) p1 in
  let p3 := pexec (clickHiveAccordion i sh') p2 in
  length (hive_accordions p1) = length (all_reports (state (world p)))
  /\ Forall (fun a => collapsed a /\ click_listeners a = 1%nat) (hive_accordions p1)
  /\ ((i < length (hive_accordions p1))%nat ->
      exists a, hive_accordions p2 !! i = Some a /\ open_at sh a)
  /\ (forall j, j <> i -> hive_accordions p2 !! j = hive_accordions p1 !! j)
  /\ hive_accordions p3 = hive_accordions p1
  /\ world p3 = world p1.
Proof.
  intros _ p1 p2 p3.
  pose proof (hive_accordions_after_render p) as Hacc. fold p1 in Hacc.
  set (fresh1 := {| acc_active := false; maxHeight := ""; click_listeners := 1 |}) in *.
  set (n := length (all_reports (state (world p)))) in *.
  assert (H2 : hive_accordions p2 = alter (click_header sh) i (hive_accordions p1))
    by reflexivity.
  assert (H3 : hive_accordions p3 = alter (click_header sh') i (hive_accordions p2))
    by reflexivity.
  split; [by rewrite Hacc, repeat_length |].
  split.
  { rewrite Hacc. apply Forall_forall. intros a Ha. apply list_elem_of_In, repeat_spec in Ha.
    subst a. by repeat split. }
  split.
  { intros Hi. rewrite Hacc, repeat_length in Hi.
    exists (click_header sh fresh1).
    split; [| apply click_once_opens; by repeat split].
    rewrite H2, list_lookup_alter_eq, Hacc, lookup_repeat.
    by rewrite decide_True. }
  split; [intros j Hj; rewrite H2; by apply list_lookup_alter_ne |].
  split; [| reflexivity].
  rewrite H3, H2, Hacc. apply list_eq. intros j.
  destruct (decide (j = i)) as [-> | Hne].
  - rewrite !list_lookup_alter_eq, lookup_repeat.
    case_decide; [| reflexivity]. cbn [fmap option_fmap option_map].
    f_equal. eapply click_once_closes; apply click_once_opens; by repeat split.
  - by rewrite !list_lookup_alter_ne.
Qed.

Lemma attach_faq (p : Page) :
  hives (state (world p)) <> [] ->
  faq_list (pexec attachHiveListListeners p) = map faq_add_click_listener (faq_list p).
Proof.
  intros Hsome. unfold pexec, attachHiveListListeners, pbind, pgets, pmodify.
  destruct (hives (state (world p))); [congruence | reflexivity].
Qed.

Lemma submitAddHive_eq (n l : string) (now : Z) (p : Page) :
  submitAddHive n l now p
  = attachHiveListListeners
      (set_world (fun _ => exec (handleAddHive n l now) (world p)) p).
Proof.
  unfold submitAddHive.
  rewrite (pbind_normal _ _ tt)
    by (rewrite (lift_normal _ tt) by (by rewrite handleAddHive_eq); reflexivity).
  unfold pexec. rewrite (lift_normal _ tt) by (by rewrite handleAddHive_eq).
  reflexivity.
Qed.

Lemma faq_list_after_render (p : Page) :
  faq_list (pexec renderFaqView p)
  = map (fun item => {| question := fst item; answer := snd item;
                        faq_accordion := {| acc_active := false; maxHeight := "";
                                            click_listeners := 1 |} |})
      FAQ_DATA.
Proof. reflexivity. Qed.

(** X18.  The FAQ entries work only until the hive list is rendered again.  After
    [renderFaqView] the list holds the questions and answers of [FAQ_DATA], each
    collapsed and with one click listener, and a click opens the entry clicked.
    Adding a hive then renders the hive list, which adds a click listener to every
    accordion header of the document: each FAQ header now has two, and a click on
    it runs both, leaving the entry collapsed as it was. *)
Theorem faq_entries_stop_opening_after_a_hive_render (n l : string) (now : Z)
    (i : nat) (sh : Z) (p : Page) :
  let p1 := pexec renderFaqView p in
  let p2 := pexec (submitAddHive n l now) p1 in
  map (fun e => (question e, answer e)) (faq_list p1) = FAQ_DATA
  /\ Forall (fun e => collapsed (faq_accordion e)
                      /\ click_listeners (faq_accordion e) = 1%nat) (faq_list p1)
  /\ ((i < length FAQ_DATA)%nat ->
      exists e, faq_list (pexec (clickFaqAccordion i sh) p1) !! i = Some e
                /\ open_at sh (faq_accordion e))
  /\ Forall (fun e => collapsed (faq_accordion e)
                      /\ click_listeners (faq_accordion e) = 2%nat) (faq_list p2)
  /\ faq_list (pexec (clickFaqAccordion i sh) p2) = faq_list p2.
Proof.
  intros p1 p2.
  pose proof (faq_list_after_render p) as H1. fold p1 in H1.
  assert (H2 : faq_list p2 = map faq_add_click_listener (faq_list p1)).
  { subst p2. unfold pexec at 1. rewrite submitAddHive_eq.
    fold (pexec attachHiveListListeners
            (set_world (fun _ => exec (handleAddHive n l now) (world p1)) p1)).
    rewrite attach_faq; [reflexivity |].
    cbn [world set_world]. rewrite hives_after_add_hive.
    intros Hnil. apply (f_equal length) in Hnil. rewrite length_app in Hnil.
    cbn in Hnil. lia. }
  split; [rewrite H1; reflexivity |].
  split; [rewrite H1; repeat constructor |].
  split.
  { intros Hi.
    change (faq_list (pexec (clickFaqAccordion i sh) p1))
      with (alter (faq_click_header sh) i (faq_list p1)).
    rewrite list_lookup_alter_eq, H1.
    destruct (lookup_lt_is_Some_2 FAQ_DATA i Hi) as [item Hitem].
    rewrite lookup_map, Hitem. cbn [fmap option_fmap option_map].
    eexists. split; [reflexivity |].
    cbn [faq_click_header faq_accordion]. apply click_once_opens; by repeat split. }
  assert (Hall : Forall (fun e => collapsed (faq_accordion e)
                                  /\ click_listeners (faq_accordion e) = 2%nat)
                   (faq_list p2)).
  { rewrite H2, H1. repeat constructor. }
  split; [exact Hall |].
  change (faq_list (pexec (clickFaqAccordion i sh) p2))
    with (alter (faq_click_header sh) i (faq_list p2)).
  apply list_eq. intros j.
  destruct (decide (j = i)) as [-> | Hne]; [| by rewrite list_lookup_alter_ne].
  rewrite list_lookup_alter_eq.
  destruct (faq_list p2 !! i) as [e |] eqn:Hlook; [| reflexivity].
  cbn [fmap option_fmap option_map]. f_equal.
  rewrite Forall_forall in Hall.
  destruct (Hall e (list_elem_of_lookup_2 _ _ _ Hlook)) as [Hc Hn].
  destruct e as [q a acc]. unfold faq_click_header.
  cbn [question answer faq_accordion] in *.
  f_equal. by apply click_twice_listeners.
Qed.

(** ** The hive list after a submission *)

(** X19.  After an add-hive submission of a name and a location of plain text, to
    a store of plain text, the dialog is closed and the hive list ends with the
    card of the new hive: its identifier, the submitted name and location, and no
    inspection entries.  The cards before it are those of the hives already in the
    store; the store is again of plain text; the inspection dialog, the alerts and
    the requests are as before. *)
Theorem add_hive_shows_the_new_card (n l : string) (now : Z) (w : World) :
  plain_text n -> plain_text l -> plain_store (state w) ->
  let w' := exec (handleAddHive n l now) w in
  plain_store (state w')
  /\ cards_of (hives_list (dom w'))
  = map render_card (map sort_reports (hives (state w)))
    ++ [ {| card_name := n; card_location := l;
            card_hive_id := "hive_" +:+ pretty now; inspections := [] |} ]
  /\ add_hive_modal_show (dom w') = false
  /\ add_inspection_modal_show (dom w') = add_inspection_modal_show (dom w)
  /\ alerts w' = alerts w
  /\ network w' = network w.
Proof.
  intros Hn Hl Hplain w'.
  split; [apply (perform_keeps_plain (AddHive n l now) w (conj Hn Hl) Hplain) |].
  pose proof (mutating_action_shows_store (AddHive n l now) w I) as Hshows.
  cbn [perform] in Hshows. fold w' in Hshows. unfold shows_store in Hshows.
  split.
  { rewrite Hshows. subst w'. rewrite hives_after_add_hive, map_app. reflexivity. }
  subst w'. unfold exec. rewrite handleAddHive_eq. cbn [snd].
  change (exec (closeModal AddHiveModal) ?x)
    with (set_dom (set_add_hive_modal_show false) x).
  rewrite render_eq.
  change (exec saveStateToLocalStorage ?x)
    with (set_localStorage
            <[storage_key := JSON.stringify (state_to_json (state x))]> x).
  repeat split.
Qed.

(** X20.  After an add-inspection submission of plain text whose hive is found in
    a store of plain text, the inspection dialog is closed, the feeding-amount
    field is hidden again, and the card of the hive lists one entry more than the
    hive had reports, the new report among them; the store is again of plain text;
    the add-hive dialog and the alerts are as before. *)
Theorem add_inspection_updates_the_card (form : InspectionForm) (now today : Z)
    (w : World) (i : nat) (h : Hive) :
  plain_form form -> plain_store (state w) ->
  list_find (fun h => h_id h = inspection_hive_id form) (hives (state w)) = Some (i, h) ->
  let w' := exec (handleAddInspection form now today) w in
  plain_store (state w')
  /\ add_inspection_modal_show (dom w') = false
  /\ feeding_amount_group_display (dom w') = "none"
  /\ add_hive_modal_show (dom w') = add_hive_modal_show (dom w)
  /\ alerts w' = alerts w
  /\ exists card,
       cards_of (hives_list (dom w')) !! i = Some card
       /\ card_hive_id card = inspection_hive_id form
       /\ length (inspections card) = S (length (reports h))
       /\ In (render_report (new_report form now today)) (inspections card).
Proof.
  intros Hform Hplain Hfind w'.
  split; [apply (perform_keeps_plain (AddInspection form now today) w Hform Hplain) |].
  assert (Hmut : mutates (AddInspection form now today) (state w)).
  { cbn [mutates]. unfold hive_ids. apply in_map_iff. exists h.
    apply list_find_Some in Hfind as (Hl & Hi & _).
    split; [exact Hi | by eapply list_elem_of_In, list_elem_of_lookup_2]. }
  pose proof (mutating_action_shows_store _ w Hmut) as Hshows.
  cbn [perform] in Hshows. fold w' in Hshows. unfold shows_store in Hshows.
  pose proof (hives_after_add_inspection form now today w i h Hfind) as Hhs.
  fold w' in Hhs.
  apply list_find_Some in Hfind as Hspec. destruct Hspec as (Hlook & Hid & _).
  assert (Hfields : add_inspection_modal_show (dom w') = false
                    /\ feeding_amount_group_display (dom w') = "none"
                    /\ add_hive_modal_show (dom w') = add_hive_modal_show (dom w)
                    /\ alerts w' = alerts w).
  { subst w'. unfold exec. rewrite (handleAddInspection_found _ _ _ _ _ _ Hfind).
    cbn [snd].
    change (exec (closeModal AddInspectionModal) ?x)
      with (set_dom (set_add_inspection_modal_show false) x).
    rewrite render_eq.
    change (exec saveStateToLocalStorage ?x)
      with (set_localStorage
              <[storage_key := JSON.stringify (state_to_json (state x))]> x).
    repeat split. }
  destruct Hfields as (H1 & H2 & H3 & H4).
  do 4 (split; [assumption |]).
  exists (render_card (sort_reports (push_report (new_report form now today) h))).
  split; [by rewrite Hshows, Hhs, !lookup_map, list_lookup_alter_eq, Hlook |].
  split; [exact Hid |].
  cbn [render_card inspections sort_reports push_report set_reports reports].
  split.
  - rewrite length_map, Array_sort_length, length_app. cbn. lia.
  - apply in_map. apply list_elem_of_In. rewrite Array_sort_Permutation.
    apply list_elem_of_In, in_or_app. right. by left.
Qed.

(** ** From a card's button to the store *)

Lemma clickAddInspection_eq (i : nat) (h : Hive) (p : Page) :
  shows_store (world p) ->
  hives (state (world p)) !! i = Some h ->
  pexec (clickAddInspection i) p
  = set_world (set_dom (set_add_inspection_modal_show true))
      (set_inspection_hive_id_value (fun _ => h_id h) p).
Proof.
  intros Hshows Hlook. unfold pexec, clickAddInspection, pbind, pgets.
  cbn [fst snd]. rewrite Hshows, lookup_map, Hlook. reflexivity.
Qed.

Lemma submitAddInspection_found (fields : InspectionForm) (now today : Z) (p : Page)
    (j : nat) (h : Hive) :
  list_find (fun x => h_id x = inspection_hive_id_value p) (hives (state (world p)))
  = Some (j, h) ->
  world (pexec (submitAddInspection fields now today) p)
  = exec (handleAddInspection (with_hive_id (inspection_hive_id_value p) fields) now today)
      (world p).
Proof.
  intros Hfind. unfold pexec at 1, submitAddInspection, pbind at 1 2, pgets.
  cbn [fst snd].
  assert (Hn : fst (handleAddInspection
                      (with_hive_id (inspection_hive_id_value p) fields) now today
                      (world p)) = Normal tt)
    by (by rewrite (handleAddInspection_found
                      (with_hive_id (inspection_hive_id_value p) fields) now today
                      (world p) j h Hfind)).
  rewrite (pbind_normal _ _ tt) by (by rewrite (lift_normal _ tt)).
  rewrite Hfind.
  fold (pexec attachHiveListListeners
          (pexec (lift (handleAddInspection
                          (with_hive_id (inspection_hive_id_value p) fields) now today)) p)).
  rewrite attach_world. unfold pexec. by rewrite (lift_normal _ tt).
Qed.

(** X21.  The path of an inspection from the page to the store.  On a page whose
    hive list shows a store of plain text, the "add inspection" buttons are those
    of the cards; a click on the button of the [i]-th card opens the inspection
    dialog and puts that hive's identifier into the hidden field; the submission
    of plain text that follows closes the dialog and appends the report to the
    first hive carrying that identifier, which is the [i]-th hive itself when the
    identifiers of the store are pairwise distinct.  The store stays of plain
    text. *)
Theorem inspection_reaches_the_hive_of_its_card (fields : InspectionForm)
    (now today : Z) (p : Page) (i : nat) (h : Hive) :
  plain_store (state (world p)) ->
  plain_form fields ->
  shows_store (world p) ->
  hives (state (world p)) !! i = Some h ->
  let p1 := pexec (clickAddInspection i) p in
  let p2 := pexec (submitAddInspection fields now today) p1 in
  let report := new_report (with_hive_id (h_id h) fields) now today in
  add_inspection_modal_show (dom (world p1)) = true
  /\ inspection_hive_id_value p1 = h_id h
  /\ state (world p1) = state (world p)
  /\ add_inspection_modal_show (dom (world p2)) = false
  /\ plain_store (state (world p2))
  /\ exists j,
       (j <= i)%nat
       /\ hive_ids (state (world p)) !! j = Some (h_id h)
       /\ hives (state (world p2))
          = map sort_reports (alter (push_report report) j (hives (state (world p))))
       /\ (NoDup (hive_ids (state (world p))) -> j = i).
Proof.
  intros Hplain Hfields Hshows Hlook p1 p2 report.
  assert (Hp1 : p1 = set_world (set_dom (set_add_inspection_modal_show true))
                       (set_inspection_hive_id_value (fun _ => h_id h) p))
    by (by apply clickAddInspection_eq).
  assert (Hid : inspection_hive_id_value p1 = h_id h) by (by rewrite Hp1).
  assert (Hst : state (world p1) = state (world p)) by (by rewrite Hp1).
  destruct (list_find_elem_of (fun x => h_id x = h_id h) (hives (state (world p))) h)
    as [[j h0] Hfind]; [by eapply list_elem_of_lookup_2 | reflexivity |].
  assert (Hfind1 : list_find (fun x => h_id x = inspection_hive_id_value p1)
                     (hives (state (world p1))) = Some (j, h0))
    by (by rewrite Hid, Hst).
  pose proof (submitAddInspection_found fields now today p1 j h0 Hfind1) as Hw2.
  fold p2 in Hw2. rewrite Hid in Hw2. fold report in Hw2.
  assert (Hfind1' : list_find
                      (fun x => h_id x = inspection_hive_id (with_hive_id (h_id h) fields))
                      (hives (state (world p1))) = Some (j, h0))
    by (by rewrite Hst).
  apply list_find_Some in Hfind as (Hj & Hjid & Hfirst).
  split; [by rewrite Hp1 |]. split; [exact Hid |]. split; [exact Hst |].
  split.
  { rewrite Hw2. unfold exec.
    rewrite (handleAddInspection_found _ _ _ _ _ _ Hfind1'). reflexivity. }
  split.
  { rewrite Hw2.
    apply (perform_keeps_plain (AddInspection (with_hive_id (h_id h) fields) now today)
             (world p1)); [exact Hfields | by rewrite Hst]. }
  exists j.
  assert (Hle : (j <= i)%nat).
  { destruct (decide (j <= i)%nat) as [Hle | Hgt]; [exact Hle |].
    exfalso. apply (Hfirst i h Hlook); [lia | reflexivity]. }
  assert (Hjth : hive_ids (state (world p)) !! j = Some (h_id h))
    by (unfold hive_ids; by rewrite lookup_map, Hj; cbn; rewrite Hjid).
  split; [exact Hle |]. split; [exact Hjth |]. split.
  - rewrite Hw2, (hives_after_add_inspection _ _ _ _ _ _ Hfind1'), Hst. reflexivity.
  - intros Hnodup. eapply NoDup_lookup; [exact Hnodup | exact Hjth |].
    unfold hive_ids. by rewrite lookup_map, Hlook.
Qed.

(** * Instances of the further properties *)

Lemma sample_world_hive : hives (state sample_world) !! 0%nat = Some sample_hive.
Proof. vm_compute. reflexivity. Defined.

Lemma sample_world_find :
  list_find (fun h => h_id h = inspection_hive_id sample_form) (hives (state sample_world))
  = Some (0%nat, sample_hive).
Proof. vm_compute. reflexivity. Defined.

Lemma sample_world_shows_store : shows_store sample_world.
Proof. vm_compute. reflexivity. Defined.

Lemma sample_page_has_view (w : World) : has_view "hives-view" (sample_page w).
Proof. left. reflexivity. Defined.

Lemma sample_form_plain : plain_form sample_form.
Proof. repeat split. Defined.

Lemma sample_world_plain : plain_store (state sample_world).
Proof.
  apply (perform_all_keeps_plain
           [AddHive "A" "north" 1700000000000;
            AddInspection sample_form 1700000001000 1700000001000] fresh_world).
  - repeat constructor.
  - constructor.
Defined.

Lemma unsorted_world_plain : plain_store (state unsorted_world).
Proof.
  apply (store_update_keeps_plain second_inspection (state sample_world)).
  - exact sample_form_plain.
  - exact sample_world_plain.
Defined.

Lemma sample_actions_plain :
  Forall plain_action [second_inspection; AddHive "B" "south" 1700000005000].
Proof. repeat constructor. Defined.

Lemma renderHivesView_writes_list_order_and_listeners_witness :
  plain_store (state (world (pexec renderFaqView (sample_page unsorted_world))))
  /\ localStorage
       (world (pexec renderHivesViewOnPage
                 (pexec renderFaqView (sample_page unsorted_world))))
     = localStorage unsorted_world
  /\ views (pexec renderHivesViewOnPage
              (pexec renderFaqView (sample_page unsorted_world)))
     = views (sample_page unsorted_world).
Proof.
  split; [exact unsorted_world_plain |].
  destruct (renderHivesView_writes_list_order_and_listeners
              (pexec renderFaqView (sample_page unsorted_world)) unsorted_world_plain)
    as (_ & Hstorage & _ & _ & _ & _ & _ & _ & _ & _ & _ & _ & _ & Hviews & _).
  split; [exact Hstorage | exact Hviews].
Defined.

Lemma advice_outcome_witness :
  hives (state sample_world) <> []
  /\ ai_advice_result (dom (exec (handleGetAIAdvice answering_env) sample_world)) = "ok"
  /\ loading_spinner_display (dom (exec (handleGetAIAdvice answering_env) sample_world))
     = "none".
Proof.
  assert (H : hives (state sample_world) <> []) by (vm_compute; discriminate).
  split; [exact H |].
  destruct (advice_outcome answering_env sample_world H)
    as (waiting & _ & _ & _ & _ & _ & _ & _ & Hspin & Hres & _).
  split; [exact Hres | exact Hspin].
Defined.

Lemma fileToBase64_strips_prefix_witness :
  no_comma "data:image/jpeg;base64" = true
  /\ no_comma "AAAA" = true
  /\ readAsDataURL failing_env sample_file
     = Fulfilled ("data:image/jpeg;base64" +:+ "," +:+ "AAAA" +:+ "")
  /\ fileToBase64 failing_env sample_file = Fulfilled (Some "AAAA").
Proof.
  split; [reflexivity |]. split; [reflexivity |]. split; [reflexivity |].
  apply (proj1 (fileToBase64_strips_prefix failing_env sample_file)
           "data:image/jpeg;base64" "AAAA" "");
    [reflexivity | reflexivity | left; reflexivity | reflexivity].
Defined.

Lemma render_twice_is_render_once_witness :
  all_dated (state unsorted_world)
  /\ exec renderHivesView (exec renderHivesView unsorted_world)
     = exec renderHivesView unsorted_world.
Proof.
  split; [exact unsorted_world_dated |].
  apply (render_twice_is_render_once unsorted_world unsorted_world_dated).
Defined.

Lemma actions_never_delete_witness :
  hives (state sample_world) !! 0%nat = Some sample_hive
  /\ exists h',
       hives (state (exec (perform_all [second_inspection; AddHive "B" "south" 1700000005000])
                       sample_world)) !! 0%nat = Some h'
       /\ h_id h' = h_id sample_hive /\ name h' = name sample_hive
       /\ location h' = location sample_hive
       /\ forall r, In r (reports sample_hive) -> In r (reports h').
Proof.
  split; [exact sample_world_hive |].
  apply (actions_never_delete [second_inspection; AddHive "B" "south" 1700000005000]
           sample_world 0%nat sample_hive sample_world_hive).
Defined.

Lemma hive_list_follows_store_witness :
  plain_store (state sample_world)
  /\ Forall plain_action [second_inspection; AddHive "B" "south" 1700000005000]
  /\ shows_store sample_world
  /\ shows_store (exec (perform_all [second_inspection; AddHive "B" "south" 1700000005000])
                    sample_world).
Proof.
  split; [exact sample_world_plain |]. split; [exact sample_actions_plain |].
  split; [exact sample_world_shows_store |].
  destruct (hive_list_follows_store [second_inspection; AddHive "B" "south" 1700000005000]
              sample_world sample_world_plain sample_actions_plain
              sample_world_shows_store) as (_ & Hshows & _).
  exact Hshows.
Defined.

Lemma inspection_from_a_card_finds_its_hive_witness :
  plain_store (state sample_world)
  /\ Forall plain_action [AddHive "B" "south" 1700000005000]
  /\ plain_form sample_form
  /\ shows_store sample_world
  /\ In (render_card sample_hive) (cards_of (hives_list (dom sample_world)))
  /\ inspection_hive_id sample_form = card_hive_id (render_card sample_hive)
  /\ mutates (AddInspection sample_form 1700000006000 1700000006000)
       (state (exec (perform_all [AddHive "B" "south" 1700000005000]) sample_world)).
Proof.
  assert (Hin : In (render_card sample_hive) (cards_of (hives_list (dom sample_world))))
    by (vm_compute; left; reflexivity).
  assert (Hacts : Forall plain_action [AddHive "B" "south" 1700000005000])
    by (repeat constructor).
  split; [exact sample_world_plain |]. split; [exact Hacts |].
  split; [exact sample_form_plain |].
  split; [exact sample_world_shows_store |].
  split; [exact Hin |]. split; [reflexivity |].
  apply (inspection_from_a_card_finds_its_hive [AddHive "B" "south" 1700000005000]
           (render_card sample_hive) sample_form 1700000006000 1700000006000 sample_world
           sample_world_plain Hacts sample_form_plain sample_world_shows_store Hin eq_refl).
Defined.




Lemma navigateTo_activates_one_view_witness :
  has_view "faq-view" (sample_page sample_world)
  /\ active_views (pexec (navigateTo "faq-view") (sample_page sample_world)) = ["faq-view"]
  /\ world (pexec (navigateTo "faq-view") (sample_page sample_world)) = sample_world.
Proof.
  assert (H : has_view "faq-view" (sample_page sample_world))
    by (do 3 right; left; reflexivity).
  split; [exact H |].
  destruct (navigateTo_activates_one_view "faq-view" (sample_page sample_world) H)
    as (_ & Hviews & _ & _ & _ & Hworld & _).
  split; [exact Hviews | exact Hworld].
Defined.

Lemma navigateTo_missing_view_hides_all_witness :
  ~ has_view "settings-view" (sample_page sample_world)
  /\ ~ In "settings-view" (other_ids (sample_page sample_world))
  /\ fst (navigateTo "settings-view" (sample_page sample_world))
     = Throw (element_not_found "settings-view")
  /\ active_views (pexec (navigateTo "settings-view") (sample_page sample_world)) = [].
Proof.
  assert (H1 : ~ has_view "settings-view" (sample_page sample_world))
    by (intros [H | [H | [H | [H | []]]]]; discriminate H).
  assert (H2 : ~ In "settings-view" (other_ids (sample_page sample_world)))
    by (intros []).
  split; [exact H1 |]. split; [exact H2 |].
  destruct (navigateTo_missing_view_hides_all "settings-view" (sample_page sample_world)
              H1 H2) as (Hthrow & Hviews & _).
  split; [exact Hthrow | exact Hviews].
Defined.

Lemma second_inspection_mutates : mutates second_inspection (state sample_world).
Proof. vm_compute. left. reflexivity. Defined.

Lemma reload_restores_store_and_hive_list_witness :
  mutates second_inspection (state sample_world)
  /\ has_view "hives-view"
       (sample_page (reloaded_page (exec (perform second_inspection) sample_world)))
  /\ state (world (pexec initializeApp
                     (sample_page
                        (reloaded_page (exec (perform second_inspection) sample_world)))))
     = state (exec (perform second_inspection) sample_world).
Proof.
  split; [exact second_inspection_mutates |].
  split; [apply sample_page_has_view |].
  destruct (reload_restores_store_and_hive_list second_inspection sample_world
              (sample_page (reloaded_page (exec (perform second_inspection) sample_world)))
              second_inspection_mutates
              (reloaded_page_storage (exec (perform second_inspection) sample_world))
              (sample_page_has_view _))
    as (_ & Hstate & _).
  exact Hstate.
Defined.

Lemma fresh_world_no_blob : localStorage fresh_world !! storage_key = None.
Proof. apply lookup_empty. Defined.

Lemma initializeApp_without_blob_witness :
  localStorage (world (sample_page fresh_world)) !! storage_key = None
  /\ has_view "hives-view" (sample_page fresh_world)
  /\ hives_list (dom (world (pexec initializeApp (sample_page fresh_world)))) = Placeholder
  /\ active_views (pexec initializeApp (sample_page fresh_world)) = ["hives-view"].
Proof.
  split; [exact fresh_world_no_blob |].
  split; [apply sample_page_has_view |].
  destruct (initializeApp_without_blob (sample_page fresh_world)
              (or_introl fresh_world_no_blob) (sample_page_has_view _))
    as (_ & _ & Hplace & _ & Hviews).
  split; [exact (Hplace eq_refl) | exact Hviews].
Defined.

Lemma renderImageView_lists_hives_witness :
  plain_store (state (world (sample_page sample_world)))
  /\ hives (state (world (sample_page sample_world))) <> []
  /\ map option_text (hive_select (pexec renderImageView (sample_page sample_world)))
     = map name (hives (state (world (sample_page sample_world))))
  /\ upload_image_btn_disabled (pexec renderImageView (sample_page sample_world)) = false.
Proof.
  assert (H : hives (state (world (sample_page sample_world))) <> [])
    by (vm_compute; discriminate).
  split; [exact sample_world_plain |]. split; [exact H |].
  destruct (renderImageView_lists_hives (sample_page sample_world) sample_world_plain)
    as (_ & Hsome & _).
  destruct (Hsome H) as (_ & Htext & _ & Hupload).
  split; [exact Htext | exact Hupload].
Defined.

Lemma hive_accordion_toggles_one_entry_witness :
  plain_store (state (world (sample_page unsorted_world)))
  /\ (0 < length (hive_accordions
                    (pexec renderHivesViewOnPage (sample_page unsorted_world))))%nat
  /\ exists a,
       hive_accordions
         (pexec (clickHiveAccordion 0 120)
            (pexec renderHivesViewOnPage (sample_page unsorted_world))) !! 0%nat = Some a
       /\ open_at 120 a.
Proof.
  assert (H : (0 < length (hive_accordions
                             (pexec renderHivesViewOnPage (sample_page unsorted_world))))%nat)
    by (vm_compute; lia).
  split; [exact unsorted_world_plain |]. split; [exact H |].
  destruct (hive_accordion_toggles_one_entry (sample_page unsorted_world) 0%nat 120 120
              unsorted_world_plain)
    as (_ & _ & Hopen & _).
  exact (Hopen H).
Defined.

Lemma faq_entries_stop_opening_after_a_hive_render_witness :
  (0 < length FAQ_DATA)%nat
  /\ exists e,
       faq_list (pexec (clickFaqAccordion 0 120)
                   (pexec renderFaqView (sample_page fresh_world))) !! 0%nat = Some e
       /\ open_at 120 (faq_accordion e).
Proof.
  assert (H : (0 < length FAQ_DATA)%nat) by (vm_compute; lia).
  split; [exact H |].
  destruct (faq_entries_stop_opening_after_a_hive_render "A" "north" 1700000000000
              0%nat 120 (sample_page fresh_world)) as (_ & _ & Hopen & _).
  exact (Hopen H).
Defined.

Lemma add_hive_shows_the_new_card_witness :
  plain_text "B" /\ plain_text "south" /\ plain_store (state sample_world)
  /\ add_hive_modal_show (dom (exec (handleAddHive "B" "south" 1700000005000) sample_world))
     = false
  /\ plain_store (state (exec (handleAddHive "B" "south" 1700000005000) sample_world)).
Proof.
  split; [reflexivity |]. split; [reflexivity |]. split; [exact sample_world_plain |].
  destruct (add_hive_shows_the_new_card "B" "south" 1700000005000 sample_world
              eq_refl eq_refl sample_world_plain)
    as (Hplain & _ & Hmodal & _).
  split; [exact Hmodal | exact Hplain].
Defined.

Lemma add_inspection_updates_the_card_witness :
  plain_form sample_form
  /\ plain_store (state sample_world)
  /\ list_find (fun h => h_id h = inspection_hive_id sample_form)
       (hives (state sample_world))
     = Some (0%nat, sample_hive)
  /\ add_inspection_modal_show
       (dom (exec (handleAddInspection sample_form 1700000002000 1700000002000)
               sample_world)) = false
  /\ feeding_amount_group_display
       (dom (exec (handleAddInspection sample_form 1700000002000 1700000002000)
               sample_world)) = "none".
Proof.
  split; [exact sample_form_plain |]. split; [exact sample_world_plain |].
  split; [exact sample_world_find |].
  destruct (add_inspection_updates_the_card sample_form 1700000002000 1700000002000
              sample_world 0%nat sample_hive sample_form_plain sample_world_plain
              sample_world_find)
    as (_ & Hmodal & Hfeed & _).
  split; [exact Hmodal | exact Hfeed].
Defined.

Lemma inspection_reaches_the_hive_of_its_card_witness :
  plain_store (state (world (sample_page sample_world)))
  /\ plain_form sample_form
  /\ shows_store (world (sample_page sample_world))
  /\ hives (state (world (sample_page sample_world))) !! 0%nat = Some sample_hive
  /\ inspection_hive_id_value (pexec (clickAddInspection 0) (sample_page sample_world))
     = h_id sample_hive
  /\ add_inspection_modal_show
       (dom (world (pexec (submitAddInspection sample_form 1700000002000 1700000002000)
                      (pexec (clickAddInspection 0) (sample_page sample_world)))))
     = false.
Proof.
  split; [exact sample_world_plain |]. split; [exact sample_form_plain |].
  split; [exact sample_world_shows_store |].
  split; [exact sample_world_hive |].
  destruct (inspection_reaches_the_hive_of_its_card sample_form 1700000002000
              1700000002000 (sample_page sample_world) 0%nat sample_hive
              sample_world_plain sample_form_plain
              sample_world_shows_store sample_world_hive)
    as (_ & Hid & _ & Hclosed & _).
  split; [exact Hid | exact Hclosed].
Defined.
